(** * oemof.solph formulation blocks: a shallow embedding

    The blocks of [oemof.solph] translate a network of flows into the
    variables and constraints of a Pyomo model.  This development embeds
    the rules of the blocks as functions that build symbolic constraints,
    and proves properties of what they emit.

    Conventions of the embedding
    - Python numbers that are capacities, costs or rates are rationals
      ([Q]); rounding of floats is not modelled.  Period ordinals, year
      offsets, lifetimes, ages and timesteps are integers ([Z]).
    - A Pyomo expression is a syntax tree ([expr]) built by the Python
      operators in the order the source applies them; a relational
      expression is a [relation].
    - A Python exception is a value of [exn]; code that can raise returns
      a [result].
    - Nodes hash and compare by their label, so a node is its label. *)

From Stdlib Require Import List ZArith QArith Qpower String Bool Lia Lqa.
Import ListNotations.
Local Open Scope string_scope.
Local Open Scope list_scope.
Local Open Scope Z_scope.

(* ------------------------------------------------------------------ *)
(** * Python exceptions and the error monad *)

Definition node := string.

(** A component of a Pyomo index tuple: a node or an integer. *)
Inductive idx :=
| N (n : node)
| I (z : Z).

Definition key := list idx.

Inductive exn :=
| KeyError (k : key)
| ValueError (args : list string)
| AttributeError (attr : string)
| IndexError
| TypeError
| ZeroDivisionError.

Inductive result (A : Type) :=
| Ok (a : A)
| Raise (e : exn).
Arguments Ok {A} a.
Arguments Raise {A} e.

Definition bind {A B} (c : result A) (k : A -> result B) : result B :=
  match c with
  | Ok a => k a
  | Raise e => Raise e
  end.

Notation "x <- c ;; k" := (bind c (fun x => k))
  (at level 61, c at next level, right associativity).

(** A Python [for] loop whose body adds zero or more entries, or raises:
    the entries of all iterations, in order; the first exception aborts
    the loop. *)
Fixpoint for_each {A B} (body : A -> result (list B)) (l : list A)
  : result (list B) :=
  match l with
  | [] => Ok []
  | a :: l' =>
      bs <- body a ;;
      rest <- for_each body l' ;;
      Ok (bs ++ rest)
  end.

(** A Python [for] loop that updates local state, or raises. *)
Fixpoint fold_m {A S} (body : S -> A -> result S) (l : list A) (s : S)
  : result S :=
  match l with
  | [] => Ok s
  | a :: l' => s' <- body s a ;; fold_m body l' s'
  end.

(** An operand that must be a number: arithmetic on [None] is a
    [TypeError]. *)
Definition number {A} (o : option A) : result A :=
  match o with
  | Some q => Ok q
  | None => Raise TypeError
  end.

(** Attribute access on an object that may be [None]. *)
Definition attr_of {A} (name : string) (o : option A) : result A :=
  match o with
  | Some a => Ok a
  | None => Raise (AttributeError name)
  end.

(** [range(a, b)] *)
Definition range (a b : Z) : list Z :=
  map (fun k => a + Z.of_nat k) (seq 0 (Z.to_nat (b - a))).

(* ------------------------------------------------------------------ *)
(** * Symbolic expressions *)

(** The decision variables of the model and of its blocks. *)
Inductive var :=
| flow_pt (i o : node) (p t : Z)      (* m.flow[i, o, p, t] *)
| flow_t (i o : node) (t : Z)         (* m.flow[i, o, t] *)
| invest (i o : node) (p : Z)
| total (i o : node) (p : Z)
| old (i o : node) (p : Z)
| old_end (i o : node) (p : Z)
| old_exo (i o : node) (p : Z)
| invest_status (i o : node) (p : Z)
| status (i o : node) (t : Z)
| startup (i o : node) (t : Z)
| shutdown (i o : node) (t : Z).

Inductive expr :=
| Num (q : Q)
| Var (x : var)
| Add (a b : expr)
| Sub (a b : expr)
| Mul (a b : expr)
| Neg (a : expr).

Inductive relation :=
| Eq (l r : expr)       (* l == r *)
| Le (l r : expr)       (* l <= r *)
| Ge (l r : expr).      (* l >= r *)

(** An indexed Pyomo [Constraint]: the entries added to it, by key. *)
Definition constraints := list (key * relation).

Definition assignment := var -> Q.

Fixpoint eval (rho : assignment) (e : expr) : Q :=
  match e with
  | Num q => q
  | Var x => rho x
  | Add a b => eval rho a + eval rho b
  | Sub a b => eval rho a - eval rho b
  | Mul a b => eval rho a * eval rho b
  | Neg a => - eval rho a
  end%Q.

Definition holds (rho : assignment) (c : relation) : Prop :=
  match c with
  | Eq l r => eval rho l == eval rho r
  | Le l r => eval rho l <= eval rho r
  | Ge l r => eval rho r <= eval rho l
  end%Q.

(** Python's [sum(...)]: starts from the integer 0 and adds from the
    left. *)
Definition py_sum (l : list expr) : expr := fold_left Add l (Num 0).

(** The value of a comparison [lhs == rhs]: a Python bool when both
    sides are plain numbers, a relational expression otherwise. *)
Inductive pyobj :=
| PyBool (b : bool)
| PyRel (c : relation).

Definition py_eq (lhs rhs : expr) : pyobj :=
  match lhs, rhs with
  | Num a, Num b => PyBool (Qeq_bool a b)
  | _, _ => PyRel (Eq lhs rhs)
  end.

(* ------------------------------------------------------------------ *)
(** * The data model *)

(** A sequence attribute read through oemof's [sequence] wrapper: the
    entry at an index, which may be [None], and what [len] returns. *)
Record sequence := {
  item : Z -> option Q;
  len : nat
}.

(** [sequence(x)] of a scalar: the same entry at every index. *)
Definition scalar (o : option Q) : sequence :=
  {| item := fun _ => o; len := 0 |}.

(** A list-like sequence. *)
Definition series (l : list (option Q)) : sequence :=
  {| item := fun z => if z <? 0 then None else nth (Z.to_nat z) l None;
     len := List.length l |}.

Module Investment.
Record t := {
    nonconvex : bool;
    minimum : sequence;
    maximum : sequence;
    existing : Q;
    lifetime : option Z;
    age : Z;
    ep_costs : sequence;
    offset : sequence;
    interest_rate : Q;
    fixed_costs : sequence;
    overall_maximum : option Q;
    overall_minimum : option Q
  }.
End Investment.

Module NonConvex.
Record t := {
    initial_status : Q;
    minimum_uptime : option Z;
    minimum_downtime : option Z;
    (* the property [max_up_down] of the options class: the larger of
       the minimum up and down times *)
    max_up_down : Z;
    startup_costs : sequence;
    shutdown_costs : sequence;
    activity_costs : sequence;
    maximum_startups : option Z;
    maximum_shutdowns : option Z
  }.
End NonConvex.

Module Flow.
Record t := {
    nominal_value : option Q;
    min : sequence;
    max : sequence;
    fix_ : sequence;     (* the attribute [fix] *)
    full_load_time_max : option Q;
    full_load_time_min : option Q;
    (* read by the blocks of blocks.py *)
    summed_max : option Q;
    summed_min : option Q;
    investment : option Investment.t;
    multiperiodinvestment : option Investment.t;
    nonconvex : option NonConvex.t
  }.
End Flow.

(** A node with the nodes it has flows from and to. *)
Module Node.
Record t := {
    label : node;
    inputs : list node;
    outputs : list node;
    (* of a Transformer: the dict [conversion_factors] *)
    conversion_factors : list (node * sequence)
  }.
End Node.

(** The energy system [m.es] as far as the blocks read it. *)
Module EnergySystem.
Record t := {
    multi_period : bool;
    (* [periods_years]: the year offset of each period, keyed by the
       period ordinals 0, 1, ... in order *)
    periods_years : list Z
  }.
End EnergySystem.

(** The parent model [m] as far as the blocks read it. *)
Module Model.
Record t := {
    es : EnergySystem.t;
    (* number of timesteps: TIMESTEPS is 0 .. n_timesteps-1 *)
    n_timesteps : nat;
    (* TIMEINDEX: the (period, timestep) pairs *)
    TIMEINDEX : list (Z * Z);
    timeincrement : Z -> Q;
    discount_rate : Q
  }.

  (** PERIODS: the ordinals of the periods, 0 .. P-1. *)
Definition PERIODS (m : t) : list Z :=
    range 0 (Z.of_nat (List.length (EnergySystem.periods_years (es m)))).

Definition TIMESTEPS (m : t) : list Z := range 0 (Z.of_nat (n_timesteps m)).

  (** [m.es.periods_years[p]] *)
Definition periods_years (m : t) (p : Z) : result Z :=
    if p <? 0 then Raise (KeyError [I p])
    else match nth_error (EnergySystem.periods_years (es m)) (Z.to_nat p) with
         | Some y => Ok y
         | None => Raise (KeyError [I p])
         end.

  (** [m.es.periods_years.items()] *)
Definition periods_years_items (m : t) : list (Z * Z) :=
    combine (PERIODS m) (EnergySystem.periods_years (es m)).
End Model.

(** A flow group: the flow objects with their source and target,
    [(s, t, f)]; [f] is the object [m.flows[s, t]]. *)
Definition group := list (node * node * Flow.t).

(** Indexing a variable over PERIODS (or TIMESTEPS): an index outside
    the set is a [KeyError]. *)
Definition indexed (dom : list Z) (mk : Z -> var) (i o : node) (z : Z)
  : result expr :=
  if existsb (Z.eqb z) dom then Ok (Var (mk z))
  else Raise (KeyError [N i; N o; I z]).

(** [s[-1]] of a Pyomo set. *)
Definition last_of (s : list Z) : result Z :=
  match rev s with
  | z :: _ => Ok z
  | [] => Raise IndexError
  end.

(** [s[1]] of a Pyomo set: its first element (Pyomo sets count from 1). *)
Definition first_of (s : list Z) : result Z :=
  match s with
  | z :: _ => Ok z
  | [] => Raise IndexError
  end.

(** What a constraint rule may return: Pyomo takes a relational
    expression and refuses a plain bool. *)
Definition rule_value (v : pyobj) : result relation :=
  match v with
  | PyRel c => Ok c
  | PyBool _ => Raise (ValueError ["Constraint rule returned a bool"])
  end.

Definition py_le (lhs rhs : expr) : pyobj :=
  match lhs, rhs with
  | Num a, Num b => PyBool (Qle_bool a b)
  | _, _ => PyRel (Le lhs rhs)
  end.

(** [try: c except ValueError: h] *)
Definition try_except_ValueError {A} (c h : result A) : result A :=
  match c with
  | Raise (ValueError _) => h
  | _ => c
  end.

(** [d[k]] on a dict keyed by nodes. *)
Fixpoint dict_get {A} (d : list (node * A)) (k : node) : result A :=
  match d with
  | [] => Raise (KeyError [N k])
  | (k', a) :: rest => if String.eqb k' k then Ok a else dict_get rest k
  end.

(** A Pyomo [Constraint] indexed by a set of flows and a set of
    integers, built by a rule: one entry per index. *)
Definition constraint_over (flows : group) (dom : list Z)
    (rule : node -> node -> Flow.t -> Z -> result relation)
  : result constraints :=
  for_each (fun '(i, o, f) =>
    for_each (fun t => c <- rule i o f t ;; Ok [([N i; N o; I t], c)]) dom)
    flows.

(** A Pyomo [Constraint] indexed by a set of flows. *)
Definition constraint_per_flow (flows : group)
    (rule : node -> node -> Flow.t -> result relation) : result constraints :=
  for_each (fun '(i, o, f) => c <- rule i o f ;; Ok [([N i; N o], c)]) flows.

(** The flows of a group that pass a test; the test may raise. *)
Definition select (test : Flow.t -> result bool) (g : group) : result group :=
  for_each (fun '(i, o, f) =>
              b <- test f ;; Ok (if b : bool then [(i, o, f)] else [])) g.

(* ------------------------------------------------------------------ *)
(** * flows/_investment_flow_block.py: [InvestmentFlowBlock] *)

Module InvestmentFlowBlock.

Definition investment (f : Flow.t) : result Investment.t :=
    attr_of "investment" (Flow.investment f).

Definition is_none {A} (o : option A) : bool :=
    match o with None => true | Some _ => false end.

Record sets := {
    INVESTFLOWS : group;
    CONVEX_INVESTFLOWS : group;
    NON_CONVEX_INVESTFLOWS : group;
    FIXED_INVESTFLOWS : group;
    NON_FIXED_INVESTFLOWS : group;
    FULL_LOAD_TIME_MAX_INVESTFLOWS : group;
    FULL_LOAD_TIME_MIN_INVESTFLOWS : group;
    MIN_INVESTFLOWS : group;
    EXISTING_INVESTFLOWS : group;
    OVERALL_MAXIMUM_INVESTFLOWS : group;
    OVERALL_MINIMUM_INVESTFLOWS : group
  }.

Definition _create_sets (g : group) : result sets :=
    convex <- select (fun f => iv <- investment f ;;
                               Ok (negb (Investment.nonconvex iv))) g ;;
    non_convex <- select (fun f => iv <- investment f ;;
                                   Ok (Investment.nonconvex iv)) g ;;
    fixed <- select (fun f => Ok (negb (is_none (item (Flow.fix_ f) 0)))) g ;;
    non_fixed <- select (fun f => Ok (is_none (item (Flow.fix_ f) 0))) g ;;
    flt_max <- select (fun f => Ok (negb (is_none (Flow.full_load_time_max f)))) g ;;
    flt_min <- select (fun f => Ok (negb (is_none (Flow.full_load_time_min f)))) g ;;
    mins <- select (fun f =>
                      Ok (match item (Flow.min f) 0 with
                          | Some q => negb (Qeq_bool q 0)
                          | None => true
                          end || (1 <? len (Flow.min f))%nat)) g ;;
    (* [existing] is a number here, never [None] *)
    existing <- select (fun f => _ <- investment f ;; Ok true) g ;;
    omax <- select (fun f => iv <- investment f ;;
                             Ok (negb (is_none (Investment.overall_maximum iv)))) g ;;
    omin <- select (fun f => iv <- investment f ;;
                             Ok (negb (is_none (Investment.overall_minimum iv)))) g ;;
    Ok {| INVESTFLOWS := g;
          CONVEX_INVESTFLOWS := convex;
          NON_CONVEX_INVESTFLOWS := non_convex;
          FIXED_INVESTFLOWS := fixed;
          NON_FIXED_INVESTFLOWS := non_fixed;
          FULL_LOAD_TIME_MAX_INVESTFLOWS := flt_max;
          FULL_LOAD_TIME_MIN_INVESTFLOWS := flt_min;
          MIN_INVESTFLOWS := mins;
          EXISTING_INVESTFLOWS := existing;
          OVERALL_MAXIMUM_INVESTFLOWS := omax;
          OVERALL_MINIMUM_INVESTFLOWS := omin |}.

  Section Rules.
    Variable m : Model.t.
    Variable s : sets.

    Local Abbreviation PERIODS := (Model.PERIODS m).
    Local Abbreviation multi_period := (EnergySystem.multi_period (Model.es m)).

    (** The variables of [_create_variables].  [old], [old_end] and
        [old_exo] exist in a multi-period model only. *)
Definition v_invest i o := indexed PERIODS (invest i o) i o.
Definition v_total i o := indexed PERIODS (total i o) i o.
Definition v_invest_status i o := indexed PERIODS (invest_status i o) i o.
Definition v_old i o p :=
      if multi_period then indexed PERIODS (old i o) i o p
      else Raise (AttributeError "old").
Definition v_old_end i o p :=
      if multi_period then indexed PERIODS (old_end i o) i o p
      else Raise (AttributeError "old_end").
Definition v_old_exo i o p :=
      if multi_period then indexed PERIODS (old_exo i o) i o p
      else Raise (AttributeError "old_exo").

Definition _min_invest_rule : result constraints :=
      for_each (fun '(i, o, f) =>
        for_each (fun p =>
          iv <- investment f ;;
          st <- v_invest_status i o p ;;
          lo <- number (item (Investment.minimum iv) p) ;;
          inv <- v_invest i o p ;;
          Ok [([N i; N o; I p], Le (Mul (Num lo) st) inv)]) PERIODS)
        (NON_CONVEX_INVESTFLOWS s).

Definition _max_invest_rule : result constraints :=
      for_each (fun '(i, o, f) =>
        for_each (fun p =>
          inv <- v_invest i o p ;;
          iv <- investment f ;;
          hi <- number (item (Investment.maximum iv) p) ;;
          st <- v_invest_status i o p ;;
          Ok [([N i; N o; I p], Le inv (Mul (Num hi) st))]) PERIODS)
        (NON_CONVEX_INVESTFLOWS s).

Definition total_capacity_step (i o : node) (f : Flow.t) (p : Z)
      : result constraints :=
      if p =? 0 then
        tot <- v_total i o p ;;
        inv <- v_invest i o p ;;
        iv <- investment f ;;
        Ok [([N i; N o; I p],
             Eq tot (Add inv (Num (Investment.existing iv))))]
      else
        tot <- v_total i o p ;;
        inv <- v_invest i o p ;;
        prev <- v_total i o (p - 1) ;;
        od <- v_old i o p ;;
        Ok [([N i; N o; I p], Eq tot (Sub (Add inv prev) od))].

Definition _total_capacity_rule : result constraints :=
      for_each (fun '(i, o, f) =>
        for_each (total_capacity_step i o f) PERIODS) (INVESTFLOWS s).

    (** The message of the [ValueError] for a missing lifetime; the labels
        stand for the printed pair of nodes. *)
Definition lifetime_missing (i o : node) : exn :=
      ValueError
        ["You have to specify a lifetime for a Flow with an associated investment object in a multi-period model! Value for ";
         i; o; " is missing."].

    (** The scan for the commissioning period: [d] is
        [periods_years[p] - lifetime]; the first item [(k, v)] with
        [d - v < 0] gives [k - 1], and without one it stays 0. *)
Fixpoint commissioning_period (items : list (Z * Z)) (d : Z) : Z :=
      match items with
      | [] => 0
      | (k, v) :: rest =>
          if d - v <? 0 then k - 1 else commissioning_period rest d
      end.

Definition old_end_step (i o : node) (lifetime : Z) (p : Z)
      : result constraints :=
      if p =? 0 then
        oe <- v_old_end i o p ;;
        Ok [([N i; N o; I p], Eq oe (Num 0))]
      else
        y <- Model.periods_years m p ;;
        if lifetime <=? y then
          let comm_p :=
            commissioning_period (Model.periods_years_items m) (y - lifetime) in
          oe <- v_old_end i o p ;;
          inv <- v_invest i o comm_p ;;
          Ok [([N i; N o; I p], Eq oe inv)]
        else
          oe <- v_old_end i o p ;;
          Ok [([N i; N o; I p], Eq oe (Num 0))].

Definition _old_capacity_rule_end : result constraints :=
      for_each (fun '(i, o, f) =>
        iv <- investment f ;;
        match Investment.lifetime iv with
        | None => Raise (lifetime_missing i o)
        | Some lifetime => for_each (old_end_step i o lifetime) PERIODS
        end) (INVESTFLOWS s).

    (** The loop over the periods of one flow in [_old_capacity_rule_exo],
        with the flag [is_decommissioned] it carries along. *)
Fixpoint old_exo_periods (i o : node) (iv : Investment.t)
        (periods : list Z) (is_decommissioned : bool) : result constraints :=
      match periods with
      | [] => Ok []
      | p :: rest =>
          if p =? 0 then
            ox <- v_old_exo i o p ;;
            more <- old_exo_periods i o iv rest is_decommissioned ;;
            Ok (([N i; N o; I p], Eq ox (Num 0)) :: more)
          else
            lifetime <- number (Investment.lifetime iv) ;;
            y <- Model.periods_years m p ;;
            if lifetime - Investment.age iv <=? y then
              if negb is_decommissioned then
                ox <- v_old_exo i o p ;;
                more <- old_exo_periods i o iv rest true ;;
                Ok (([N i; N o; I p],
                     Eq ox (Num (Investment.existing iv))) :: more)
              else
                ox <- v_old_exo i o p ;;
                more <- old_exo_periods i o iv rest is_decommissioned ;;
                Ok (([N i; N o; I p], Eq ox (Num 0)) :: more)
            else
              ox <- v_old_exo i o p ;;
              more <- old_exo_periods i o iv rest is_decommissioned ;;
              Ok (([N i; N o; I p], Eq ox (Num 0)) :: more)
      end.

Definition _old_capacity_rule_exo : result constraints :=
      for_each (fun '(i, o, f) =>
        iv <- investment f ;;
        old_exo_periods i o iv PERIODS false) (INVESTFLOWS s).

Definition _old_capacity_rule : result constraints :=
      for_each (fun '(i, o, f) =>
        for_each (fun p =>
          od <- v_old i o p ;;
          oe <- v_old_end i o p ;;
          ox <- v_old_exo i o p ;;
          Ok [([N i; N o; I p], Eq od (Add oe ox))]) PERIODS)
        (INVESTFLOWS s).

Definition _investflow_fixed_rule : result constraints :=
      for_each (fun '(i, o, f) =>
        for_each (fun '(p, t) =>
          tot <- v_total i o p ;;
          fx <- number (item (Flow.fix_ f) t) ;;
          Ok [([N i; N o; I p; I t],
               Eq (Var (flow_pt i o p t)) (Mul tot (Num fx)))])
          (Model.TIMEINDEX m)) (FIXED_INVESTFLOWS s).

Definition _max_investflow_rule : result constraints :=
      for_each (fun '(i, o, f) =>
        for_each (fun '(p, t) =>
          tot <- v_total i o p ;;
          mx <- number (item (Flow.max f) t) ;;
          Ok [([N i; N o; I p; I t],
               Le (Var (flow_pt i o p t)) (Mul tot (Num mx)))])
          (Model.TIMEINDEX m)) (NON_FIXED_INVESTFLOWS s).

Definition _min_investflow_rule : result constraints :=
      for_each (fun '(i, o, f) =>
        for_each (fun '(p, t) =>
          tot <- v_total i o p ;;
          mn <- number (item (Flow.min f) t) ;;
          Ok [([N i; N o; I p; I t],
               Ge (Var (flow_pt i o p t)) (Mul tot (Num mn)))])
          (Model.TIMEINDEX m)) (MIN_INVESTFLOWS s).

    (** [sum(m.flow[i, o, p, t] * m.timeincrement[t] for p, t in
        m.TIMEINDEX)] *)
Definition weighted_flow (i o : node) : expr :=
      py_sum (map (fun '(p, t) =>
                     Mul (Var (flow_pt i o p t))
                         (Num (Model.timeincrement m t)))
                  (Model.TIMEINDEX m)).

Definition total_over_periods (i o : node) : result expr :=
      tots <- for_each (fun p => tot <- v_total i o p ;; Ok [tot]) PERIODS ;;
      Ok (py_sum tots).

Definition _full_load_time_max_investflow_rule : result constraints :=
      for_each (fun '(i, o, f) =>
        tots <- total_over_periods i o ;;
        flt <- number (Flow.full_load_time_max f) ;;
        Ok [([N i; N o], Le (weighted_flow i o) (Mul (Num flt) tots))])
        (FULL_LOAD_TIME_MAX_INVESTFLOWS s).

Definition _full_load_time_min_investflow_rule : result constraints :=
      for_each (fun '(i, o, f) =>
        tots <- total_over_periods i o ;;
        flt <- number (Flow.full_load_time_min f) ;;
        Ok [([N i; N o], Ge (weighted_flow i o) (Mul tots (Num flt)))])
        (FULL_LOAD_TIME_MIN_INVESTFLOWS s).

Definition _overall_maximum_investflow_rule : result constraints :=
      for_each (fun '(i, o, f) =>
        for_each (fun p =>
          tot <- v_total i o p ;;
          iv <- investment f ;;
          cap <- number (Investment.overall_maximum iv) ;;
          Ok [([N i; N o; I p], Le tot (Num cap))]) PERIODS)
        (OVERALL_MAXIMUM_INVESTFLOWS s).

Definition _overall_minimum_investflow_rule : result constraints :=
      for_each (fun '(i, o, f) =>
        iv <- investment f ;;
        p_last <- last_of PERIODS ;;
        tot <- v_total i o p_last ;;
        floor <- number (Investment.overall_minimum iv) ;;
        Ok [([N i; N o], Le (Num floor) tot)])
        (OVERALL_MINIMUM_INVESTFLOWS s).

    (** The constraints of the block, one field per Pyomo component; a
        component a single-period model does not create is empty. *)
Record block := {
      minimum_rule : constraints;
      maximum_rule : constraints;
      total_rule : constraints;
      old_rule_end : constraints;
      old_rule_exo : constraints;
      old_rule : constraints;
      fixed : constraints;
      max : constraints;
      min : constraints;
      full_load_time_max : constraints;
      full_load_time_min : constraints;
      overall_maximum : constraints;
      overall_minimum : constraints
    }.

    (** [_create_constraints]: the build actions run in the order they
        are attached; the first exception aborts the formulation. *)
Definition _create_constraints : result block :=
      c_min <- _min_invest_rule ;;
      c_max <- _max_invest_rule ;;
      c_total <- _total_capacity_rule ;;
      c_end <- (if multi_period then _old_capacity_rule_end else Ok []) ;;
      c_exo <- (if multi_period then _old_capacity_rule_exo else Ok []) ;;
      c_old <- (if multi_period then _old_capacity_rule else Ok []) ;;
      c_fixed <- _investflow_fixed_rule ;;
      c_fmax <- _max_investflow_rule ;;
      c_fmin <- _min_investflow_rule ;;
      c_flt_max <- _full_load_time_max_investflow_rule ;;
      c_flt_min <- _full_load_time_min_investflow_rule ;;
      c_omax <- (if multi_period then _overall_maximum_investflow_rule
                 else Ok []) ;;
      c_omin <- (if multi_period then _overall_minimum_investflow_rule
                 else Ok []) ;;
      Ok {| minimum_rule := c_min;
            maximum_rule := c_max;
            total_rule := c_total;
            old_rule_end := c_end;
            old_rule_exo := c_exo;
            old_rule := c_old;
            fixed := c_fixed;
            max := c_fmax;
            min := c_fmin;
            full_load_time_max := c_flt_max;
            full_load_time_min := c_flt_min;
            overall_maximum := c_omax;
            overall_minimum := c_omin |}.
  End Rules.

  (** [_create] *)
Definition _create (m : Model.t) (g : option group)
    : result (option (sets * block)) :=
    match g with
    | None => Ok None
    | Some g =>
        s <- _create_sets g ;;
        b <- _create_constraints m s ;;
        Ok (Some (s, b))
    end.

  (** What [_objective_expression] stores on the block. *)
Record costs_t := {
    investment_costs : expr;
    period_investment_costs : list (Z * expr);
    fixed_costs : expr;
    costs : expr
  }.

  (** [d[p] += inc] on a dict *)
Fixpoint add_to (d : list (Z * expr)) (p : Z) (inc : expr)
    : result (list (Z * expr)) :=
    match d with
    | [] => Raise (KeyError [I p])
    | (k, e) :: rest =>
        if k =? p then Ok ((k, Add e inc) :: rest)
        else rest' <- add_to rest p inc ;; Ok ((k, e) :: rest')
    end.

  Section Objective.
    (** [economics.annuity(capex, n, wacc)] of oemof.tools: the annuity,
        or the exception the call raises. *)
    Variable annuity : Q -> Z -> Q -> result Q.
    Variable m : Model.t.

    Local Abbreviation PERIODS := (Model.PERIODS m).

    (** [(1 + m.discount_rate) ** (-e)]: a base of 0 with a negative
        exponent is a division by zero. *)
Definition discount (e : Z) : result Q :=
      if Qeq_bool (1 + Model.discount_rate m) 0 && (0 <? e)
      then Raise ZeroDivisionError
      else Ok ((1 + Model.discount_rate m) ^ (- e))%Q.

    (** The interest rate after the default: a rate of 0 is replaced by
        the discount rate of the model (with a warning). *)
Definition interest_of (iv : Investment.t) : Q :=
      if Qeq_bool (Investment.interest_rate iv) 0 then Model.discount_rate m
      else Investment.interest_rate iv.

Definition state := (expr * list (Z * expr))%type.

    (** The increment of a convex flow in period [p]. *)
Definition convex_increment (i o : node) (iv : Investment.t) (p : Z)
      : result expr :=
      capex <- number (item (Investment.ep_costs iv) p) ;;
      lifetime <- number (Investment.lifetime iv) ;;
      a <- annuity capex lifetime (interest_of iv) ;;
      inv <- v_invest m i o p ;;
      y <- Model.periods_years m p ;;
      d <- discount y ;;
      Ok (Mul (Mul (Mul inv (Num a)) (Num (inject_Z lifetime)))
              (Num d)).

    (** The increment of a non-convex flow in period [p]. *)
Definition nonconvex_increment (i o : node) (iv : Investment.t) (p : Z)
      : result expr :=
      capex <- number (item (Investment.ep_costs iv) p) ;;
      lifetime <- number (Investment.lifetime iv) ;;
      a <- annuity capex lifetime (interest_of iv) ;;
      inv <- v_invest m i o p ;;
      st <- v_invest_status m i o p ;;
      off <- number (item (Investment.offset iv) p) ;;
      y <- Model.periods_years m p ;;
      d <- discount y ;;
      Ok (Mul (Add (Mul (Mul inv (Num a)) (Num (inject_Z lifetime)))
                   (Mul st (Num off)))
              (Num d)).

    (** One of the two loops over the flows and the periods that add the
        increments to [investment_costs] and [period_investment_costs]. *)
Definition add_increments
        (increment : node -> node -> Investment.t -> Z -> result expr)
        (flows : group) (st : state) : result state :=
      fold_m (fun st '(i, o, f) =>
        iv <- investment f ;;
        fold_m (fun (st : state) p =>
          inc <- increment i o iv p ;;
          d <- add_to (snd st) p inc ;;
          Ok (Add (fst st) inc, d)) PERIODS st) flows st.

    (** The fixed costs of new investments of one flow. *)
Definition fixed_costs_invest (i o : node) (iv : Investment.t)
        (acc : expr) : result expr :=
      if is_none (item (Investment.fixed_costs iv) 0) then Ok acc
      else
        fold_m (fun acc p =>
          y <- Model.periods_years m p ;;
          lifetime <- number (Investment.lifetime iv) ;;
          terms <- for_each (fun pp =>
                     inv <- v_invest m i o p ;;
                     fc <- number (item (Investment.fixed_costs iv) pp) ;;
                     d <- discount pp ;;
                     Ok [Mul (Mul inv (Num fc)) (Num d)])
                     (range y (y + lifetime)) ;;
          d <- discount y ;;
          Ok (Add acc (Mul (py_sum terms) (Num d)))) PERIODS acc.

    (** The fixed costs of the existing capacity of one flow: a sum of
        numbers. *)
Definition fixed_costs_existing (iv : Investment.t) (acc : expr)
      : result expr :=
      if is_none (item (Investment.fixed_costs iv) 0) then Ok acc
      else
        lifetime <- number (Investment.lifetime iv) ;;
        terms <- for_each (fun pp =>
                   fc <- number (item (Investment.fixed_costs iv) pp) ;;
                   d <- discount pp ;;
                   Ok [(Investment.existing iv * fc * d)%Q])
                   (range 0 (lifetime - Investment.age iv)) ;;
        Ok (Add acc (Num (fold_left Qplus terms 0%Q))).

    (** [_objective_expression]; [None] is a block that was never
        created. *)
Definition _objective_expression (blk : option sets)
      : result (option costs_t) :=
      match blk with
      | None => Ok None
      | Some s =>
          let st0 : state := (Num 0, map (fun p => (p, Num 0)) PERIODS) in
          if negb (EnergySystem.multi_period (Model.es m)) then
            ic <- fold_m (fun acc '(i, o, f) =>
                    fold_m (fun acc p =>
                      inv <- v_invest m i o p ;;
                      iv <- investment f ;;
                      ep <- number (item (Investment.ep_costs iv) p) ;;
                      Ok (Add acc (Mul inv (Num ep)))) PERIODS acc)
                    (CONVEX_INVESTFLOWS s) (Num 0) ;;
            ic <- fold_m (fun acc '(i, o, f) =>
                    fold_m (fun acc p =>
                      inv <- v_invest m i o p ;;
                      iv <- investment f ;;
                      ep <- number (item (Investment.ep_costs iv) p) ;;
                      st <- v_invest_status m i o p ;;
                      off <- number (item (Investment.offset iv) p) ;;
                      Ok (Add acc (Add (Mul inv (Num ep)) (Mul st (Num off)))))
                      PERIODS acc)
                    (NON_CONVEX_INVESTFLOWS s) ic ;;
            Ok (Some {| investment_costs := ic;
                        period_investment_costs := snd st0;
                        fixed_costs := Num 0;
                        costs := Add ic (Num 0) |})
          else
            st1 <- add_increments convex_increment (CONVEX_INVESTFLOWS s) st0 ;;
            st2 <- add_increments nonconvex_increment
                     (NON_CONVEX_INVESTFLOWS s) st1 ;;
            fc <- fold_m (fun acc '(i, o, f) =>
                    iv <- investment f ;; fixed_costs_invest i o iv acc)
                    (INVESTFLOWS s) (Num 0) ;;
            fc <- fold_m (fun acc '(i, o, f) =>
                    iv <- investment f ;; fixed_costs_existing iv acc)
                    (EXISTING_INVESTFLOWS s) fc ;;
            Ok (Some {| investment_costs := fst st2;
                        period_investment_costs := snd st2;
                        fixed_costs := fc;
                        costs := Add (fst st2) fc |})
      end.
  End Objective.

End InvestmentFlowBlock.

(* ------------------------------------------------------------------ *)
(** * blocks.py *)

Module blocks.

Module MultiPeriodInvestmentFlow.

Definition multiperiodinvestment (f : Flow.t) : result Investment.t :=
    attr_of "multiperiodinvestment" (Flow.multiperiodinvestment f).

  Section Rules.
    Variable m : Model.t.
    (** The sets of the block that the rules below read. *)
    Variable MULTIPERIODINVESTFLOWS : group.
    Variable CONVEX_MULTIPERIODINVESTFLOWS : group.
    Variable NON_CONVEX_MULTIPERIODINVESTFLOWS : group.

    Local Abbreviation PERIODS := (Model.PERIODS m).

Definition v_invest i o := indexed PERIODS (invest i o) i o.
Definition v_total i o := indexed PERIODS (total i o) i o.
Definition v_old i o := indexed PERIODS (old i o) i o.
Definition v_invest_status i o := indexed PERIODS (invest_status i o) i o.

Definition total_capacity_step (i o : node) (f : Flow.t) (p : Z)
      : result constraints :=
      if p =? 0 then
        tot <- v_total i o p ;;
        inv <- v_invest i o p ;;
        iv <- multiperiodinvestment f ;;
        Ok [([N i; N o; I p],
             Eq tot (Add inv (Num (Investment.existing iv))))]
      else
        tot <- v_total i o p ;;
        inv <- v_invest i o p ;;
        prev <- v_total i o (p - 1) ;;
        od <- v_old i o p ;;
        Ok [([N i; N o; I p], Eq tot (Sub (Add inv prev) od))].

Definition _total_capacity_rule : result constraints :=
      for_each (fun '(i, o, f) =>
        for_each (total_capacity_step i o f) PERIODS) MULTIPERIODINVESTFLOWS.

Definition _old_capacity_rule : result constraints :=
      for_each (fun '(i, o, f) =>
        iv <- multiperiodinvestment f ;;
        for_each (fun p =>
          lifetime <- number (Investment.lifetime iv) ;;
          if lifetime <=? p then
            od <- v_old i o p ;;
            inv <- v_invest i o (p - lifetime) ;;
            Ok [([N i; N o; I p], Eq od inv)]
          else if lifetime - Investment.age iv =? p then
            od <- v_old i o p ;;
            inv0 <- v_invest i o 0 ;;
            Ok [([N i; N o; I p],
                 Eq od (Add (Num (Investment.existing iv)) inv0))]
          else
            od <- v_old i o p ;;
            Ok [([N i; N o; I p], Eq od (Num 0))]) PERIODS)
        MULTIPERIODINVESTFLOWS.
  End Rules.

  Section Objective.
    (** [economics.annuity(capex, n, wacc)] of oemof.tools: the annuity,
        or the exception the call raises. *)
    Variable annuity : Q -> Z -> Q -> result Q.
    Variable m : Model.t.
    Variable CONVEX_MULTIPERIODINVESTFLOWS : group.
    Variable NON_CONVEX_MULTIPERIODINVESTFLOWS : group.

    Local Abbreviation PERIODS := (Model.PERIODS m).

Definition discount (e : Z) : result Q :=
      if Qeq_bool (1 + Model.discount_rate m) 0 && (0 <? e)
      then Raise ZeroDivisionError
      else Ok ((1 + Model.discount_rate m) ^ (- e))%Q.

Definition interest_of (iv : Investment.t) : Q :=
      if Qeq_bool (Investment.interest_rate iv) 0 then Model.discount_rate m
      else Investment.interest_rate iv.

Definition convex_increment (i o : node) (iv : Investment.t) (p : Z)
      : result expr :=
      capex <- number (item (Investment.ep_costs iv) p) ;;
      lifetime <- number (Investment.lifetime iv) ;;
      a <- annuity capex lifetime (interest_of iv) ;;
      inv <- v_invest m i o p ;;
      d <- discount p ;;
      Ok (Mul (Mul (Mul inv (Num a)) (Num (inject_Z lifetime)))
              (Num d)).

Definition nonconvex_increment (i o : node) (iv : Investment.t) (p : Z)
      : result expr :=
      capex <- number (item (Investment.ep_costs iv) p) ;;
      lifetime <- number (Investment.lifetime iv) ;;
      a <- annuity capex lifetime (interest_of iv) ;;
      inv <- v_invest m i o p ;;
      st <- v_invest_status m i o p ;;
      off <- number (item (Investment.offset iv) p) ;;
      d <- discount p ;;
      Ok (Mul (Add (Mul (Mul inv (Num a)) (Num (inject_Z lifetime)))
                   (Mul st (Num off)))
              (Num d)).

Definition add_increments
        (increment : node -> node -> Investment.t -> Z -> result expr)
        (flows : group) (acc : expr) : result expr :=
      fold_m (fun acc '(i, o, f) =>
        iv <- multiperiodinvestment f ;;
        fold_m (fun acc p =>
          inc <- increment i o iv p ;;
          Ok (Add acc inc)) PERIODS acc) flows acc.

    (** [_objective_expression] of a block that was created. *)
Definition _objective_expression : result expr :=
      ic <- add_increments convex_increment CONVEX_MULTIPERIODINVESTFLOWS
              (Num 0) ;;
      add_increments nonconvex_increment NON_CONVEX_MULTIPERIODINVESTFLOWS ic.
  End Objective.

  (** The sets that [_create] initialises. *)
Record sets := {
    MULTIPERIODINVESTFLOWS : group;
    CONVEX_MULTIPERIODINVESTFLOWS : group;
    NON_CONVEX_MULTIPERIODINVESTFLOWS : group;
    FIXED_MULTIPERIODINVESTFLOWS : group;
    NON_FIXED_MULTIPERIODINVESTFLOWS : group;
    SUMMED_MAX_MULTIPERIODINVESTFLOWS : group;
    SUMMED_MIN_MULTIPERIODINVESTFLOWS : group;
    MIN_MULTIPERIODINVESTFLOWS : group;
    OVERALL_MAXIMUM_MULTIPERIODINVESTFLOWS : group;
    OVERALL_MINIMUM_MULTIPERIODINVESTFLOWS : group
  }.

Local Abbreviation is_none := InvestmentFlowBlock.is_none.

Definition create_sets (g : group) : result sets :=
    convex <- select (fun f => iv <- multiperiodinvestment f ;;
                               Ok (negb (Investment.nonconvex iv))) g ;;
    non_convex <- select (fun f => iv <- multiperiodinvestment f ;;
                                   Ok (Investment.nonconvex iv)) g ;;
    fixed <- select (fun f => Ok (negb (is_none (item (Flow.fix_ f) 0)))) g ;;
    non_fixed <- select (fun f => Ok (is_none (item (Flow.fix_ f) 0))) g ;;
    smax <- select (fun f => Ok (negb (is_none (Flow.summed_max f)))) g ;;
    smin <- select (fun f => Ok (negb (is_none (Flow.summed_min f)))) g ;;
    mins <- select (fun f =>
                      Ok (match item (Flow.min f) 0 with
                          | Some q => negb (Qeq_bool q 0)
                          | None => true
                          end || (1 <? len (Flow.min f))%nat)) g ;;
    omax <- select (fun f => iv <- multiperiodinvestment f ;;
                             Ok (negb (is_none (Investment.overall_maximum iv)))) g ;;
    omin <- select (fun f => iv <- multiperiodinvestment f ;;
                             Ok (negb (is_none (Investment.overall_minimum iv)))) g ;;
    Ok {| MULTIPERIODINVESTFLOWS := g;
          CONVEX_MULTIPERIODINVESTFLOWS := convex;
          NON_CONVEX_MULTIPERIODINVESTFLOWS := non_convex;
          FIXED_MULTIPERIODINVESTFLOWS := fixed;
          NON_FIXED_MULTIPERIODINVESTFLOWS := non_fixed;
          SUMMED_MAX_MULTIPERIODINVESTFLOWS := smax;
          SUMMED_MIN_MULTIPERIODINVESTFLOWS := smin;
          MIN_MULTIPERIODINVESTFLOWS := mins;
          OVERALL_MAXIMUM_MULTIPERIODINVESTFLOWS := omax;
          OVERALL_MINIMUM_MULTIPERIODINVESTFLOWS := omin |}.

  Section Constraints.
    Variable m : Model.t.
    Variable s : sets.

    Local Abbreviation PERIODS := (Model.PERIODS m).

Definition _min_invest_rule : result constraints :=
      for_each (fun '(i, o, f) =>
        for_each (fun p =>
          iv <- multiperiodinvestment f ;;
          st <- v_invest_status m i o p ;;
          lo <- number (item (Investment.minimum iv) p) ;;
          inv <- v_invest m i o p ;;
          Ok [([N i; N o; I p], Le (Mul (Num lo) st) inv)]) PERIODS)
        (NON_CONVEX_MULTIPERIODINVESTFLOWS s).

Definition _max_invest_rule : result constraints :=
      for_each (fun '(i, o, f) =>
        for_each (fun p =>
          inv <- v_invest m i o p ;;
          iv <- multiperiodinvestment f ;;
          hi <- number (item (Investment.maximum iv) p) ;;
          st <- v_invest_status m i o p ;;
          Ok [([N i; N o; I p], Le inv (Mul (Num hi) st))]) PERIODS)
        (NON_CONVEX_MULTIPERIODINVESTFLOWS s).

Definition _investflow_fixed_rule : result constraints :=
      for_each (fun '(i, o, f) =>
        for_each (fun '(p, t) =>
          tot <- v_total m i o p ;;
          fx <- number (item (Flow.fix_ f) t) ;;
          Ok [([N i; N o; I p; I t],
               Eq (Var (flow_pt i o p t)) (Mul tot (Num fx)))])
          (Model.TIMEINDEX m)) (FIXED_MULTIPERIODINVESTFLOWS s).

Definition _max_investflow_rule : result constraints :=
      for_each (fun '(i, o, f) =>
        for_each (fun '(p, t) =>
          tot <- v_total m i o p ;;
          mx <- number (item (Flow.max f) t) ;;
          Ok [([N i; N o; I p; I t],
               Le (Var (flow_pt i o p t)) (Mul tot (Num mx)))])
          (Model.TIMEINDEX m)) (NON_FIXED_MULTIPERIODINVESTFLOWS s).

Definition _min_investflow_rule : result constraints :=
      for_each (fun '(i, o, f) =>
        for_each (fun '(p, t) =>
          tot <- v_total m i o p ;;
          mn <- number (item (Flow.min f) t) ;;
          Ok [([N i; N o; I p; I t],
               Ge (Var (flow_pt i o p t)) (Mul tot (Num mn)))])
          (Model.TIMEINDEX m)) (MIN_MULTIPERIODINVESTFLOWS s).

    (** [sum(m.flow[i, o, p, t] * m.timeincrement[t] for p, t in
        m.TIMEINDEX)] *)
Definition weighted_flow (i o : node) : expr :=
      py_sum (map (fun '(p, t) =>
                     Mul (Var (flow_pt i o p t))
                         (Num (Model.timeincrement m t)))
                  (Model.TIMEINDEX m)).

Definition total_over_periods (i o : node) : result expr :=
      tots <- for_each (fun p => tot <- v_total m i o p ;; Ok [tot])
                       PERIODS ;;
      Ok (py_sum tots).

Definition _summed_max_investflow_rule : result constraints :=
      for_each (fun '(i, o, f) =>
        tots <- total_over_periods i o ;;
        smax <- number (Flow.summed_max f) ;;
        Ok [([N i; N o], Le (weighted_flow i o) (Mul (Num smax) tots))])
        (SUMMED_MAX_MULTIPERIODINVESTFLOWS s).

Definition _summed_min_investflow_rule : result constraints :=
      for_each (fun '(i, o, f) =>
        tots <- total_over_periods i o ;;
        smin <- number (Flow.summed_min f) ;;
        Ok [([N i; N o], Ge (weighted_flow i o) (Mul tots (Num smin)))])
        (SUMMED_MIN_MULTIPERIODINVESTFLOWS s).

Definition _overall_maximum_investflow_rule : result constraints :=
      for_each (fun '(i, o, f) =>
        for_each (fun p =>
          tot <- v_total m i o p ;;
          iv <- multiperiodinvestment f ;;
          cap <- number (Investment.overall_maximum iv) ;;
          Ok [([N i; N o; I p], Le tot (Num cap))]) PERIODS)
        (OVERALL_MAXIMUM_MULTIPERIODINVESTFLOWS s).

Definition _overall_minimum_investflow_rule : result constraints :=
      for_each (fun '(i, o, f) =>
        iv <- multiperiodinvestment f ;;
        p_last <- last_of PERIODS ;;
        tot <- v_total m i o p_last ;;
        floor <- number (Investment.overall_minimum iv) ;;
        Ok [([N i; N o], Le (Num floor) tot)])
        (OVERALL_MINIMUM_MULTIPERIODINVESTFLOWS s).

    (** The constraints of the block, one field per Pyomo component. *)
Record block := {
      minimum_rule : constraints;
      maximum_rule : constraints;
      total_rule : constraints;
      old_rule : constraints;
      fixed : constraints;
      max : constraints;
      min : constraints;
      summed_max : constraints;
      summed_min : constraints;
      overall_maximum : constraints;
      overall_minimum : constraints
    }.

    (** The constraints of [_create]: each is built where it is
        attached, in this order; the first exception aborts the
        formulation. *)
Definition create_constraints : result block :=
      c_min <- _min_invest_rule ;;
      c_max <- _max_invest_rule ;;
      c_total <- _total_capacity_rule m (MULTIPERIODINVESTFLOWS s) ;;
      c_old <- _old_capacity_rule m (MULTIPERIODINVESTFLOWS s) ;;
      c_fixed <- _investflow_fixed_rule ;;
      c_fmax <- _max_investflow_rule ;;
      c_fmin <- _min_investflow_rule ;;
      c_smax <- _summed_max_investflow_rule ;;
      c_smin <- _summed_min_investflow_rule ;;
      c_omax <- _overall_maximum_investflow_rule ;;
      c_omin <- _overall_minimum_investflow_rule ;;
      Ok {| minimum_rule := c_min;
            maximum_rule := c_max;
            total_rule := c_total;
            old_rule := c_old;
            fixed := c_fixed;
            max := c_fmax;
            min := c_fmin;
            summed_max := c_smax;
            summed_min := c_smin;
            overall_maximum := c_omax;
            overall_minimum := c_omin |}.
  End Constraints.

  (** [_create] *)
Definition _create (m : Model.t) (g : option group)
    : result (option (sets * block)) :=
    match g with
    | None => Ok None
    | Some g =>
        s <- create_sets g ;;
        b <- create_constraints m s ;;
        Ok (Some (s, b))
    end.

End MultiPeriodInvestmentFlow.


Module Bus.
  (** [_busbalance_rule] for one bus and one timestep. *)
Definition busbalance_step (g : Node.t) (t : Z) : result constraints :=
    let lhs := py_sum (map (fun i => Var (flow_t i (Node.label g) t))
                           (Node.inputs g)) in
    let rhs := py_sum (map (fun o => Var (flow_t (Node.label g) o t))
                           (Node.outputs g)) in
    match py_eq lhs rhs with
    | PyBool true => Ok []
    | PyBool false => Raise (ValueError ["Constraint is trivially False"])
    | PyRel expr => Ok [([N (Node.label g); I t], expr)]
    end.

Definition _busbalance_rule (m : Model.t) (group : list Node.t)
    : result constraints :=
    for_each (fun t => for_each (fun g => busbalance_step g t) group)
             (Model.TIMESTEPS m).

  (** [_create]: the entries of [self.balance]. *)
Definition _create (m : Model.t) (group : option (list Node.t))
    : result (option constraints) :=
    match group with
    | None => Ok None
    | Some g => b <- _busbalance_rule m g ;; Ok (Some b)
    end.
End Bus.

Module MultiPeriodBus.
Definition busbalance_step (g : Node.t) (p t : Z) : result constraints :=
    let lhs := py_sum (map (fun i => Var (flow_pt i (Node.label g) p t))
                           (Node.inputs g)) in
    let rhs := py_sum (map (fun o => Var (flow_pt (Node.label g) o p t))
                           (Node.outputs g)) in
    match py_eq lhs rhs with
    | PyBool true => Ok []
    | PyBool false => Raise (ValueError ["Constraint is trivially False"])
    | PyRel expr => Ok [([N (Node.label g); I p; I t], expr)]
    end.

Definition _busbalance_rule (m : Model.t) (group : list Node.t)
    : result constraints :=
    for_each (fun '(p, t) => for_each (fun g => busbalance_step g p t) group)
             (Model.TIMEINDEX m).

Definition _create (m : Model.t) (group : option (list Node.t))
    : result (option constraints) :=
    match group with
    | None => Ok None
    | Some g => b <- _busbalance_rule m g ;; Ok (Some b)
    end.
End MultiPeriodBus.

Module Transformer.
Definition creation_error (n o : node) : exn :=
    ValueError ["Error in constraint creation";
                String.append "source: "
                  (String.append n (String.append ", target: " o))].

  (** The body of the loops of [_input_output_relation]. *)
Definition relation_step (n : Node.t) (o i : node) (t : Z)
    : result constraints :=
    sides <- try_except_ValueError
      (f_o <- dict_get (Node.conversion_factors n) o ;;
       c_o <- number (item f_o t) ;;
       f_i <- dict_get (Node.conversion_factors n) i ;;
       c_i <- number (item f_i t) ;;
       Ok (Mul (Var (flow_t i (Node.label n) t)) (Num c_o),
           Mul (Var (flow_t (Node.label n) o t)) (Num c_i)))
      (Raise (creation_error (Node.label n) o)) ;;
    Ok [([N (Node.label n); N i; N o; I t], Eq (fst sides) (snd sides))].

Definition _input_output_relation (m : Model.t) (group : list Node.t)
    : result constraints :=
    for_each (fun t =>
      for_each (fun n =>
        for_each (fun o =>
          for_each (fun i => relation_step n o i t) (Node.inputs n))
          (Node.outputs n)) group) (Model.TIMESTEPS m).

Definition _create (m : Model.t) (group : option (list Node.t))
    : result (option constraints) :=
    match group with
    | None => Ok None
    | Some g => r <- _input_output_relation m g ;; Ok (Some r)
    end.
End Transformer.

Module MultiPeriodTransformer.
Definition relation_step (n : Node.t) (o i : node) (p t : Z)
    : result constraints :=
    sides <- try_except_ValueError
      (f_o <- dict_get (Node.conversion_factors n) o ;;
       c_o <- number (item f_o t) ;;
       f_i <- dict_get (Node.conversion_factors n) i ;;
       c_i <- number (item f_i t) ;;
       Ok (Mul (Var (flow_pt i (Node.label n) p t)) (Num c_o),
           Mul (Var (flow_pt (Node.label n) o p t)) (Num c_i)))
      (Raise (Transformer.creation_error (Node.label n) o)) ;;
    Ok [([N (Node.label n); N i; N o; I p; I t], Eq (fst sides) (snd sides))].

Definition _input_output_relation (m : Model.t) (group : list Node.t)
    : result constraints :=
    for_each (fun '(p, t) =>
      for_each (fun n =>
        for_each (fun o =>
          for_each (fun i => relation_step n o i p t) (Node.inputs n))
          (Node.outputs n)) group) (Model.TIMEINDEX m).

Definition _create (m : Model.t) (group : option (list Node.t))
    : result (option constraints) :=
    match group with
    | None => Ok None
    | Some g => r <- _input_output_relation m g ;; Ok (Some r)
    end.
End MultiPeriodTransformer.

Module NonConvexFlow.

Definition nonconvex (f : Flow.t) : result NonConvex.t :=
    attr_of "nonconvex" (Flow.nonconvex f).

Definition is_set {A} (o : option A) : bool :=
    match o with Some _ => true | None => false end.

Record sets := {
    NONCONVEX_FLOWS : group;
    MIN_FLOWS : group;
    STARTUPFLOWS : group;
    MAXSTARTUPFLOWS : group;
    SHUTDOWNFLOWS : group;
    MAXSHUTDOWNFLOWS : group;
    MINUPTIMEFLOWS : group;
    MINDOWNTIMEFLOWS : group;
    ACTIVITYCOSTFLOWS : group
  }.

Definition _create_sets (g : group) : result sets :=
    mins <- select (fun f => Ok (is_set (item (Flow.min f) 0))) g ;;
    startups <- select (fun f =>
        nc <- nonconvex f ;;
        Ok (is_set (item (NonConvex.startup_costs nc) 0)
            || is_set (NonConvex.maximum_startups nc))) g ;;
    maxstartups <- select (fun f =>
        nc <- nonconvex f ;; Ok (is_set (NonConvex.maximum_startups nc))) g ;;
    shutdowns <- select (fun f =>
        nc <- nonconvex f ;;
        Ok (is_set (item (NonConvex.shutdown_costs nc) 0)
            || is_set (NonConvex.maximum_shutdowns nc))) g ;;
    maxshutdowns <- select (fun f =>
        nc <- nonconvex f ;; Ok (is_set (NonConvex.maximum_shutdowns nc))) g ;;
    minup <- select (fun f =>
        nc <- nonconvex f ;; Ok (is_set (NonConvex.minimum_uptime nc))) g ;;
    mindown <- select (fun f =>
        nc <- nonconvex f ;; Ok (is_set (NonConvex.minimum_downtime nc))) g ;;
    activity <- select (fun f =>
        nc <- nonconvex f ;;
        Ok (is_set (item (NonConvex.activity_costs nc) 0))) g ;;
    Ok {| NONCONVEX_FLOWS := g;
          MIN_FLOWS := mins;
          STARTUPFLOWS := startups;
          MAXSTARTUPFLOWS := maxstartups;
          SHUTDOWNFLOWS := shutdowns;
          MAXSHUTDOWNFLOWS := maxshutdowns;
          MINUPTIMEFLOWS := minup;
          MINDOWNTIMEFLOWS := mindown;
          ACTIVITYCOSTFLOWS := activity |}.

  (** The variables a [Var(flows, m.TIMESTEPS, within=Binary)] declares. *)
Definition declare (mk : node -> node -> Z -> var) (flows : group)
      (dom : list Z) : list var :=
    flat_map (fun '(i, o, _) => map (mk i o) dom) flows.

  Section Rules.
    Variable m : Model.t.

    Local Abbreviation TIMESTEPS := (Model.TIMESTEPS m).

Definition v_status i o := indexed TIMESTEPS (status i o) i o.
Definition v_startup i o := indexed TIMESTEPS (startup i o) i o.
Definition v_shutdown i o := indexed TIMESTEPS (shutdown i o) i o.

Definition _minimum_flow_rule (i o : node) (f : Flow.t) (t : Z)
      : result relation :=
      st <- v_status i o t ;;
      mn <- number (item (Flow.min f) t) ;;
      nv <- number (Flow.nominal_value f) ;;
      Ok (Le (Mul (Mul st (Num mn)) (Num nv)) (Var (flow_t i o t))).

Definition _maximum_flow_rule (i o : node) (f : Flow.t) (t : Z)
      : result relation :=
      st <- v_status i o t ;;
      mx <- number (item (Flow.max f) t) ;;
      nv <- number (Flow.nominal_value f) ;;
      Ok (Ge (Mul (Mul st (Num mx)) (Num nv)) (Var (flow_t i o t))).

Definition _startup_rule (i o : node) (f : Flow.t) (t : Z)
      : result relation :=
      t0 <- first_of TIMESTEPS ;;
      if t0 <? t then
        su <- v_startup i o t ;;
        st <- v_status i o t ;;
        prev <- v_status i o (t - 1) ;;
        Ok (Ge su (Sub st prev))
      else
        su <- v_startup i o t ;;
        st <- v_status i o t ;;
        nc <- nonconvex f ;;
        Ok (Ge su (Sub st (Num (NonConvex.initial_status nc)))).

Definition _max_startup_rule (i o : node) (f : Flow.t) : result relation :=
      sus <- for_each (fun t => su <- v_startup i o t ;; Ok [su]) TIMESTEPS ;;
      nc <- nonconvex f ;;
      cap <- number (NonConvex.maximum_startups nc) ;;
      rule_value (py_le (py_sum sus) (Num (inject_Z cap))).

Definition _shutdown_rule (i o : node) (f : Flow.t) (t : Z)
      : result relation :=
      t0 <- first_of TIMESTEPS ;;
      if t0 <? t then
        sd <- v_shutdown i o t ;;
        prev <- v_status i o (t - 1) ;;
        st <- v_status i o t ;;
        Ok (Ge sd (Sub prev st))
      else
        sd <- v_shutdown i o t ;;
        nc <- nonconvex f ;;
        st <- v_status i o t ;;
        Ok (Ge sd (Sub (Num (NonConvex.initial_status nc)) st)).

Definition _max_shutdown_rule (i o : node) (f : Flow.t) : result relation :=
      sds <- for_each (fun t => sd <- v_shutdown i o t ;; Ok [sd]) TIMESTEPS ;;
      nc <- nonconvex f ;;
      cap <- number (NonConvex.maximum_shutdowns nc) ;;
      rule_value (py_le (py_sum sds) (Num (inject_Z cap))).

    (** [sum(self.status[i, o, t + u] for u in range(0, n))] *)
Definition status_window (i o : node) (t n : Z) : result expr :=
      xs <- for_each (fun u => x <- v_status i o (t + u) ;; Ok [x])
                     (range 0 n) ;;
      Ok (py_sum xs).

    (** The test of both rules: is [t] inside the window
        [max_up_down <= t <= m.TIMESTEPS[-1] - max_up_down]? *)
Definition inside_window (nc : NonConvex.t) (t : Z) : result bool :=
      if NonConvex.max_up_down nc <=? t then
        t_last <- last_of TIMESTEPS ;;
        Ok (t <=? t_last - NonConvex.max_up_down nc)
      else Ok false.

Definition _min_uptime_rule (i o : node) (f : Flow.t) (t : Z)
      : result relation :=
      nc <- nonconvex f ;;
      inside <- inside_window nc t ;;
      if inside : bool then
        st <- v_status i o t ;;
        prev <- v_status i o (t - 1) ;;
        up <- number (NonConvex.minimum_uptime nc) ;;
        win <- status_window i o t up ;;
        Ok (Le (Add (Add (Num 0) (Mul (Sub st prev) (Num (inject_Z up))))
                    (Neg win))
               (Num 0))
      else
        st <- v_status i o t ;;
        Ok (Eq (Add (Add (Num 0) st) (Num (- NonConvex.initial_status nc)))
               (Num 0)).

Definition _min_downtime_rule (i o : node) (f : Flow.t) (t : Z)
      : result relation :=
      nc <- nonconvex f ;;
      inside <- inside_window nc t ;;
      if inside : bool then
        prev <- v_status i o (t - 1) ;;
        st <- v_status i o t ;;
        down <- number (NonConvex.minimum_downtime nc) ;;
        win <- status_window i o t down ;;
        Ok (Le (Add (Add (Add (Num 0) (Mul (Sub prev st) (Num (inject_Z down))))
                         (Num (- inject_Z down)))
                    win)
               (Num 0))
      else
        st <- v_status i o t ;;
        Ok (Eq (Add (Add (Num 0) st) (Num (- NonConvex.initial_status nc)))
               (Num 0)).

    (** The components of the block: its sets, the binary variables it
        declares and the entries of its constraints. *)
Record block := {
      the_sets : sets;
      binaries : list var;
      min : constraints;
      max : constraints;
      startup_constr : constraints;
      max_startup_constr : constraints;
      shutdown_constr : constraints;
      max_shutdown_constr : constraints;
      min_uptime_constr : constraints;
      min_downtime_constr : constraints
    }.

Definition create_block (g : group) : result block :=
      s <- _create_sets g ;;
      let v_status := declare status (NONCONVEX_FLOWS s) TIMESTEPS in
      let v_startup := declare startup (STARTUPFLOWS s) TIMESTEPS in
      let v_shutdown := declare shutdown (SHUTDOWNFLOWS s) TIMESTEPS in
      c_min <- constraint_over (MIN_FLOWS s) TIMESTEPS _minimum_flow_rule ;;
      c_max <- constraint_over (MIN_FLOWS s) TIMESTEPS _maximum_flow_rule ;;
      c_su <- constraint_over (STARTUPFLOWS s) TIMESTEPS _startup_rule ;;
      c_msu <- constraint_per_flow (MAXSTARTUPFLOWS s) _max_startup_rule ;;
      c_sd <- constraint_over (SHUTDOWNFLOWS s) TIMESTEPS _shutdown_rule ;;
      c_msd <- constraint_per_flow (MAXSHUTDOWNFLOWS s) _max_shutdown_rule ;;
      c_up <- constraint_over (MINUPTIMEFLOWS s) TIMESTEPS _min_uptime_rule ;;
      c_down <- constraint_over (MINDOWNTIMEFLOWS s) TIMESTEPS
                  _min_downtime_rule ;;
      Ok {| the_sets := s;
            binaries := v_status ++ v_startup ++ v_shutdown;
            min := c_min;
            max := c_max;
            startup_constr := c_su;
            max_startup_constr := c_msu;
            shutdown_constr := c_sd;
            max_shutdown_constr := c_msd;
            min_uptime_constr := c_up;
            min_downtime_constr := c_down |}.

    (** [_create] *)
Definition _create (g : option group) : result (option block) :=
      match g with
      | None => Ok None
      | Some g => b <- create_block g ;; Ok (Some b)
      end.
  End Rules.

  (** All constraint entries of a block. *)
Definition all_constraints (b : block) : constraints :=
    min b ++ max b ++ startup_constr b ++ max_startup_constr b
    ++ shutdown_constr b ++ max_shutdown_constr b
    ++ min_uptime_constr b ++ min_downtime_constr b.

  (** An assignment the block admits: every binary variable is 0 or 1
      and every constraint holds. *)
Definition feasible (b : block) (rho : assignment) : Prop :=
    (forall x, In x (binaries b) -> rho x == 0 \/ rho x == 1)%Q
    /\ (forall k c, In (k, c) (all_constraints b) -> holds rho c).

End NonConvexFlow.

End blocks.

(* ------------------------------------------------------------------ *)
(** * blocks/bus.py: [Bus] *)

Module bus.
Module Bus.
Definition busbalance_step (g : Node.t) (p t : Z) : result constraints :=
    let lhs := py_sum (map (fun i => Var (flow_pt i (Node.label g) p t))
                           (Node.inputs g)) in
    let rhs := py_sum (map (fun o => Var (flow_pt (Node.label g) o p t))
                           (Node.outputs g)) in
    match py_eq lhs rhs with
    | PyBool true => Ok []
    | PyBool false => Raise (ValueError ["Constraint is trivially False"])
    | PyRel expr => Ok [([N (Node.label g); I p; I t], expr)]
    end.

Definition _busbalance_rule (m : Model.t) (group : list Node.t)
    : result constraints :=
    for_each (fun '(p, t) => for_each (fun g => busbalance_step g p t) group)
             (Model.TIMEINDEX m).

Definition _create (m : Model.t) (group : option (list Node.t))
    : result (option constraints) :=
    match group with
    | None => Ok None
    | Some g => b <- _busbalance_rule m g ;; Ok (Some b)
    end.
End Bus.
End bus.

(* ------------------------------------------------------------------ *)
(** * constraints/multiperiodinvestment_limit.py *)

Module multiperiodinvestment_limit.

  (** A Python value as the function sees it: [None], a number, or an
      object with its attributes. *)
  #[local] Set Warnings "-register-all".
Inductive pyvalue :=
  | PyNone
  | PyNumber (q : Q)
  | PyObject (attrs : list (string * pyvalue)).

Fixpoint lookup (attrs : list (string * pyvalue)) (name : string)
    : option pyvalue :=
    match attrs with
    | [] => None
    | (n, v) :: rest => if String.eqb n name then Some v else lookup rest name
    end.

  (** [x.name] *)
Definition getattr (x : pyvalue) (name : string) : result pyvalue :=
    match x with
    | PyObject attrs =>
        match lookup attrs name with
        | Some v => Ok v
        | None => Raise (AttributeError name)
        end
    | _ => Raise (AttributeError name)
    end.

  (** [hasattr(x, name)] *)
Definition hasattr (x : pyvalue) (name : string) : bool :=
    match getattr x name with
    | Ok _ => true
    | Raise _ => false
    end.

  (** A component attached to the model by [setattr]. *)
Inductive component :=
  | Expression (e : expr)
  | Constraint (c : relation).

  (** The model as the function reads and changes it. *)
Record model := {
    (* [isinstance(model, MultiPeriodModel)] *)
    is_MultiPeriodModel : bool;
    (* [model.flows], a dict keyed by (source, target) *)
    flows : list ((node * node) * pyvalue);
    (* [model.MultiPeriodInvestmentFlow.invest[i, o]] *)
    invest_item : node -> node -> result expr;
    (* the attributes that [setattr] has attached *)
    attached : list (string * component)
  }.

Definition setattr (md : model) (name : string) (c : component) : model :=
    {| is_MultiPeriodModel := is_MultiPeriodModel md;
       flows := flows md;
       invest_item := invest_item md;
       attached := attached md ++ [(name, c)] |}.

Definition not_applicable : exn :=
    ValueError ["additional_multiperiodinvestment_limit is only applicable for MultiPeriodModels, not standard models."].

  (** The loop that collects [multiperiodinvest_flows]. *)
Definition collect (md : model) (keyword : string)
    : result (list ((node * node) * pyvalue)) :=
    fold_m (fun d '((i, o), f) =>
      x <- getattr f "mutliperiodinvestment" ;;
      if hasattr x keyword then
        y <- getattr f "multiperiodinvestment" ;;
        Ok (d ++ [((i, o), y)])
      else Ok d) (flows md) [].

  (** The sum under [po.Expression]. *)
Definition limit_expression (md : model) (keyword : string)
      (d : list ((node * node) * pyvalue)) : result expr :=
    terms <- for_each (fun '((inflow, outflow), iv) =>
               v <- invest_item md inflow outflow ;;
               w <- getattr iv keyword ;;
               match w with
               | PyNumber q => Ok [Mul v (Num q)]
               | _ => Raise TypeError
               end) d ;;
    Ok (py_sum terms).

  (** The function returns the model it changed in place: the state of
      the model afterwards, and the outcome (normal return, or the
      exception raised). *)
Definition additional_multiperiodinvestment_flow_limit
      (md : model) (keyword : string) (limit : Q) : model * result unit :=
    if negb (is_MultiPeriodModel md) then (md, Raise not_applicable)
    else
      match collect md keyword with
      | Raise e => (md, Raise e)
      | Ok multiperiodinvest_flows =>
          let limit_name := String.append "mutliperiodinvest_limit_" keyword in
          match limit_expression md keyword multiperiodinvest_flows with
          | Raise e => (md, Raise e)
          | Ok e =>
              let md1 := setattr md limit_name (Expression e) in
              let md2 := setattr md1 (String.append limit_name "_constraint")
                                 (Constraint (Le e (Num limit))) in
              (md2, Ok tt)
          end
      end.

End multiperiodinvestment_limit.

(* ------------------------------------------------------------------ *)
(** * Vocabulary of the properties *)

(** The constraint of [total_rule] for a flow with existing capacity
    [existing] in period [p], as the rule builds it and as an equation
    between the values of the variables. *)
Definition total_capacity_constraint (existing : Q) (i o : node) (p : Z)
  : relation :=
  if p =? 0 then
    Eq (Var (total i o p)) (Add (Var (invest i o p)) (Num existing))
  else
    Eq (Var (total i o p))
       (Sub (Add (Var (invest i o p)) (Var (total i o (p - 1))))
            (Var (old i o p))).


(** The claim's equation for the total capacity in period [p], between
    the values an assignment gives the variables. *)
Definition total_capacity_equation (existing : Q) (i o : node) (p : Z)
    (rho : assignment) : Prop :=
  if p =? 0 then
    (rho (total i o 0) == rho (invest i o 0) + existing)%Q
  else
    (rho (total i o p)
     == rho (total i o (p - 1)) + rho (invest i o p) - rho (old i o p))%Q.

(** [store] holds, under the key [(i, o, p)], the constraint the rule
    builds, and that constraint says the claim's equation. *)
Definition emits_total_capacity (store : constraints) (existing : Q)
    (i o : node) (p : Z) : Prop :=
  In ([N i; N o; I p], total_capacity_constraint existing i o p) store
  /\ forall rho,
      holds rho (total_capacity_constraint existing i o p)
      <-> total_capacity_equation existing i o p rho.

(** The year offset of a period. *)
Definition year_of (m : Model.t) (p : Z) : Z :=
  nth (Z.to_nat p) (EnergySystem.periods_years (Model.es m)) 0.

(** The existing capacity is due in [p]: [p] is not the first period and
    its year offset has reached [lifetime - age]. *)
Definition exo_due (m : Model.t) (iv : Investment.t) (lifetime p : Z) : bool :=
  negb (p =? 0) && (lifetime - Investment.age iv <=? year_of m p).

(** [p] is the first period in which the existing capacity is due. *)
Definition decommissioned_in (m : Model.t) (iv : Investment.t)
    (lifetime p : Z) : bool :=
  exo_due m iv lifetime p && negb (existsb (exo_due m iv lifetime) (range 0 p)).

(** What the loop of [_old_capacity_rule_exo] adds for the periods [ps]
    when it enters them with the flag [is_decommissioned]. *)
Fixpoint exo_entries (m : Model.t) (i o : node) (iv : Investment.t)
    (lifetime : Z) (ps : list Z) (is_decommissioned : bool) : constraints :=
  match ps with
  | [] => []
  | p :: rest =>
      let due := exo_due m iv lifetime p in
      ([N i; N o; I p],
       Eq (Var (old_exo i o p))
          (Num (if due && negb is_decommissioned
                then Investment.existing iv else 0%Q)))
      :: exo_entries m i o iv lifetime rest (is_decommissioned || due)
  end.

(** The claim about [old_exo] as it is worded: the existing capacity in
    exactly one period, the first one (period 0 included) whose year
    offset has reached [lifetime - age], and zero in every other. *)
Definition old_exo_exactly_once (m : Model.t) (iv : Investment.t)
    (lifetime : Z) (i o : node) (store : constraints) : Prop :=
  exists p,
    In p (Model.PERIODS m)
    /\ lifetime - Investment.age iv <= year_of m p
    /\ (forall q, In q (Model.PERIODS m) -> q < p ->
                  ~ lifetime - Investment.age iv <= year_of m q)
    /\ forall q, In q (Model.PERIODS m) ->
                 In ([N i; N o; I q],
                     Eq (Var (old_exo i o q))
                        (Num (if q =? p then Investment.existing iv else 0%Q)))
                    store.

(** The sum of a list of numbers. *)
Definition Qsum (l : list Q) : Q := fold_right Qplus 0%Q l.

(** The interest rate of an investment, or the discount rate of the
    model when that one is 0. *)
Definition interest_after_default (m : Model.t) (iv : Investment.t) : Q :=
  if Qeq_bool (Investment.interest_rate iv) 0 then Model.discount_rate m
  else Investment.interest_rate iv.

(** The annuity function returns for the costs of every period of an
    investment: it raises for none of them. *)
Definition annuity_returns (annuity : Q -> Z -> Q -> result Q)
    (m : Model.t) (iv : Investment.t) : Prop :=
  forall p capex lifetime,
    In p (Model.PERIODS m) ->
    item (Investment.ep_costs iv) p = Some capex ->
    Investment.lifetime iv = Some lifetime ->
    exists a, annuity capex lifetime (interest_after_default m iv) = Ok a.

(** The claim's objective contribution of an investment flow in period
    [p], for the values [rho] gives the variables: invest(p) times the
    annuity times the lifetime, plus invested(p) times offset(p) for a
    non-convex flow, all times the discount factor
    [(1 + discount_rate) ^ (- e)] for the exponent [e] of the period.
    The interest rate is the one of the investment, or the discount
    rate of the model when that one is 0. *)
Definition contribution (annuity : Q -> Z -> Q -> result Q) (m : Model.t)
    (exponent : Z -> Z) (rho : assignment) (i o : node) (iv : Investment.t)
    (p : Z) : Q :=
  match item (Investment.ep_costs iv) p, Investment.lifetime iv with
  | Some capex, Some lifetime =>
      match annuity capex lifetime (interest_after_default m iv) with
      | Ok a =>
          let base := rho (invest i o p) * a * inject_Z lifetime in
          let factor := (1 + Model.discount_rate m) ^ (- exponent p) in
          if Investment.nonconvex iv then
            match item (Investment.offset iv) p with
            | Some off => (base + rho (invest_status i o p) * off) * factor
            | None => 0
            end
          else base * factor
      | Raise _ => 0
      end
  | _, _ => 0
  end%Q.

(** The contributions of all periods of all flows of a group, summed;
    [inv_of] reads the investment object off a flow. *)
Definition contributions (annuity : Q -> Z -> Q -> result Q) (m : Model.t)
    (exponent : Z -> Z) (rho : assignment)
    (inv_of : Flow.t -> option Investment.t) (flows : group) : Q :=
  Qsum (flat_map (fun '(i, o, f) =>
                    match inv_of f with
                    | Some iv =>
                        map (contribution annuity m exponent rho i o iv)
                            (Model.PERIODS m)
                    | None => []
                    end) flows).

(** An investment whose attributes let the objective be built: a
    lifetime, a cost for every period, an offset for every period when
    it is non-convex with the given flag, and fixed costs that are
    either unset or set throughout. *)
Definition priced (m : Model.t) (nonconvex : bool) (iv : Investment.t) : Prop :=
  Investment.nonconvex iv = nonconvex
  /\ Investment.lifetime iv <> None
  /\ (forall p, In p (Model.PERIODS m) ->
                item (Investment.ep_costs iv) p <> None)
  /\ (nonconvex = true ->
      forall p, In p (Model.PERIODS m) ->
                item (Investment.offset iv) p <> None)
  /\ (item (Investment.fixed_costs iv) 0 = None
      \/ forall pp, item (Investment.fixed_costs iv) pp <> None).

(** The claim's balance of a bus: the values of its inflows sum to the
    values of its outflows.  [inflow] and [outflow] name the flow
    variable of an input and of an output. *)
Definition balanced (rho : assignment) (inflow outflow : node -> var)
    (g : Node.t) : Prop :=
  (Qsum (map (fun i => rho (inflow i)) (Node.inputs g))
   == Qsum (map (fun o => rho (outflow o)) (Node.outputs g)))%Q.

(** [store] holds a balance constraint under [k] that says [balanced]. *)
Definition emits_balance (store : constraints) (k : key)
    (inflow outflow : node -> var) (g : Node.t) : Prop :=
  exists c,
    In (k, c) store
    /\ c = Eq (py_sum (map (fun i => Var (inflow i)) (Node.inputs g)))
              (py_sum (map (fun o => Var (outflow o)) (Node.outputs g)))
    /\ forall rho, holds rho c <-> balanced rho inflow outflow g.

(** [store] has no entry under [k]. *)
Definition omits (store : constraints) (k : key) : Prop :=
  forall c, ~ In (k, c) store.

(** What a balance rule must have emitted for one bus in one slice, in
    a group of buses with distinct labels: the balance when the bus
    has an inflow or an outflow, and nothing when it has neither. *)
Definition balance_or_nothing (store : constraints) (k : key)
    (inflow outflow : node -> var) (g : Node.t) : Prop :=
  ((Node.inputs g <> [] \/ Node.outputs g <> []) ->
   emits_balance store k inflow outflow g)
  /\ (Node.inputs g = [] -> Node.outputs g = [] -> omits store k).

(** A group whose flows carry what the rules of [InvestmentFlowBlock]
    read: an investment, with its bounds for every period when it is
    non-convex; [fix] for every timestep of the time index when it is
    set in the first one, and [max] otherwise; and [min] for every
    timestep. *)
Definition investable (m : Model.t) (g : group) : Prop :=
  forall i o f, In (i, o, f) g ->
    exists iv,
      Flow.investment f = Some iv
      /\ (Investment.nonconvex iv = true ->
          forall p, In p (Model.PERIODS m) ->
                    item (Investment.minimum iv) p <> None
                    /\ item (Investment.maximum iv) p <> None)
      /\ (forall p t, In (p, t) (Model.TIMEINDEX m) ->
            (item (Flow.fix_ f) 0 <> None -> item (Flow.fix_ f) t <> None)
            /\ (item (Flow.fix_ f) 0 = None -> item (Flow.max f) t <> None)
            /\ item (Flow.min f) t <> None).

(** The periods of the time index are periods of the model. *)
Definition time_index_in_periods (m : Model.t) : Prop :=
  forall p t, In (p, t) (Model.TIMEINDEX m) -> In p (Model.PERIODS m).

(** What the decommissioning rules need of the periods: in a
    multi-period model year offsets that start at 0 and a lifetime for
    every investment of the group; a standard model has the one
    period 0. *)
Definition periods_ready (m : Model.t) (g : group) : Prop :=
  if EnergySystem.multi_period (Model.es m) then
    hd_error (EnergySystem.periods_years (Model.es m)) = Some 0
    /\ forall i o f iv, In (i, o, f) g -> Flow.investment f = Some iv ->
                        Investment.lifetime iv <> None
  else List.length (EnergySystem.periods_years (Model.es m)) = 1%nat.

(** A group whose flows carry what the rules of the
    [MultiPeriodInvestmentFlow] block of blocks.py read: a
    [multiperiodinvestment] with a lifetime that is not negative, with
    its bounds for every period when it is non-convex; [fix] for every
    timestep of the time index when it is set in the first one, and
    [max] otherwise; and [min] for every timestep. *)
Definition legacy_investable (m : Model.t) (g : group) : Prop :=
  forall i o f, In (i, o, f) g ->
    exists iv l,
      Flow.multiperiodinvestment f = Some iv
      /\ Investment.lifetime iv = Some l /\ 0 <= l
      /\ (Investment.nonconvex iv = true ->
          forall p, In p (Model.PERIODS m) ->
                    item (Investment.minimum iv) p <> None
                    /\ item (Investment.maximum iv) p <> None)
      /\ (forall p t, In (p, t) (Model.TIMEINDEX m) ->
            (item (Flow.fix_ f) 0 <> None -> item (Flow.fix_ f) t <> None)
            /\ (item (Flow.fix_ f) 0 = None -> item (Flow.max f) t <> None)
            /\ item (Flow.min f) t <> None).

(** The converter [n] has no conversion factor for the node [k]. *)
Definition lacks_factor (n : Node.t) (k : node) : Prop :=
  forall s, ~ In (k, s) (Node.conversion_factors n).

(** [k] is the other end of a flow into or out of the converter [n]. *)
Definition incident (n : Node.t) (k : node) : Prop :=
  In k (Node.inputs n) \/ In k (Node.outputs n).

(** The errors of a failed read of a conversion factor in a group of
    converters: the [KeyError] of the dict lookup, which carries the
    node whose factor is missing and nothing else, or the [TypeError]
    of a product with a factor that has no value at a timestep. *)
Definition factor_error (group : list Node.t) (e : exn) : Prop :=
  (exists n k, In n group /\ incident n k /\ lacks_factor n k
               /\ e = KeyError [N k])
  \/ (exists n k s t, In n group /\ In (k, s) (Node.conversion_factors n)
                      /\ item s t = None /\ e = TypeError).

(** Equality of variables is decidable. *)
Definition var_eq_dec (x y : var) : {x = y} + {x <> y}.
Proof.
  decide equality; (apply Z.eq_dec || apply string_dec).
Defined.

(** The assignment that gives [x] the value [v] and is [rho]
    elsewhere. *)
Definition update (rho : assignment) (x : var) (v : Q) : assignment :=
  fun y => if var_eq_dec y x then v else rho y.

(** The variables of an expression and of a relational expression. *)
Fixpoint vars (e : expr) : list var :=
  match e with
  | Num _ => []
  | Var x => [x]
  | Add a b | Sub a b | Mul a b => vars a ++ vars b
  | Neg a => vars a
  end.

Definition vars_of (c : relation) : list var :=
  match c with
  | Eq l r | Le l r | Ge l r => vars l ++ vars r
  end.

(** A variable of the non-convex block: a status, a startup or a
    shutdown. *)
Definition is_switch (x : var) : Prop :=
  match x with
  | status _ _ _ | startup _ _ _ | shutdown _ _ _ => True
  | _ => False
  end.

(** An expression over the variables of the non-convex block only. *)
Fixpoint switch_only (e : expr) : Prop :=
  match e with
  | Num _ => True
  | Var x => is_switch x
  | Add a b | Sub a b | Mul a b => switch_only a /\ switch_only b
  | Neg a => switch_only a
  end.

Definition switch_only_rel (c : relation) : Prop :=
  match c with
  | Eq l r | Le l r | Ge l r => switch_only l /\ switch_only r
  end.

(** [m.TIMESTEPS[-1]] of a model that has a timestep. *)
Definition horizon_end (m : Model.t) : Z := Z.of_nat (Model.n_timesteps m) - 1.

(** The status that precedes timestep [t]: the initial status before
    the first timestep. *)
Definition previous_status (rho : assignment) (nc : NonConvex.t)
    (i o : node) (t : Z) : Q :=
  if t =? 0 then NonConvex.initial_status nc else rho (status i o (t - 1)).

(** The claim's equality between startup, shutdown and the change of
    the status. *)
Definition startup_shutdown_equation (rho : assignment) (nc : NonConvex.t)
    (i o : node) (t : Z) : Prop :=
  (rho (startup i o t) - rho (shutdown i o t)
   == rho (status i o t) - previous_status rho nc i o t)%Q.

(** What the two rules do say: startup and shutdown bound the change of
    the status from above, each in one direction. *)
Definition startup_shutdown_bounds (rho : assignment) (nc : NonConvex.t)
    (i o : node) (t : Z) : Prop :=
  (rho (status i o t) - previous_status rho nc i o t <= rho (startup i o t)
   /\ previous_status rho nc i o t - rho (status i o t)
      <= rho (shutdown i o t))%Q.

Definition binary (q : Q) : Prop := (q == 0 \/ q == 1)%Q.

(** After an increase of the status at [t] it stays 1 for [n] steps. *)
Definition stays_up (rho : assignment) (i o : node) (t n : Z) : Prop :=
  (rho (status i o (t - 1)%Z) == 0 -> rho (status i o t) == 1 ->
   forall u : Z, (0 <= u < n)%Z -> rho (status i o (t + u)%Z) == 1)%Q.

(** After a decrease of the status at [t] it stays 0 for [n] steps. *)
Definition stays_down (rho : assignment) (i o : node) (t n : Z) : Prop :=
  (rho (status i o (t - 1)%Z) == 1 -> rho (status i o t) == 0 ->
   forall d : Z, (0 <= d < n)%Z -> rho (status i o (t + d)%Z) == 0)%Q.

(** The status at [t] is the initial status. *)
Definition pinned (rho : assignment) (nc : NonConvex.t) (i o : node) (t : Z)
  : Prop :=
  (rho (status i o t) == NonConvex.initial_status nc)%Q.

(** What a minimum up or down time rule returns at [t], for the window
    bound [w = max_up_down]: strictly inside the window a constraint
    that, for every assignment with binary status, holds exactly when
    the status stays ([stays] is [stays_up] or [stays_down] for the
    minimum time), and outside the window a constraint that holds
    exactly when the status is pinned. *)
Definition interior_window_policy (m : Model.t) (nc : NonConvex.t)
    (i o : node) (t : Z) (rule : result relation)
    (stays : assignment -> Prop) : Prop :=
  let w := NonConvex.max_up_down nc in
  (w < t < horizon_end m - w ->
   exists c, rule = Ok c
             /\ forall rho, (forall t', binary (rho (status i o t'))) ->
                            (holds rho c <-> stays rho))
  /\ (t < w \/ horizon_end m - w < t ->
      exists c, rule = Ok c
                /\ forall rho, holds rho c <-> pinned rho nc i o t).

(** A relational expression checked at an assignment, and a block
    checked at an assignment, as booleans. *)
Definition holdsb (rho : assignment) (c : relation) : bool :=
  match c with
  | Eq l r => Qeq_bool (eval rho l) (eval rho r)
  | Le l r => Qle_bool (eval rho l) (eval rho r)
  | Ge l r => Qle_bool (eval rho r) (eval rho l)
  end.

Definition feasibleb (b : blocks.NonConvexFlow.block) (rho : assignment)
  : bool :=
  forallb (fun x => Qeq_bool (rho x) 0 || Qeq_bool (rho x) 1)
          (blocks.NonConvexFlow.binaries b)
  && forallb (fun kc => holdsb rho (snd kc))
             (blocks.NonConvexFlow.all_constraints b).

(** The increments that a loop of the objective builds for a flow are
    all built, and have the value [value] gives for them. *)
Definition increments_valued (m : Model.t)
    (increment : node -> node -> Investment.t -> Z -> result expr)
    (value : assignment -> node -> node -> Investment.t -> Z -> Q)
    (i o : node) (iv : Investment.t) : Prop :=
  forall p, In p (Model.PERIODS m) ->
            exists e, increment i o iv p = Ok e
                      /\ forall rho, (eval rho e == value rho i o iv p)%Q.

(** The step that the balance rules of the three bus blocks share: the
    slice [x] is a timestep or a (period, timestep) pair, [mk] gives the
    key and [inflow], [outflow] the flow variables. *)
Definition balance_step {X : Type} (mk : X -> Node.t -> key)
    (inflow outflow : X -> Node.t -> node -> var) (x : X) (g : Node.t)
  : result constraints :=
  match py_eq (py_sum (map (fun i => Var (inflow x g i)) (Node.inputs g)))
              (py_sum (map (fun o => Var (outflow x g o)) (Node.outputs g)))
  with
  | PyBool true => Ok []
  | PyBool false => Raise (ValueError ["Constraint is trivially False"])
  | PyRel expr => Ok [(mk x g, expr)]
  end.

(* ------------------------------------------------------------------ *)
(** * Example inputs *)

Definition ex_investment : Investment.t :=
  {| Investment.nonconvex := false;
     Investment.minimum := scalar (Some 5%Q);
     Investment.maximum := scalar (Some 50%Q);
     Investment.existing := 10%Q;
     Investment.lifetime := Some 3;
     Investment.age := 1;
     Investment.ep_costs := scalar (Some 100%Q);
     Investment.offset := scalar (Some 7%Q);
     Investment.interest_rate := (5 # 100)%Q;
     Investment.fixed_costs := scalar None;
     Investment.overall_maximum := None;
     Investment.overall_minimum := None |}.

Definition ex_flow : Flow.t :=
  {| Flow.nominal_value := None;
     Flow.min := scalar (Some 0%Q);
     Flow.max := scalar (Some 1%Q);
     Flow.fix_ := scalar None;
     Flow.full_load_time_max := None;
     Flow.full_load_time_min := None;
     Flow.summed_max := None;
     Flow.summed_min := None;
     Flow.investment := Some ex_investment;
     Flow.multiperiodinvestment := Some ex_investment;
     Flow.nonconvex := None |}.

Definition ex_group : group := [("source", "bus", ex_flow)].

(** Five periods of one year each, one timestep per period. *)
Definition ex_model : Model.t :=
  {| Model.es := {| EnergySystem.multi_period := true;
                    EnergySystem.periods_years := [0; 1; 2; 3; 4] |};
     Model.n_timesteps := 5;
     Model.TIMEINDEX := [(0, 0); (1, 1); (2, 2); (3, 3); (4, 4)];
     Model.timeincrement := fun _ => 1%Q;
     Model.discount_rate := (2 # 100)%Q |}.

Definition ex_sets : InvestmentFlowBlock.sets :=
  {| InvestmentFlowBlock.INVESTFLOWS := ex_group;
     InvestmentFlowBlock.CONVEX_INVESTFLOWS := ex_group;
     InvestmentFlowBlock.NON_CONVEX_INVESTFLOWS := [];
     InvestmentFlowBlock.FIXED_INVESTFLOWS := [];
     InvestmentFlowBlock.NON_FIXED_INVESTFLOWS := ex_group;
     InvestmentFlowBlock.FULL_LOAD_TIME_MAX_INVESTFLOWS := [];
     InvestmentFlowBlock.FULL_LOAD_TIME_MIN_INVESTFLOWS := [];
     InvestmentFlowBlock.MIN_INVESTFLOWS := [];
     InvestmentFlowBlock.EXISTING_INVESTFLOWS := ex_group;
     InvestmentFlowBlock.OVERALL_MAXIMUM_INVESTFLOWS := [];
     InvestmentFlowBlock.OVERALL_MINIMUM_INVESTFLOWS := [] |}.

(** An investment without a lifetime, and a group that holds a flow with
    it after a well-formed one. *)
Definition ex_investment_no_lifetime : Investment.t :=
  {| Investment.nonconvex := false;
     Investment.minimum := scalar (Some 0%Q);
     Investment.maximum := scalar (Some 20%Q);
     Investment.existing := 0%Q;
     Investment.lifetime := None;
     Investment.age := 0;
     Investment.ep_costs := scalar (Some 80%Q);
     Investment.offset := scalar None;
     Investment.interest_rate := 0%Q;
     Investment.fixed_costs := scalar None;
     Investment.overall_maximum := None;
     Investment.overall_minimum := None |}.

Definition ex_flow_no_lifetime : Flow.t :=
  {| Flow.nominal_value := None;
     Flow.min := scalar (Some 0%Q);
     Flow.max := scalar (Some 1%Q);
     Flow.fix_ := scalar None;
     Flow.full_load_time_max := None;
     Flow.full_load_time_min := None;
     Flow.summed_max := None;
     Flow.summed_min := None;
     Flow.investment := Some ex_investment_no_lifetime;
     Flow.multiperiodinvestment := None;
     Flow.nonconvex := None |}.

Definition ex_group_no_lifetime : group :=
  [("source", "bus", ex_flow); ("wind", "bus", ex_flow_no_lifetime)].

(** Existing capacity that outlives the horizon: lifetime 20, age 0. *)
Definition ex_investment_long : Investment.t :=
  {| Investment.nonconvex := false;
     Investment.minimum := scalar (Some 0%Q);
     Investment.maximum := scalar (Some 20%Q);
     Investment.existing := 10%Q;
     Investment.lifetime := Some 20;
     Investment.age := 0;
     Investment.ep_costs := scalar (Some 80%Q);
     Investment.offset := scalar None;
     Investment.interest_rate := 0%Q;
     Investment.fixed_costs := scalar None;
     Investment.overall_maximum := None;
     Investment.overall_minimum := None |}.

(** Existing capacity that has reached its lifetime at the start:
    lifetime 3, age 3. *)
Definition ex_investment_aged : Investment.t :=
  {| Investment.nonconvex := false;
     Investment.minimum := scalar (Some 0%Q);
     Investment.maximum := scalar (Some 20%Q);
     Investment.existing := 10%Q;
     Investment.lifetime := Some 3;
     Investment.age := 3;
     Investment.ep_costs := scalar (Some 80%Q);
     Investment.offset := scalar None;
     Investment.interest_rate := 0%Q;
     Investment.fixed_costs := scalar None;
     Investment.overall_maximum := None;
     Investment.overall_minimum := None |}.

Definition ex_flow_with (iv : Investment.t) : Flow.t :=
  {| Flow.nominal_value := None;
     Flow.min := scalar (Some 0%Q);
     Flow.max := scalar (Some 1%Q);
     Flow.fix_ := scalar None;
     Flow.full_load_time_max := None;
     Flow.full_load_time_min := None;
     Flow.summed_max := None;
     Flow.summed_min := None;
     Flow.investment := Some iv;
     Flow.multiperiodinvestment := Some iv;
     Flow.nonconvex := None |}.

Definition ex_sets_with (iv : Investment.t) : InvestmentFlowBlock.sets :=
  let g := [("source", "bus", ex_flow_with iv)] in
  {| InvestmentFlowBlock.INVESTFLOWS := g;
     InvestmentFlowBlock.CONVEX_INVESTFLOWS := g;
     InvestmentFlowBlock.NON_CONVEX_INVESTFLOWS := [];
     InvestmentFlowBlock.FIXED_INVESTFLOWS := [];
     InvestmentFlowBlock.NON_FIXED_INVESTFLOWS := g;
     InvestmentFlowBlock.FULL_LOAD_TIME_MAX_INVESTFLOWS := [];
     InvestmentFlowBlock.FULL_LOAD_TIME_MIN_INVESTFLOWS := [];
     InvestmentFlowBlock.MIN_INVESTFLOWS := [];
     InvestmentFlowBlock.EXISTING_INVESTFLOWS := g;
     InvestmentFlowBlock.OVERALL_MAXIMUM_INVESTFLOWS := [];
     InvestmentFlowBlock.OVERALL_MINIMUM_INVESTFLOWS := [] |}.

(** The annuity for the examples, as the docstring of
    [_objective_expression] gives it (the function itself belongs to
    oemof.tools):
    capex * ((1 + wacc)^n * wacc) / ((1 + wacc)^n - 1),
    where a division by zero raises. *)
Definition ex_annuity (capex : Q) (n : Z) (wacc : Q) : result Q :=
  if Qeq_bool (1 + wacc) 0 && (n <? 0) then Raise ZeroDivisionError
  else if Qeq_bool ((1 + wacc) ^ n - 1) 0 then Raise ZeroDivisionError
  else Ok (capex * ((1 + wacc) ^ n * wacc) / ((1 + wacc) ^ n - 1))%Q.

(** The example model with a discount rate of 0. *)
Definition ex_model_no_discount : Model.t :=
  {| Model.es := Model.es ex_model;
     Model.n_timesteps := Model.n_timesteps ex_model;
     Model.TIMEINDEX := Model.TIMEINDEX ex_model;
     Model.timeincrement := Model.timeincrement ex_model;
     Model.discount_rate := 0%Q |}.

(** Three periods five years apart, discount rate 10 %. *)
Definition ex_model_5y : Model.t :=
  {| Model.es := {| EnergySystem.multi_period := true;
                    EnergySystem.periods_years := [0; 5; 10] |};
     Model.n_timesteps := 3;
     Model.TIMEINDEX := [(0, 0); (1, 1); (2, 2)];
     Model.timeincrement := fun _ => 1%Q;
     Model.discount_rate := (1 # 10)%Q |}.

(** A non-convex investment. *)
Definition ex_investment_nonconvex : Investment.t :=
  {| Investment.nonconvex := true;
     Investment.minimum := scalar (Some 5%Q);
     Investment.maximum := scalar (Some 50%Q);
     Investment.existing := 0%Q;
     Investment.lifetime := Some 4;
     Investment.age := 0;
     Investment.ep_costs := scalar (Some 60%Q);
     Investment.offset := scalar (Some 7%Q);
     Investment.interest_rate := 0%Q;
     Investment.fixed_costs := scalar (Some 2%Q);
     Investment.overall_maximum := None;
     Investment.overall_minimum := None |}.

Definition ex_sets_mixed : InvestmentFlowBlock.sets :=
  let g := [("source", "bus", ex_flow);
            ("wind", "bus", ex_flow_with ex_investment_nonconvex)] in
  {| InvestmentFlowBlock.INVESTFLOWS := g;
     InvestmentFlowBlock.CONVEX_INVESTFLOWS := [("source", "bus", ex_flow)];
     InvestmentFlowBlock.NON_CONVEX_INVESTFLOWS :=
       [("wind", "bus", ex_flow_with ex_investment_nonconvex)];
     InvestmentFlowBlock.FIXED_INVESTFLOWS := [];
     InvestmentFlowBlock.NON_FIXED_INVESTFLOWS := g;
     InvestmentFlowBlock.FULL_LOAD_TIME_MAX_INVESTFLOWS := [];
     InvestmentFlowBlock.FULL_LOAD_TIME_MIN_INVESTFLOWS := [];
     InvestmentFlowBlock.MIN_INVESTFLOWS := [];
     InvestmentFlowBlock.EXISTING_INVESTFLOWS := g;
     InvestmentFlowBlock.OVERALL_MAXIMUM_INVESTFLOWS := [];
     InvestmentFlowBlock.OVERALL_MINIMUM_INVESTFLOWS := [] |}.

(** An assignment for the examples: every variable is 1. *)
Definition ex_ones : assignment := fun _ => 1%Q.

Definition ex_group_convex : group := [("source", "bus", ex_flow)].

Definition ex_group_nonconvex : group :=
  [("wind", "bus", ex_flow_with ex_investment_nonconvex)].

(** Three buses: one between a source and a sink, one with two inputs
    and no output, and one with no flow at all. *)
Definition ex_buses : list Node.t :=
  [ {| Node.label := "electricity"; Node.inputs := ["source"];
       Node.outputs := ["sink"]; Node.conversion_factors := [] |};
    {| Node.label := "heat"; Node.inputs := ["boiler"; "pump"];
       Node.outputs := []; Node.conversion_factors := [] |};
    {| Node.label := "spare"; Node.inputs := [];
       Node.outputs := []; Node.conversion_factors := [] |} ].

(** A converter with a gas input and an electricity output that has a
    conversion factor for the input only, and a second converter with
    the same gap. *)
Definition ex_chp : Node.t :=
  {| Node.label := "chp"; Node.inputs := ["gas"];
     Node.outputs := ["electricity"];
     Node.conversion_factors := [("gas", scalar (Some (12 # 10)%Q))] |}.

Definition ex_boiler : Node.t :=
  {| Node.label := "boiler"; Node.inputs := ["gas"];
     Node.outputs := ["electricity"];
     Node.conversion_factors := [("gas", scalar (Some (9 # 10)%Q))] |}.

(** A multi-period model with two flows; the first carries a
    [multiperiodinvestment] object with an attribute [space]. *)
Definition ex_limit_model : multiperiodinvestment_limit.model :=
  {| multiperiodinvestment_limit.is_MultiPeriodModel := true;
     multiperiodinvestment_limit.flows :=
       [(("source", "bus"),
         multiperiodinvestment_limit.PyObject
           [("nominal_value", multiperiodinvestment_limit.PyNone);
            ("multiperiodinvestment",
             multiperiodinvestment_limit.PyObject
               [("ep_costs", multiperiodinvestment_limit.PyNumber 50);
                ("space", multiperiodinvestment_limit.PyNumber 4)])]);
        (("bus", "sink"),
         multiperiodinvestment_limit.PyObject
           [("nominal_value", multiperiodinvestment_limit.PyNumber 10)])];
     multiperiodinvestment_limit.invest_item :=
       fun i o => Raise (KeyError [N i; N o]);
     multiperiodinvestment_limit.attached := [] |}.

(** A non-convex flow with startup and shutdown costs and minimum up
    and down times of 2, over a horizon of 8 timesteps. *)
Definition ex_nonconvex : NonConvex.t :=
  {| NonConvex.initial_status := 0%Q;
     NonConvex.minimum_uptime := Some 2;
     NonConvex.minimum_downtime := Some 2;
     NonConvex.max_up_down := 2;
     NonConvex.startup_costs := scalar (Some 5%Q);
     NonConvex.shutdown_costs := scalar (Some 3%Q);
     NonConvex.activity_costs := scalar None;
     NonConvex.maximum_startups := None;
     NonConvex.maximum_shutdowns := None |}.

Definition ex_nonconvex_flow (fmin : option Q) : Flow.t :=
  {| Flow.nominal_value := Some 100%Q;
     Flow.min := scalar fmin;
     Flow.max := scalar (Some 1%Q);
     Flow.fix_ := scalar None;
     Flow.full_load_time_max := None;
     Flow.full_load_time_min := None;
     Flow.summed_max := None;
     Flow.summed_min := None;
     Flow.investment := None;
     Flow.multiperiodinvestment := None;
     Flow.nonconvex := Some ex_nonconvex |}.

(** Two non-convex flows: one with a minimum, one whose [min] is
    unset. *)
Definition ex_nonconvex_group : group :=
  [("plant", "bus", ex_nonconvex_flow (Some (3 # 10)%Q));
   ("engine", "bus", ex_nonconvex_flow None)].

Definition ex_model_8 : Model.t :=
  {| Model.es := {| EnergySystem.multi_period := false;
                    EnergySystem.periods_years := [0] |};
     Model.n_timesteps := 8;
     Model.TIMEINDEX := map (fun t => (0, t)) (range 0 8);
     Model.timeincrement := fun _ => 1%Q;
     Model.discount_rate := 0%Q |}.

(** An assignment in which every startup is 1 and everything else 0. *)
Definition ex_idle_startups : assignment :=
  fun x => match x with startup _ _ _ => 1%Q | _ => 0%Q end.

(** The block of the two example flows. *)
Definition ex_nonconvex_block : result blocks.NonConvexFlow.block :=
  blocks.NonConvexFlow.create_block ex_model_8 ex_nonconvex_group.

(* ================================================================== *)
(** * Properties of the helpers *)

Section ForEach.
Context {A B : Type} (body : A -> result (list B)).

Lemma for_each_ok (l : list A) :
  (forall a, In a l -> exists bs, body a = Ok bs) ->
  exists out, for_each body l = Ok out.
Proof.
  induction l as [|a l IH]; intros H; simpl.
  - now exists [].
  - destruct (H a (or_introl eq_refl)) as [bs ->].
    destruct IH as [rest ->]; [intros; apply H; now right|].
    simpl. eauto.
Qed.

Lemma for_each_in (l : list A) (out : list B) (a : A) (bs : list B) :
  for_each body l = Ok out -> In a l -> body a = Ok bs -> incl bs out.
Proof.
  revert out. induction l as [|x l IH]; intros out Hrun Hin Hbody; [easy|].
  simpl in Hrun. destruct (body x) as [xs|] eqn:Ex; [|discriminate].
  simpl in Hrun. destruct (for_each body l) as [rest|]; [|discriminate].
  simpl in Hrun. injection Hrun as <-. destruct Hin as [->|Hin].
  - rewrite Hbody in Ex. injection Ex as <-. now apply incl_appl.
  - apply incl_appr. now apply IH.
Qed.

Lemma for_each_inv (l : list A) (out : list B) (b : B) :
  for_each body l = Ok out -> In b out ->
  exists a bs, In a l /\ body a = Ok bs /\ In b bs.
Proof.
  revert out. induction l as [|x l IH]; intros out Hrun Hin; simpl in Hrun.
  - injection Hrun as <-. easy.
  - destruct (body x) as [xs|] eqn:Ex; [|discriminate].
    simpl in Hrun. destruct (for_each body l) as [rest|]; [|discriminate].
    simpl in Hrun. injection Hrun as <-.
    apply in_app_or in Hin as [Hin|Hin].
    + exists x, xs. now repeat split; [left|..].
    + destruct (IH rest eq_refl Hin) as (a & bs & ? & ? & ?).
      exists a, bs. now repeat split; [right|..].
Qed.

Lemma for_each_raise (l1 : list A) (a : A) (l2 : list A) (e : exn) :
  (forall x, In x l1 -> exists bs, body x = Ok bs) ->
  body a = Raise e ->
  for_each body (l1 ++ a :: l2) = Raise e.
Proof.
  induction l1 as [|x l1 IH]; intros Hok Ha; simpl.
  - now rewrite Ha.
  - destruct (Hok x (or_introl eq_refl)) as [bs ->]. simpl.
    rewrite IH; [reflexivity| |exact Ha].
    intros; apply Hok; now right.
Qed.
End ForEach.
Arguments for_each_in {A B body l out a bs}.
Arguments for_each_inv {A B body l out b}.

Lemma in_range (a b z : Z) : In z (range a b) <-> a <= z < b.
Proof.
  unfold range. rewrite in_map_iff. split.
  - intros (k & <- & Hk). apply in_seq in Hk. lia.
  - intros H. exists (Z.to_nat (z - a)). split; [lia|]. apply in_seq. lia.
Qed.

Lemma indexed_in (dom : list Z) (mk : Z -> var) (i o : node) (z : Z) :
  In z dom -> indexed dom mk i o z = Ok (Var (mk z)).
Proof.
  intros H. unfold indexed.
  replace (existsb (Z.eqb z) dom) with true; [reflexivity|].
  symmetry. apply existsb_exists. exists z. split; [exact H|apply Z.eqb_refl].
Qed.

Lemma indexed_out (dom : list Z) (mk : Z -> var) (i o : node) (z : Z) :
  ~ In z dom -> indexed dom mk i o z = Raise (KeyError [N i; N o; I z]).
Proof.
  intros H. unfold indexed.
  destruct (existsb (Z.eqb z) dom) eqn:E; [|reflexivity].
  apply existsb_exists in E as (y & Hy & Heq).
  apply Z.eqb_eq in Heq. now subst.
Qed.

Lemma in_PERIODS (m : Model.t) (p : Z) :
  In p (Model.PERIODS m) <->
  0 <= p < Z.of_nat (List.length (EnergySystem.periods_years (Model.es m))).
Proof. apply in_range. Qed.

Lemma in_TIMESTEPS (m : Model.t) (t : Z) :
  In t (Model.TIMESTEPS m) <-> 0 <= t < Z.of_nat (Model.n_timesteps m).
Proof. apply in_range. Qed.

(** Every period has its year offset. *)
Lemma periods_years_defined (m : Model.t) (p : Z) :
  In p (Model.PERIODS m) ->
  exists y, Model.periods_years m p = Ok y
            /\ nth_error (EnergySystem.periods_years (Model.es m)) (Z.to_nat p)
               = Some y.
Proof.
  intros H. apply in_PERIODS in H. unfold Model.periods_years.
  destruct (Z.ltb_spec p 0); [lia|].
  destruct (nth_error _ _) as [y|] eqn:E; [eauto|].
  apply nth_error_None in E. lia.
Qed.

(* ------------------------------------------------------------------ *)
(** * The total capacity of an investment flow *)

Lemma total_capacity_constraint_first (existing : Q) (i o : node)
    (rho : assignment) :
  holds rho (total_capacity_constraint existing i o 0) <->
  (rho (total i o 0) == rho (invest i o 0) + existing)%Q.
Proof. reflexivity. Qed.

Lemma total_capacity_constraint_later (existing : Q) (i o : node) (p : Z)
    (rho : assignment) :
  p <> 0 ->
  (holds rho (total_capacity_constraint existing i o p) <->
   (rho (total i o p)
    == rho (total i o (p - 1)) + rho (invest i o p) - rho (old i o p))%Q).
Proof.
  intros Hp. unfold total_capacity_constraint.
  destruct (Z.eqb_spec p 0); [easy|]. simpl.
  split; intros ->; ring.
Qed.

Lemma investment_step_ok (m : Model.t) (i o : node) (f : Flow.t)
    (iv : Investment.t) (p : Z) :
  Flow.investment f = Some iv ->
  (EnergySystem.multi_period (Model.es m) = true
   \/ (List.length (EnergySystem.periods_years (Model.es m)) <= 1)%nat) ->
  In p (Model.PERIODS m) ->
  InvestmentFlowBlock.total_capacity_step m i o f p
  = Ok [([N i; N o; I p],
         total_capacity_constraint (Investment.existing iv) i o p)].
Proof.
  intros Hiv Hmp Hp.
  unfold InvestmentFlowBlock.total_capacity_step, total_capacity_constraint.
  unfold InvestmentFlowBlock.v_total, InvestmentFlowBlock.v_invest,
    InvestmentFlowBlock.v_old, InvestmentFlowBlock.investment.
  rewrite Hiv. pose proof (proj1 (in_PERIODS m p) Hp) as Hr.
  destruct (Z.eqb_spec p 0) as [->|Hne].
  - rewrite !indexed_in by exact Hp. reflexivity.
  - destruct Hmp as [Hmp|Hone]; [|lia].
    rewrite Hmp.
    assert (Hprev : In (p - 1) (Model.PERIODS m)) by (apply in_PERIODS; lia).
    rewrite !(indexed_in _ _ _ _ _ Hp), (indexed_in _ _ _ _ _ Hprev).
    reflexivity.
Qed.

Lemma legacy_step_ok (m : Model.t) (i o : node) (f : Flow.t)
    (iv : Investment.t) (p : Z) :
  Flow.multiperiodinvestment f = Some iv ->
  In p (Model.PERIODS m) ->
  blocks.MultiPeriodInvestmentFlow.total_capacity_step m i o f p
  = Ok [([N i; N o; I p],
         total_capacity_constraint (Investment.existing iv) i o p)].
Proof.
  intros Hiv Hp.
  unfold blocks.MultiPeriodInvestmentFlow.total_capacity_step,
    total_capacity_constraint.
  unfold blocks.MultiPeriodInvestmentFlow.v_total,
    blocks.MultiPeriodInvestmentFlow.v_invest,
    blocks.MultiPeriodInvestmentFlow.v_old,
    blocks.MultiPeriodInvestmentFlow.multiperiodinvestment.
  rewrite Hiv. pose proof (proj1 (in_PERIODS m p) Hp) as Hr.
  destruct (Z.eqb_spec p 0) as [->|Hne].
  - rewrite !indexed_in by exact Hp. reflexivity.
  - assert (Hprev : In (p - 1) (Model.PERIODS m)) by (apply in_PERIODS; lia).
    rewrite !(indexed_in _ _ _ _ _ Hp), (indexed_in _ _ _ _ _ Hprev).
    reflexivity.
Qed.

Lemma total_capacity_constraint_says (existing : Q) (i o : node) (p : Z)
    (rho : assignment) :
  holds rho (total_capacity_constraint existing i o p)
  <-> total_capacity_equation existing i o p rho.
Proof.
  unfold total_capacity_equation. destruct (Z.eqb_spec p 0) as [->|Hne].
  - apply total_capacity_constraint_first.
  - now apply total_capacity_constraint_later.
Qed.

Example ex_sets_created : InvestmentFlowBlock._create_sets ex_group = Ok ex_sets.
Proof. reflexivity. Qed.

Lemma investment_total_rule (m : Model.t) (s : InvestmentFlowBlock.sets) :
  (forall i o f, In (i, o, f) (InvestmentFlowBlock.INVESTFLOWS s) ->
                 Flow.investment f <> None) ->
  (EnergySystem.multi_period (Model.es m) = true
   \/ (List.length (EnergySystem.periods_years (Model.es m)) <= 1)%nat) ->
  exists store,
    InvestmentFlowBlock._total_capacity_rule m s = Ok store
    /\ forall i o f iv p,
        In (i, o, f) (InvestmentFlowBlock.INVESTFLOWS s) ->
        Flow.investment f = Some iv ->
        In p (Model.PERIODS m) ->
        emits_total_capacity store (Investment.existing iv) i o p.
Proof.
  intros Hinv Hmp.
  unfold InvestmentFlowBlock._total_capacity_rule.
  destruct (for_each_ok
    (fun '(i, o, f) =>
       for_each (InvestmentFlowBlock.total_capacity_step m i o f)
                (Model.PERIODS m))
    (InvestmentFlowBlock.INVESTFLOWS s)) as [store Hstore].
  { intros [[i o] f] Hin. apply for_each_ok. intros p Hp.
    destruct (Flow.investment f) as [iv|] eqn:Eiv;
      [|now destruct (Hinv i o f Hin)].
    eexists. now apply investment_step_ok with (iv := iv). }
  exists store. split; [exact Hstore|].
  intros i o f iv p Hin Hiv Hp.
  split; [|intros rho; apply total_capacity_constraint_says].
  destruct (for_each_ok (InvestmentFlowBlock.total_capacity_step m i o f)
              (Model.PERIODS m)) as [inner Hinner].
  { intros q Hq. eexists. now apply investment_step_ok with (iv := iv). }
  apply (for_each_in (a := (i, o, f)) Hstore Hin Hinner).
  apply (for_each_in Hinner Hp (investment_step_ok m i o f iv p Hiv Hmp Hp)).
  now left.
Qed.

Lemma legacy_total_rule (m : Model.t) (g : group) :
  (forall i o f, In (i, o, f) g -> Flow.multiperiodinvestment f <> None) ->
  exists store,
    blocks.MultiPeriodInvestmentFlow._total_capacity_rule m g = Ok store
    /\ forall i o f iv p,
        In (i, o, f) g ->
        Flow.multiperiodinvestment f = Some iv ->
        In p (Model.PERIODS m) ->
        emits_total_capacity store (Investment.existing iv) i o p.
Proof.
  intros Hleg.
  unfold blocks.MultiPeriodInvestmentFlow._total_capacity_rule.
  destruct (for_each_ok
    (fun '(i, o, f) =>
       for_each (blocks.MultiPeriodInvestmentFlow.total_capacity_step m i o f)
                (Model.PERIODS m)) g) as [store Hstore].
  { intros [[i o] f] Hin. apply for_each_ok. intros p Hp.
    destruct (Flow.multiperiodinvestment f) as [iv|] eqn:Eiv;
      [|now destruct (Hleg i o f Hin)].
    eexists. now apply legacy_step_ok with (iv := iv). }
  exists store. split; [exact Hstore|].
  intros i o f iv p Hin Hiv Hp.
  split; [|intros rho; apply total_capacity_constraint_says].
  destruct (for_each_ok
              (blocks.MultiPeriodInvestmentFlow.total_capacity_step m i o f)
              (Model.PERIODS m)) as [inner Hinner].
  { intros q Hq. eexists. now apply legacy_step_ok with (iv := iv). }
  apply (for_each_in (a := (i, o, f)) Hstore Hin Hinner).
  apply (for_each_in Hinner Hp (legacy_step_ok m i o f iv p Hiv Hp)).
  now left.
Qed.

(* ------------------------------------------------------------------ *)
(** * Sets of flows *)

Lemma select_ok (test : Flow.t -> result bool) (g : group) :
  (forall i o f, In (i, o, f) g -> exists b, test f = Ok b) ->
  exists r, select test g = Ok r
            /\ forall i o f, In (i, o, f) r <->
                             In (i, o, f) g /\ test f = Ok true.
Proof.
  unfold select. induction g as [|[[i0 o0] f0] g IH]; intros H; simpl.
  - exists []. split; [reflexivity|]. intros; split; [easy|now intros []].
  - destruct (H i0 o0 f0 (or_introl eq_refl)) as [b Hb]. rewrite Hb. simpl.
    destruct IH as (r & -> & Hr); [intros; eapply H; right; eassumption|].
    simpl. eexists. split; [reflexivity|]. intros i o f.
    rewrite in_app_iff, Hr. destruct b; simpl; split.
    + intros [[E|[]]|[Hin Ht]]; [injection E as <- <- <-|]; auto.
    + intros [[E|Hin] Ht]; [left; left; exact E|right; auto].
    + intros [[]|[Hin Ht]]; auto.
    + intros [[E|Hin] Ht]; [|right; auto].
      injection E as <- <- <-. congruence.
Qed.

(** The sets of an [InvestmentFlowBlock] exist when every flow of the
    group carries an investment. *)
Lemma investment_sets_ok (g : group) :
  (forall i o f, In (i, o, f) g -> Flow.investment f <> None) ->
  exists s, InvestmentFlowBlock._create_sets g = Ok s
            /\ InvestmentFlowBlock.INVESTFLOWS s = g
            /\ (forall i o f,
                   In (i, o, f) (InvestmentFlowBlock.CONVEX_INVESTFLOWS s) <->
                   In (i, o, f) g
                   /\ exists iv, Flow.investment f = Some iv
                                 /\ Investment.nonconvex iv = false)
            /\ (forall i o f,
                   In (i, o, f) (InvestmentFlowBlock.NON_CONVEX_INVESTFLOWS s) <->
                   In (i, o, f) g
                   /\ exists iv, Flow.investment f = Some iv
                                 /\ Investment.nonconvex iv = true)
            /\ (forall i o f,
                   In (i, o, f) (InvestmentFlowBlock.EXISTING_INVESTFLOWS s) ->
                   In (i, o, f) g).
Proof.
  intros Hinv. unfold InvestmentFlowBlock._create_sets.
  assert (Hattr : forall i o f, In (i, o, f) g ->
            exists iv, Flow.investment f = Some iv).
  { intros i o f Hin. specialize (Hinv i o f Hin).
    destruct (Flow.investment f); [eauto|easy]. }
  repeat match goal with
  | |- context [select ?t g] =>
      let r := fresh "r" in
      let Hr := fresh "Hr" in
      let E := fresh "E" in
      destruct (select_ok t g) as (r & E & Hr);
      [ intros i o f Hin; unfold InvestmentFlowBlock.investment;
        try (destruct (Hattr i o f Hin) as [iv ->]); simpl; eauto
      | rewrite E; clear E; cbn [bind] ]
  end.
  eexists. split; [reflexivity|]. cbn. split; [reflexivity|].
  split; [|split; [|intros i o f Hin; now apply Hr6 in Hin]].
  - intros i o f. rewrite Hr. unfold InvestmentFlowBlock.investment.
    split.
    + intros [Hin Ht]. split; [exact Hin|].
      destruct (Hattr i o f Hin) as [iv Hiv]. rewrite Hiv in Ht. simpl in Ht.
      exists iv. split; [exact Hiv|].
      destruct (Investment.nonconvex iv); [discriminate|reflexivity].
    + intros [Hin (iv & Hiv & Hnc)]. split; [exact Hin|].
      rewrite Hiv. simpl. now rewrite Hnc.
  - intros i o f. rewrite Hr0. unfold InvestmentFlowBlock.investment.
    split.
    + intros [Hin Ht]. split; [exact Hin|].
      destruct (Hattr i o f Hin) as [iv Hiv]. rewrite Hiv in Ht. simpl in Ht.
      exists iv. split; [exact Hiv|]. now injection Ht.
    + intros [Hin (iv & Hiv & Hnc)]. split; [exact Hin|].
      rewrite Hiv. simpl. now rewrite Hnc.
Qed.

(* ------------------------------------------------------------------ *)
(** * Decommissioning: the commissioning period and the missing lifetime *)

Lemma in_combine_nth {A B} (l1 : list A) (l2 : list B) (a : A) (b : B) :
  In (a, b) (combine l1 l2) ->
  exists n, nth_error l1 n = Some a /\ nth_error l2 n = Some b.
Proof.
  revert l2. induction l1 as [|x l1 IH]; intros [|y l2] H; try easy.
  simpl in H. destruct H as [H|H].
  - injection H as -> ->. now exists 0%nat.
  - destruct (IH l2 H) as (n & ? & ?). now exists (S n).
Qed.

Lemma nth_error_range (a b : Z) (n : nat) (k : Z) :
  nth_error (range a b) n = Some k -> k = a + Z.of_nat n.
Proof.
  unfold range. rewrite nth_error_map, nth_error_seq.
  destruct (n <? Z.to_nat (b - a))%nat; simpl; [|discriminate].
  intros H. injection H as <-. reflexivity.
Qed.

(** An item of [periods_years.items()] is a period with its year
    offset. *)
Lemma periods_years_item (m : Model.t) (k v : Z) :
  In (k, v) (Model.periods_years_items m) ->
  In k (Model.PERIODS m)
  /\ nth_error (EnergySystem.periods_years (Model.es m)) (Z.to_nat k) = Some v.
Proof.
  intros H. split; [now apply in_combine_l in H|].
  apply in_combine_nth in H as (n & Hk & Hv).
  apply nth_error_range in Hk. subst k.
  now replace (Z.to_nat (0 + Z.of_nat n)) with n by lia.
Qed.

Lemma commissioning_period_cases (m : Model.t) (items : list (Z * Z)) (d : Z) :
  InvestmentFlowBlock.commissioning_period items d = 0
  \/ exists k v, In (k, v) items /\ d - v < 0
                 /\ InvestmentFlowBlock.commissioning_period items d = k - 1.
Proof.
  induction items as [|[k v] items IH]; simpl; [now left|].
  destruct (Z.ltb_spec (d - v) 0).
  - right. exists k, v. auto.
  - destruct IH as [IH|(k' & v' & ? & ? & ?)]; [now left|].
    right. exists k', v'. auto.
Qed.

(** In a multi-period model whose first year offset is 0, the
    commissioning period that [old_end_step] reads is a period. *)
Lemma old_end_step_ok (m : Model.t) (i o : node) (lifetime p : Z) :
  EnergySystem.multi_period (Model.es m) = true ->
  hd_error (EnergySystem.periods_years (Model.es m)) = Some 0 ->
  In p (Model.PERIODS m) ->
  exists c, InvestmentFlowBlock.old_end_step m i o lifetime p = Ok c.
Proof.
  intros Hmp Hfirst Hp. unfold InvestmentFlowBlock.old_end_step.
  unfold InvestmentFlowBlock.v_old_end, InvestmentFlowBlock.v_invest.
  rewrite Hmp, (indexed_in _ _ _ _ _ Hp).
  destruct (p =? 0); [simpl; eauto|].
  destruct (periods_years_defined m p Hp) as (y & -> & Hy). simpl.
  destruct (Z.leb_spec lifetime y) as [Hle|Hgt]; [|simpl; eauto].
  simpl. rewrite indexed_in; [simpl; eauto|].
  pose proof (proj1 (in_PERIODS m p) Hp) as Hr.
  destruct (commissioning_period_cases m (Model.periods_years_items m)
              (y - lifetime)) as [->|(k & v & Hin & Hneg & ->)].
  - apply in_PERIODS. lia.
  - apply periods_years_item in Hin as [Hk Hv].
    pose proof (proj1 (in_PERIODS m k) Hk) as Hkr.
    apply in_PERIODS.
    assert (k <> 0); [|lia].
    intros ->. simpl in Hv.
    destruct (EnergySystem.periods_years (Model.es m)) as [|y0 ys];
      [discriminate|].
    simpl in Hfirst, Hv. injection Hfirst as ->. injection Hv as <-. lia.
Qed.

(** [_old_capacity_rule_end] raises for the first flow that has no
    lifetime. *)
Lemma old_rule_end_raises (m : Model.t) (g : group) :
  EnergySystem.multi_period (Model.es m) = true ->
  hd_error (EnergySystem.periods_years (Model.es m)) = Some 0 ->
  (forall i o f, In (i, o, f) g -> Flow.investment f <> None) ->
  (exists i o f iv, In (i, o, f) g /\ Flow.investment f = Some iv
                    /\ Investment.lifetime iv = None) ->
  exists i o f iv,
    In (i, o, f) g /\ Flow.investment f = Some iv
    /\ Investment.lifetime iv = None
    /\ for_each (fun '(i, o, f) =>
         iv <- InvestmentFlowBlock.investment f ;;
         match Investment.lifetime iv with
         | None => Raise (InvestmentFlowBlock.lifetime_missing i o)
         | Some lifetime =>
             for_each (InvestmentFlowBlock.old_end_step m i o lifetime)
                      (Model.PERIODS m)
         end) g
       = Raise (InvestmentFlowBlock.lifetime_missing i o).
Proof.
  intros Hmp Hfirst. induction g as [|[[i0 o0] f0] g IH]; intros Hinv Hex.
  - now destruct Hex as (? & ? & ? & ? & [] & _).
  - destruct (Flow.investment f0) as [iv0|] eqn:Eiv;
      [|now destruct (Hinv i0 o0 f0 (or_introl eq_refl))].
    destruct (Investment.lifetime iv0) as [l0|] eqn:El.
    + destruct IH as (i & o & f & iv & Hin & Hiv & Hl & Hrun).
      { intros; eapply Hinv; right; eassumption. }
      { destruct Hex as (i & o & f & iv & [E|Hin] & Hiv & Hl); [|eauto 8].
        injection E as <- <- <-. congruence. }
      exists i, o, f, iv. repeat split; [now right|assumption..|].
      simpl. unfold InvestmentFlowBlock.investment at 1. rewrite Eiv. simpl.
      rewrite El.
      destruct (for_each_ok (InvestmentFlowBlock.old_end_step m i0 o0 l0)
                  (Model.PERIODS m)) as [out ->].
      { intros p Hp. now apply old_end_step_ok. }
      simpl. now rewrite Hrun.
    + exists i0, o0, f0, iv0. repeat split; [now left|assumption..|].
      simpl. unfold InvestmentFlowBlock.investment. rewrite Eiv. simpl.
      now rewrite El.
Qed.

Lemma invest_bound_rules_ok (m : Model.t) (s : InvestmentFlowBlock.sets) :
  (forall i o f p,
      In (i, o, f) (InvestmentFlowBlock.NON_CONVEX_INVESTFLOWS s) ->
      In p (Model.PERIODS m) ->
      exists iv, Flow.investment f = Some iv
                 /\ item (Investment.minimum iv) p <> None
                 /\ item (Investment.maximum iv) p <> None) ->
  (exists c, InvestmentFlowBlock._min_invest_rule m s = Ok c)
  /\ (exists c, InvestmentFlowBlock._max_invest_rule m s = Ok c).
Proof.
  intros H. split.
  - apply for_each_ok. intros [[i o] f] Hin. apply for_each_ok. intros p Hp.
    destruct (H i o f p Hin Hp) as (iv & Hiv & Hlo & _).
    unfold InvestmentFlowBlock.investment,
      InvestmentFlowBlock.v_invest_status, InvestmentFlowBlock.v_invest.
    rewrite Hiv, !(indexed_in _ _ _ _ _ Hp). simpl.
    destruct (item (Investment.minimum iv) p); [simpl; eauto|easy].
  - apply for_each_ok. intros [[i o] f] Hin. apply for_each_ok. intros p Hp.
    destruct (H i o f p Hin Hp) as (iv & Hiv & _ & Hhi).
    unfold InvestmentFlowBlock.investment,
      InvestmentFlowBlock.v_invest_status, InvestmentFlowBlock.v_invest.
    rewrite Hiv, !(indexed_in _ _ _ _ _ Hp). simpl.
    destruct (item (Investment.maximum iv) p); [simpl; eauto|easy].
Qed.

(** C3: in a multi-period model (one spanning more than one period has
    [m.es.multi_period] set, which is what the code tests), a group with
    an investment flow that has no lifetime makes the formulation raise
    the ValueError for a missing lifetime, naming such a flow; no block
    is produced.  The other hypotheses say that the inputs are
    well-formed up to that point: every flow of the group has an
    investment, non-convex ones have their bounds, and the year offsets
    start at 0. *)
Theorem missing_lifetime_is_rejected (m : Model.t) (g : group) :
  EnergySystem.multi_period (Model.es m) = true ->
  (1 < List.length (EnergySystem.periods_years (Model.es m)))%nat ->
  hd_error (EnergySystem.periods_years (Model.es m)) = Some 0 ->
  (forall i o f, In (i, o, f) g -> Flow.investment f <> None) ->
  (forall i o f iv p,
      In (i, o, f) g -> Flow.investment f = Some iv ->
      Investment.nonconvex iv = true -> In p (Model.PERIODS m) ->
      item (Investment.minimum iv) p <> None
      /\ item (Investment.maximum iv) p <> None) ->
  (exists i o f iv, In (i, o, f) g /\ Flow.investment f = Some iv
                    /\ Investment.lifetime iv = None) ->
  exists i o f iv,
    In (i, o, f) g /\ Flow.investment f = Some iv
    /\ Investment.lifetime iv = None
    /\ InvestmentFlowBlock._create m (Some g)
       = Raise (InvestmentFlowBlock.lifetime_missing i o).
Proof.
  intros Hmp _ Hfirst Hinv Hbounds Hex.
  destruct (investment_sets_ok g Hinv) as (s & Hs & Hall & _ & Hnc & _).
  destruct (invest_bound_rules_ok m s) as [[cmin Hmin] [cmax Hmax]].
  { intros i o f p Hin Hp. apply Hnc in Hin as (Hin & iv & Hiv & Hn).
    exists iv. split; [exact Hiv|]. now apply (Hbounds i o f). }
  destruct (investment_total_rule m s) as (ctot & Htot & _).
  { now rewrite Hall. }
  { now left. }
  destruct (old_rule_end_raises m g Hmp Hfirst Hinv Hex)
    as (i & o & f & iv & Hin & Hiv & Hl & Hraise).
  exists i, o, f, iv. repeat split; try assumption.
  unfold InvestmentFlowBlock._create. rewrite Hs. simpl.
  unfold InvestmentFlowBlock._create_constraints.
  rewrite Hmin, Hmax, Htot, Hmp. simpl.
  unfold InvestmentFlowBlock._old_capacity_rule_end.
  rewrite Hall, Hraise. reflexivity.
Qed.

Example ex_missing_lifetime_run :
  InvestmentFlowBlock._create ex_model (Some ex_group_no_lifetime)
  = Raise (InvestmentFlowBlock.lifetime_missing "wind" "bus").
Proof. reflexivity. Qed.

Lemma ex_group_no_lifetime_cases (i o : node) (f : Flow.t) :
  In (i, o, f) ex_group_no_lifetime ->
  f = ex_flow \/ f = ex_flow_no_lifetime.
Proof.
  intros [H|[H|[]]]; injection H as <- <- <-; [now left|now right].
Defined.

(** The theorem at the example model, for a group whose second flow has
    no lifetime. *)
Lemma missing_lifetime_is_rejected_witness :
  exists i o f iv,
    In (i, o, f) ex_group_no_lifetime /\ Flow.investment f = Some iv
    /\ Investment.lifetime iv = None
    /\ InvestmentFlowBlock._create ex_model (Some ex_group_no_lifetime)
       = Raise (InvestmentFlowBlock.lifetime_missing i o).
Proof.
  apply (missing_lifetime_is_rejected ex_model ex_group_no_lifetime).
  - reflexivity.
  - simpl. lia.
  - reflexivity.
  - intros i o f H.
    destruct (ex_group_no_lifetime_cases i o f H) as [-> | ->]; discriminate.
  - intros i o f iv p H Hiv.
    destruct (ex_group_no_lifetime_cases i o f H) as [-> | ->];
      injection Hiv as <-; discriminate.
  - exists "wind", "bus", ex_flow_no_lifetime, ex_investment_no_lifetime.
    simpl. auto.
Defined.

(* ------------------------------------------------------------------ *)
(** * Decommissioning of the existing capacity *)

Lemma year_of_defined (m : Model.t) (p : Z) :
  In p (Model.PERIODS m) -> Model.periods_years m p = Ok (year_of m p).
Proof.
  intros H. destruct (periods_years_defined m p H) as (y & -> & Hy).
  unfold year_of. now rewrite (nth_error_nth _ _ 0 Hy).
Qed.

(** The loop over the periods computes [exo_entries]. *)
Lemma old_exo_periods_entries (m : Model.t) (i o : node) (iv : Investment.t)
    (lifetime : Z) (ps : list Z) (b : bool) :
  EnergySystem.multi_period (Model.es m) = true ->
  Investment.lifetime iv = Some lifetime ->
  (forall p, In p ps -> In p (Model.PERIODS m)) ->
  InvestmentFlowBlock.old_exo_periods m i o iv ps b
  = Ok (exo_entries m i o iv lifetime ps b).
Proof.
  intros Hmp Hl. revert b.
  induction ps as [|p ps IH]; intros b Hps; [reflexivity|].
  assert (Hp : In p (Model.PERIODS m)) by (apply Hps; now left).
  assert (Hrest : forall q, In q ps -> In q (Model.PERIODS m))
    by (intros; apply Hps; now right).
  simpl. unfold exo_due, InvestmentFlowBlock.v_old_exo.
  rewrite Hmp, (indexed_in _ _ _ _ _ Hp), Hl, (year_of_defined m p Hp).
  destruct (p =? 0); simpl.
  - rewrite (IH b Hrest). rewrite orb_false_r. reflexivity.
  - destruct (lifetime - Investment.age iv <=? year_of m p); simpl.
    + destruct b; simpl; rewrite (IH true Hrest); reflexivity.
    + rewrite (IH b Hrest). rewrite orb_false_r. reflexivity.
Qed.

Lemma exo_entries_at (m : Model.t) (i o : node) (iv : Investment.t)
    (lifetime : Z) (pre : list Z) (p : Z) (post : list Z) (b : bool) :
  In ([N i; N o; I p],
      Eq (Var (old_exo i o p))
         (Num (if exo_due m iv lifetime p
                  && negb (b || existsb (exo_due m iv lifetime) pre)
               then Investment.existing iv else 0%Q)))
     (exo_entries m i o iv lifetime (pre ++ p :: post) b).
Proof.
  revert b. induction pre as [|q pre IH]; intros b; simpl.
  - left. now rewrite orb_false_r.
  - right. specialize (IH (b || exo_due m iv lifetime q)).
    now rewrite <- orb_assoc in IH.
Qed.

Lemma map_seq_shift (len s1 s2 : nat) (a c : Z) :
  a + Z.of_nat s1 = c + Z.of_nat s2 ->
  map (fun k => a + Z.of_nat k) (seq s1 len)
  = map (fun k => c + Z.of_nat k) (seq s2 len).
Proof.
  revert s1 s2. induction len as [|len IH]; intros s1 s2 H; [reflexivity|].
  simpl. rewrite H. f_equal. apply IH. lia.
Qed.

Lemma range_split (a b p : Z) :
  a <= p < b -> range a b = range a p ++ p :: range (p + 1) b.
Proof.
  intros H. unfold range.
  replace (Z.to_nat (b - a))
    with (Z.to_nat (p - a) + S (Z.to_nat (b - (p + 1))))%nat by lia.
  rewrite seq_app, map_app. f_equal. simpl. f_equal; [lia|].
  apply map_seq_shift. lia.
Qed.

Lemma decommissioned_in_first (m : Model.t) (iv : Investment.t)
    (lifetime p : Z) :
  decommissioned_in m iv lifetime p = true <->
  p <> 0 /\ lifetime - Investment.age iv <= year_of m p
  /\ forall q, 0 < q < p -> year_of m q < lifetime - Investment.age iv.
Proof.
  unfold decommissioned_in. rewrite andb_true_iff, negb_true_iff.
  unfold exo_due at 1. rewrite andb_true_iff, negb_true_iff.
  rewrite Z.eqb_neq, Z.leb_le. split.
  - intros [[Hne Hle] Hnone]. repeat split; try assumption.
    intros q Hq.
    destruct (Z.lt_ge_cases (year_of m q) (lifetime - Investment.age iv))
      as [|Hge]; [assumption|exfalso].
    assert (E : existsb (exo_due m iv lifetime) (range 0 p) = true);
      [|congruence].
    apply existsb_exists. exists q. split; [apply in_range; lia|].
    unfold exo_due. apply andb_true_iff. split.
    + apply negb_true_iff, Z.eqb_neq. lia.
    + apply Z.leb_le. lia.
  - intros (Hne & Hle & Hfirst). repeat split; try assumption.
    destruct (existsb _ _) eqn:E; [exfalso|reflexivity].
    apply existsb_exists in E as (q & Hq & Hdue).
    apply in_range in Hq. unfold exo_due in Hdue.
    apply andb_true_iff in Hdue as [Hq0 Hqle].
    apply negb_true_iff, Z.eqb_neq in Hq0. apply Z.leb_le in Hqle.
    specialize (Hfirst q). lia.
Qed.

Lemma old_exo_rule_entries (m : Model.t) (s : InvestmentFlowBlock.sets) :
  EnergySystem.multi_period (Model.es m) = true ->
  (forall i o f, In (i, o, f) (InvestmentFlowBlock.INVESTFLOWS s) ->
                 exists iv l, Flow.investment f = Some iv
                              /\ Investment.lifetime iv = Some l) ->
  exists store,
    InvestmentFlowBlock._old_capacity_rule_exo m s = Ok store
    /\ forall i o f iv l p,
        In (i, o, f) (InvestmentFlowBlock.INVESTFLOWS s) ->
        Flow.investment f = Some iv ->
        Investment.lifetime iv = Some l ->
        In p (Model.PERIODS m) ->
        In ([N i; N o; I p],
            Eq (Var (old_exo i o p))
               (Num (if decommissioned_in m iv l p
                     then Investment.existing iv else 0%Q))) store.
Proof.
  intros Hmp Hall. unfold InvestmentFlowBlock._old_capacity_rule_exo.
  assert (Hbody : forall i o f iv l,
            Flow.investment f = Some iv -> Investment.lifetime iv = Some l ->
            (iv <- InvestmentFlowBlock.investment f ;;
             InvestmentFlowBlock.old_exo_periods m i o iv (Model.PERIODS m)
               false)
            = Ok (exo_entries m i o iv l (Model.PERIODS m) false)).
  { intros i o f iv l Hiv Hl. unfold InvestmentFlowBlock.investment.
    rewrite Hiv. simpl. now apply old_exo_periods_entries. }
  destruct (for_each_ok
    (fun '(i, o, f) =>
       iv <- InvestmentFlowBlock.investment f ;;
       InvestmentFlowBlock.old_exo_periods m i o iv (Model.PERIODS m) false)
    (InvestmentFlowBlock.INVESTFLOWS s)) as [store Hstore].
  { intros [[i o] f] Hin. destruct (Hall i o f Hin) as (iv & l & Hiv & Hl).
    eexists. now apply Hbody with (iv := iv) (l := l). }
  exists store. split; [exact Hstore|].
  intros i o f iv l p Hin Hiv Hl Hp.
  apply (for_each_in (a := (i, o, f)) Hstore Hin (Hbody i o f iv l Hiv Hl)).
  pose proof (proj1 (in_PERIODS m p) Hp) as Hr.
  unfold Model.PERIODS. rewrite (range_split 0 _ p Hr).
  exact (exo_entries_at m i o iv l (range 0 p) p _ false).
Qed.

Example ex_old_exo_run :
  InvestmentFlowBlock._old_capacity_rule_exo ex_model ex_sets
  = Ok [([N "source"; N "bus"; I 0], Eq (Var (old_exo "source" "bus" 0)) (Num 0));
        ([N "source"; N "bus"; I 1], Eq (Var (old_exo "source" "bus" 1)) (Num 0));
        ([N "source"; N "bus"; I 2], Eq (Var (old_exo "source" "bus" 2)) (Num 10));
        ([N "source"; N "bus"; I 3], Eq (Var (old_exo "source" "bus" 3)) (Num 0));
        ([N "source"; N "bus"; I 4], Eq (Var (old_exo "source" "bus" 4)) (Num 0))].
Proof. reflexivity. Qed.

(** C5 as worded fails on the code.  With lifetime 20 and age 0 over
    five one-year periods, no period reaches lifetime - age and
    old_exo(p) == 0 is emitted in all of them.  With age equal to the
    lifetime, period 0 is the first period whose year offset has reached
    lifetime - age, yet old_exo(0) == 0 is emitted and the capacity
    leaves in period 1. *)
Lemma old_exo_exactly_once_fails :
  (exists store,
      InvestmentFlowBlock._old_capacity_rule_exo ex_model
        (ex_sets_with ex_investment_long) = Ok store
      /\ (forall p, In p (Model.PERIODS ex_model) ->
                    In ([N "source"; N "bus"; I p],
                        Eq (Var (old_exo "source" "bus" p)) (Num 0)) store)
      /\ ~ old_exo_exactly_once ex_model ex_investment_long 20
             "source" "bus" store)
  /\ (exists store,
      InvestmentFlowBlock._old_capacity_rule_exo ex_model
        (ex_sets_with ex_investment_aged) = Ok store
      /\ In ([N "source"; N "bus"; I 0],
             Eq (Var (old_exo "source" "bus" 0)) (Num 0)) store
      /\ In ([N "source"; N "bus"; I 1],
             Eq (Var (old_exo "source" "bus" 1)) (Num 10)) store
      /\ ~ old_exo_exactly_once ex_model ex_investment_aged 3
             "source" "bus" store).
Proof.
  split.
  - eexists. split; [vm_compute; reflexivity|]. split.
    + intros p Hp. apply in_PERIODS in Hp. simpl in Hp.
      assert (H : p = 0 \/ p = 1 \/ p = 2 \/ p = 3 \/ p = 4) by lia.
      destruct H as [->|[->|[->|[->| ->]]]]; simpl; tauto.
    + intros (p & Hp & Hdue & _). apply in_PERIODS in Hp. simpl in Hp.
      assert (H : p = 0 \/ p = 1 \/ p = 2 \/ p = 3 \/ p = 4) by lia.
      destruct H as [->|[->|[->|[->| ->]]]]; vm_compute in Hdue;
        now apply Hdue.
  - eexists. split; [vm_compute; reflexivity|].
    split; [simpl; tauto|]. split; [simpl; tauto|].
    intros (p & Hp & Hdue & Hfirst & Hstore).
    assert (p = 0) as ->.
    { apply in_PERIODS in Hp. simpl in Hp.
      destruct (Z.eq_dec p 0) as [|Hne]; [assumption|exfalso].
      apply (Hfirst 0); [apply in_PERIODS; simpl; lia|lia|].
      vm_compute. discriminate. }
    specialize (Hstore 0 Hp). simpl in Hstore.
    repeat destruct Hstore as [Hstore|Hstore]; try discriminate Hstore.
    exact Hstore.
Qed.

(* ------------------------------------------------------------------ *)
(** * The investment costs in the objective *)

Lemma Qsum_app (l1 l2 : list Q) : (Qsum (l1 ++ l2) == Qsum l1 + Qsum l2)%Q.
Proof.
  induction l1 as [|x l1 IH]; simpl; [ring|]. rewrite IH. ring.
Qed.

Lemma add_to_ok (d : list (Z * expr)) (p : Z) (inc : expr) :
  In p (map fst d) ->
  exists d', InvestmentFlowBlock.add_to d p inc = Ok d'
             /\ map fst d' = map fst d.
Proof.
  induction d as [|[k e] d IH]; intros H; [easy|]. simpl.
  destruct (Z.eqb_spec k p) as [->|Hne]; [eauto|].
  destruct IH as (d' & -> & Hk); [destruct H; [easy|assumption]|].
  simpl. eexists. split; [reflexivity|]. simpl. now rewrite Hk.
Qed.

Section Increments.
Variable m : Model.t.
Variable increment : node -> node -> Investment.t -> Z -> result expr.
Variable value : assignment -> node -> node -> Investment.t -> Z -> Q.
Variable inv_of : Flow.t -> option Investment.t.

Lemma period_loop_value (i o : node) (iv : Investment.t) (ps : list Z)
    (st : InvestmentFlowBlock.state) :
  increments_valued m increment value i o iv ->
  (forall p, In p ps -> In p (Model.PERIODS m) /\ In p (map fst (snd st))) ->
  exists st',
    fold_m (fun (st : InvestmentFlowBlock.state) p =>
              inc <- increment i o iv p ;;
              d <- InvestmentFlowBlock.add_to (snd st) p inc ;;
              Ok (Add (fst st) inc, d)) ps st = Ok st'
    /\ map fst (snd st') = map fst (snd st)
    /\ forall rho,
        (eval rho (fst st')
         == eval rho (fst st) + Qsum (map (value rho i o iv) ps))%Q.
Proof.
  intros Hinc. revert st. induction ps as [|p ps IH]; intros st Hps; simpl.
  - exists st. repeat split. intros rho. ring.
  - destruct (Hps p (or_introl eq_refl)) as [Hp Hkey].
    destruct (Hinc p Hp) as (e & -> & He). simpl.
    destruct (add_to_ok (snd st) p e Hkey) as (d & -> & Hd). simpl.
    destruct (IH (Add (fst st) e, d)) as (st' & -> & Hk & Hv).
    { intros q Hq. simpl. rewrite Hd. apply Hps. now right. }
    exists st'. split; [reflexivity|]. split; [now rewrite Hk|].
    intros rho. rewrite Hv. simpl. rewrite He. ring.
Qed.

Lemma flow_loop_value (flows : group) (st : InvestmentFlowBlock.state) :
  map fst (snd st) = Model.PERIODS m ->
  (forall i o f, In (i, o, f) flows ->
                 exists iv, inv_of f = Some iv /\ increments_valued m increment value i o iv) ->
  exists st',
    fold_m (fun st '(i, o, f) =>
              iv <- attr_of "investment" (inv_of f) ;;
              fold_m (fun (st : InvestmentFlowBlock.state) p =>
                        inc <- increment i o iv p ;;
                        d <- InvestmentFlowBlock.add_to (snd st) p inc ;;
                        Ok (Add (fst st) inc, d)) (Model.PERIODS m) st)
           flows st = Ok st'
    /\ map fst (snd st') = Model.PERIODS m
    /\ forall rho,
        (eval rho (fst st')
         == eval rho (fst st)
            + Qsum (flat_map (fun '(i, o, f) =>
                      match inv_of f with
                      | Some iv => map (value rho i o iv) (Model.PERIODS m)
                      | None => []
                      end) flows))%Q.
Proof.
  revert st. induction flows as [|[[i o] f] flows IH]; intros st Hkeys Hall.
  - exists st. repeat split; [assumption|]. intros rho. simpl. ring.
  - destruct (Hall i o f (or_introl eq_refl)) as (iv & Hiv & Hinc).
    cbn [fold_m]. rewrite Hiv. cbn [attr_of bind].
    destruct (period_loop_value i o iv (Model.PERIODS m) st Hinc)
      as (st1 & -> & Hk1 & Hv1).
    { intros p Hp. split; [assumption|now rewrite Hkeys]. }
    cbn [bind].
    destruct (IH st1) as (st' & -> & Hk & Hv).
    { now rewrite Hk1. }
    { intros; eapply Hall; right; eassumption. }
    exists st'. split; [reflexivity|]. split; [assumption|].
    intros rho. cbn [flat_map]. rewrite Hiv, Hv, Hv1, Qsum_app. ring.
Qed.

(** The same two loops in the block of blocks.py, which keeps the sum
    only. *)
Lemma legacy_period_loop_value (i o : node) (iv : Investment.t)
    (ps : list Z) (acc : expr) :
  increments_valued m increment value i o iv ->
  (forall p, In p ps -> In p (Model.PERIODS m)) ->
  exists acc',
    fold_m (fun acc p => inc <- increment i o iv p ;; Ok (Add acc inc)) ps acc
    = Ok acc'
    /\ forall rho,
        (eval rho acc' == eval rho acc + Qsum (map (value rho i o iv) ps))%Q.
Proof.
  intros Hinc. revert acc. induction ps as [|p ps IH]; intros acc Hps; simpl.
  - exists acc. split; [reflexivity|]. intros rho. ring.
  - destruct (Hinc p (Hps p (or_introl eq_refl))) as (e & -> & He). simpl.
    destruct (IH (Add acc e)) as (acc' & -> & Hv).
    { intros q Hq. apply Hps. now right. }
    exists acc'. split; [reflexivity|].
    intros rho. rewrite Hv. simpl. rewrite He. ring.
Qed.

Lemma legacy_flow_loop_value (flows : group) (acc : expr) :
  (forall i o f, In (i, o, f) flows ->
                 exists iv, inv_of f = Some iv /\ increments_valued m increment value i o iv) ->
  exists acc',
    fold_m (fun acc '(i, o, f) =>
              iv <- attr_of "multiperiodinvestment" (inv_of f) ;;
              fold_m (fun acc p =>
                        inc <- increment i o iv p ;; Ok (Add acc inc))
                     (Model.PERIODS m) acc) flows acc = Ok acc'
    /\ forall rho,
        (eval rho acc'
         == eval rho acc
            + Qsum (flat_map (fun '(i, o, f) =>
                      match inv_of f with
                      | Some iv => map (value rho i o iv) (Model.PERIODS m)
                      | None => []
                      end) flows))%Q.
Proof.
  revert acc. induction flows as [|[[i o] f] flows IH]; intros acc Hall.
  - exists acc. split; [reflexivity|]. intros rho. simpl. ring.
  - destruct (Hall i o f (or_introl eq_refl)) as (iv & Hiv & Hinc).
    cbn [fold_m]. rewrite Hiv. cbn [attr_of bind].
    destruct (legacy_period_loop_value i o iv (Model.PERIODS m) acc Hinc)
      as (acc1 & -> & Hv1); [auto|].
    cbn [bind].
    destruct (IH acc1) as (acc' & -> & Hv).
    { intros; eapply Hall; right; eassumption. }
    exists acc'. split; [reflexivity|].
    intros rho. cbn [flat_map]. rewrite Hiv, Hv, Hv1, Qsum_app. ring.
Qed.
End Increments.

Lemma fold_m_ok {A S} (body : S -> A -> result S) (l : list A) :
  (forall s a, In a l -> exists s', body s a = Ok s') ->
  forall s, exists s', fold_m body l s = Ok s'.
Proof.
  induction l as [|a l IH]; intros H s; simpl; [eauto|].
  destruct (H s a (or_introl eq_refl)) as [s1 ->]. simpl.
  apply IH. intros; apply H; now right.
Qed.

(** The discount factor is defined when the base 1 + discount_rate is
    not 0. *)
Lemma discount_defined (m : Model.t) (e : Z) :
  ~ (1 + Model.discount_rate m == 0)%Q ->
  InvestmentFlowBlock.discount m e
  = Ok ((1 + Model.discount_rate m) ^ (- e))%Q
  /\ blocks.MultiPeriodInvestmentFlow.discount m e
     = Ok ((1 + Model.discount_rate m) ^ (- e))%Q.
Proof.
  intros H. unfold InvestmentFlowBlock.discount,
    blocks.MultiPeriodInvestmentFlow.discount.
  destruct (Qeq_bool (1 + Model.discount_rate m) 0) eqn:E.
  - apply Qeq_bool_eq in E. contradiction.
  - split; reflexivity.
Qed.

Lemma convex_increment_valued (annuity : Q -> Z -> Q -> result Q)
    (m : Model.t) (i o : node) (iv : Investment.t) :
  ~ (1 + Model.discount_rate m == 0)%Q ->
  priced m false iv -> annuity_returns annuity m iv ->
  increments_valued m (InvestmentFlowBlock.convex_increment annuity m)
    (contribution annuity m (year_of m)) i o iv.
Proof.
  intros Hd (Hnc & Hl & Hep & _) Hann p Hp.
  unfold InvestmentFlowBlock.convex_increment, InvestmentFlowBlock.v_invest,
    contribution.
  specialize (Hep p Hp). rewrite Hnc.
  destruct (item (Investment.ep_costs iv) p) as [capex|] eqn:Ecapex; [|easy].
  destruct (Investment.lifetime iv) as [l|] eqn:El; [|easy].
  destruct (Hann p capex l Hp Ecapex El) as [a Ha].
  cbn [number bind].
  change (InvestmentFlowBlock.interest_of m iv)
    with (interest_after_default m iv).
  rewrite Ha. cbn [bind]. rewrite (indexed_in _ _ _ _ _ Hp), (year_of_defined m p Hp).
  cbn [number bind]. rewrite (proj1 (discount_defined m _ Hd)). cbn [bind].
  eexists. split; [reflexivity|]. intros rho. reflexivity.
Qed.

Lemma nonconvex_increment_valued (annuity : Q -> Z -> Q -> result Q)
    (m : Model.t) (i o : node) (iv : Investment.t) :
  ~ (1 + Model.discount_rate m == 0)%Q ->
  priced m true iv -> annuity_returns annuity m iv ->
  increments_valued m (InvestmentFlowBlock.nonconvex_increment annuity m)
    (contribution annuity m (year_of m)) i o iv.
Proof.
  intros Hd (Hnc & Hl & Hep & Hoff & _) Hann p Hp.
  unfold InvestmentFlowBlock.nonconvex_increment, InvestmentFlowBlock.v_invest,
    InvestmentFlowBlock.v_invest_status, contribution.
  specialize (Hep p Hp). specialize (Hoff eq_refl p Hp). rewrite Hnc.
  destruct (item (Investment.ep_costs iv) p) as [capex|] eqn:Ecapex; [|easy].
  destruct (Investment.lifetime iv) as [l|] eqn:El; [|easy].
  destruct (item (Investment.offset iv) p) as [off|]; [|easy].
  destruct (Hann p capex l Hp Ecapex El) as [a Ha].
  cbn [number bind].
  change (InvestmentFlowBlock.interest_of m iv)
    with (interest_after_default m iv).
  rewrite Ha. cbn [bind]. rewrite !(indexed_in _ _ _ _ _ Hp), (year_of_defined m p Hp).
  cbn [number bind]. rewrite (proj1 (discount_defined m _ Hd)). cbn [bind].
  eexists. split; [reflexivity|]. intros rho. reflexivity.
Qed.

Lemma legacy_convex_increment_valued (annuity : Q -> Z -> Q -> result Q)
    (m : Model.t) (i o : node) (iv : Investment.t) :
  ~ (1 + Model.discount_rate m == 0)%Q ->
  priced m false iv -> annuity_returns annuity m iv ->
  increments_valued m
    (blocks.MultiPeriodInvestmentFlow.convex_increment annuity m)
    (contribution annuity m (fun p => p)) i o iv.
Proof.
  intros Hd (Hnc & Hl & Hep & _) Hann p Hp.
  unfold blocks.MultiPeriodInvestmentFlow.convex_increment,
    blocks.MultiPeriodInvestmentFlow.v_invest, contribution.
  specialize (Hep p Hp). rewrite Hnc.
  destruct (item (Investment.ep_costs iv) p) as [capex|] eqn:Ecapex; [|easy].
  destruct (Investment.lifetime iv) as [l|] eqn:El; [|easy].
  destruct (Hann p capex l Hp Ecapex El) as [a Ha].
  cbn [number bind].
  change (blocks.MultiPeriodInvestmentFlow.interest_of m iv)
    with (interest_after_default m iv).
  rewrite Ha. cbn [bind]. rewrite (indexed_in _ _ _ _ _ Hp). cbn [number bind].
  rewrite (proj2 (discount_defined m p Hd)). cbn [bind].
  eexists. split; [reflexivity|]. intros rho. reflexivity.
Qed.

Lemma legacy_nonconvex_increment_valued (annuity : Q -> Z -> Q -> result Q)
    (m : Model.t) (i o : node) (iv : Investment.t) :
  ~ (1 + Model.discount_rate m == 0)%Q ->
  priced m true iv -> annuity_returns annuity m iv ->
  increments_valued m
    (blocks.MultiPeriodInvestmentFlow.nonconvex_increment annuity m)
    (contribution annuity m (fun p => p)) i o iv.
Proof.
  intros Hd (Hnc & Hl & Hep & Hoff & _) Hann p Hp.
  unfold blocks.MultiPeriodInvestmentFlow.nonconvex_increment,
    blocks.MultiPeriodInvestmentFlow.v_invest,
    blocks.MultiPeriodInvestmentFlow.v_invest_status, contribution.
  specialize (Hep p Hp). specialize (Hoff eq_refl p Hp). rewrite Hnc.
  destruct (item (Investment.ep_costs iv) p) as [capex|] eqn:Ecapex; [|easy].
  destruct (Investment.lifetime iv) as [l|] eqn:El; [|easy].
  destruct (item (Investment.offset iv) p) as [off|]; [|easy].
  destruct (Hann p capex l Hp Ecapex El) as [a Ha].
  cbn [number bind].
  change (blocks.MultiPeriodInvestmentFlow.interest_of m iv)
    with (interest_after_default m iv).
  rewrite Ha. cbn [bind]. rewrite !(indexed_in _ _ _ _ _ Hp). cbn [number bind].
  rewrite (proj2 (discount_defined m p Hd)). cbn [bind].
  eexists. split; [reflexivity|]. intros rho. reflexivity.
Qed.

(** The two loops over the fixed costs build their sums. *)
Lemma fixed_costs_invest_ok (m : Model.t) (i o : node) (iv : Investment.t)
    (nc : bool) (acc : expr) :
  ~ (1 + Model.discount_rate m == 0)%Q ->
  priced m nc iv ->
  exists acc', InvestmentFlowBlock.fixed_costs_invest m i o iv acc = Ok acc'.
Proof.
  intros Hd (_ & Hl & _ & _ & Hfc).
  unfold InvestmentFlowBlock.fixed_costs_invest.
  destruct (InvestmentFlowBlock.is_none _) eqn:E; [eauto|].
  destruct Hfc as [Hfc|Hfc]; [now rewrite Hfc in E|].
  apply fold_m_ok. intros a p Hp.
  rewrite (year_of_defined m p Hp). cbn [bind].
  destruct (Investment.lifetime iv) as [l|]; [|easy]. cbn [number bind].
  destruct (for_each_ok (fun pp =>
      inv <- InvestmentFlowBlock.v_invest m i o p ;;
      fc <- number (item (Investment.fixed_costs iv) pp) ;;
      d <- InvestmentFlowBlock.discount m pp ;;
      Ok [Mul (Mul inv (Num fc)) (Num d)])
      (range (year_of m p) (year_of m p + l))) as [terms ->].
  - intros pp _. unfold InvestmentFlowBlock.v_invest.
    rewrite (indexed_in _ _ _ _ _ Hp). cbn [bind]. specialize (Hfc pp).
    destruct (item (Investment.fixed_costs iv) pp); [|easy].
    cbn [number bind]. rewrite (proj1 (discount_defined m pp Hd)).
    cbn [bind]. eauto.
  - cbn [bind]. rewrite (proj1 (discount_defined m _ Hd)). cbn [bind]. eauto.
Qed.

Lemma fixed_costs_existing_ok (m : Model.t) (iv : Investment.t) (nc : bool)
    (acc : expr) :
  ~ (1 + Model.discount_rate m == 0)%Q ->
  priced m nc iv ->
  exists acc', InvestmentFlowBlock.fixed_costs_existing m iv acc = Ok acc'.
Proof.
  intros Hd (_ & Hl & _ & _ & Hfc).
  unfold InvestmentFlowBlock.fixed_costs_existing.
  destruct (InvestmentFlowBlock.is_none _) eqn:E; [eauto|].
  destruct Hfc as [Hfc|Hfc]; [now rewrite Hfc in E|].
  destruct (Investment.lifetime iv) as [l|]; [|easy]. cbn [number bind].
  destruct (for_each_ok (fun pp =>
      fc <- number (item (Investment.fixed_costs iv) pp) ;;
      d <- InvestmentFlowBlock.discount m pp ;;
      Ok [(Investment.existing iv * fc * d)%Q])
      (range 0 (l - Investment.age iv))) as [terms ->]; [|cbn [bind]; eauto].
  intros pp _. specialize (Hfc pp).
  destruct (item (Investment.fixed_costs iv) pp); [|easy].
  cbn [number bind]. rewrite (proj1 (discount_defined m pp Hd)).
  cbn [bind]. eauto.
Qed.

Lemma investment_objective_value (annuity : Q -> Z -> Q -> result Q)
    (m : Model.t) (g : group) :
  ~ (1 + Model.discount_rate m == 0)%Q ->
  EnergySystem.multi_period (Model.es m) = true ->
  (forall i o f, In (i, o, f) g ->
                 exists iv, Flow.investment f = Some iv
                            /\ priced m (Investment.nonconvex iv) iv
                            /\ annuity_returns annuity m iv) ->
  exists s r,
    InvestmentFlowBlock._create_sets g = Ok s
    /\ InvestmentFlowBlock._objective_expression annuity m (Some s)
       = Ok (Some r)
    /\ forall rho,
        (eval rho (InvestmentFlowBlock.investment_costs r)
         == contributions annuity m (year_of m) rho Flow.investment
              (InvestmentFlowBlock.CONVEX_INVESTFLOWS s)
            + contributions annuity m (year_of m) rho Flow.investment
                (InvestmentFlowBlock.NON_CONVEX_INVESTFLOWS s))%Q
        /\ (eval rho (InvestmentFlowBlock.costs r)
            == contributions annuity m (year_of m) rho Flow.investment
                 (InvestmentFlowBlock.CONVEX_INVESTFLOWS s)
               + contributions annuity m (year_of m) rho Flow.investment
                   (InvestmentFlowBlock.NON_CONVEX_INVESTFLOWS s)
               + eval rho (InvestmentFlowBlock.fixed_costs r))%Q.
Proof.
  intros Hd Hmp Hg'.
  assert (Hg : forall i o f, In (i, o, f) g ->
            exists iv, Flow.investment f = Some iv
                       /\ priced m (Investment.nonconvex iv) iv).
  { intros i o f Hin. destruct (Hg' i o f Hin) as (iv & Hiv & Hp & _).
    eauto. }
  assert (Hann : forall i o f iv, In (i, o, f) g ->
            Flow.investment f = Some iv -> annuity_returns annuity m iv).
  { intros i o f iv Hin Hiv. destruct (Hg' i o f Hin) as (iv' & Hiv' & _ & Ha).
    rewrite Hiv in Hiv'. now injection Hiv' as <-. }
  destruct (investment_sets_ok g) as (s & Hs & Hall & Hcv & Hnc & Hex).
  { intros i o f Hin. destruct (Hg i o f Hin) as (iv & -> & _). discriminate. }
  exists s. unfold InvestmentFlowBlock._objective_expression.
  rewrite Hmp. cbn [negb].
  set (st0 := (Num 0, map (fun p => (p, Num 0)) (Model.PERIODS m))).
  assert (Hk0 : map fst (snd st0) = Model.PERIODS m).
  { subst st0. simpl. rewrite map_map. simpl. apply map_id. }
  destruct (flow_loop_value m (InvestmentFlowBlock.convex_increment annuity m)
              (contribution annuity m (year_of m)) Flow.investment
              (InvestmentFlowBlock.CONVEX_INVESTFLOWS s) st0 Hk0)
    as (st1 & E1 & K1 & V1).
  { intros i o f Hin. apply Hcv in Hin as (Hin & iv & Hiv & Hflag).
    exists iv. split; [exact Hiv|].
    apply convex_increment_valued;
      [exact Hd| |exact (Hann i o f iv Hin Hiv)].
    destruct (Hg i o f Hin) as (iv' & Hiv' & Hp).
    rewrite Hiv in Hiv'. injection Hiv' as <-. now rewrite Hflag in Hp. }
  destruct (flow_loop_value m
              (InvestmentFlowBlock.nonconvex_increment annuity m)
              (contribution annuity m (year_of m)) Flow.investment
              (InvestmentFlowBlock.NON_CONVEX_INVESTFLOWS s) st1 K1)
    as (st2 & E2 & K2 & V2).
  { intros i o f Hin. apply Hnc in Hin as (Hin & iv & Hiv & Hflag).
    exists iv. split; [exact Hiv|].
    apply nonconvex_increment_valued;
      [exact Hd| |exact (Hann i o f iv Hin Hiv)].
    destruct (Hg i o f Hin) as (iv' & Hiv' & Hp).
    rewrite Hiv in Hiv'. injection Hiv' as <-. now rewrite Hflag in Hp. }
  unfold InvestmentFlowBlock.add_increments, InvestmentFlowBlock.investment.
  rewrite E1. cbn [bind]. rewrite E2. cbn [bind].
  destruct (fold_m_ok (fun acc '(i, o, f) =>
              iv <- attr_of "investment" (Flow.investment f) ;;
              InvestmentFlowBlock.fixed_costs_invest m i o iv acc)
              (InvestmentFlowBlock.INVESTFLOWS s)) with (s := Num 0)
    as [fc1 F1].
  { intros acc [[i o] f] Hin. rewrite Hall in Hin.
    destruct (Hg i o f Hin) as (iv & -> & Hp). simpl.
    now apply fixed_costs_invest_ok with (nc := Investment.nonconvex iv). }
  rewrite F1. cbn [bind].
  destruct (fold_m_ok (fun acc '(i, o, f) =>
              iv <- attr_of "investment" (Flow.investment f) ;;
              InvestmentFlowBlock.fixed_costs_existing m iv acc)
              (InvestmentFlowBlock.EXISTING_INVESTFLOWS s)) with (s := fc1)
    as [fc2 F2].
  { intros acc [[i o] f] Hin. apply Hex in Hin.
    destruct (Hg i o f Hin) as (iv & -> & Hp). simpl.
    now apply fixed_costs_existing_ok with (nc := Investment.nonconvex iv). }
  rewrite F2. cbn [bind].
  eexists. split; [exact Hs|]. split; [reflexivity|].
  intros rho.
  cbn [InvestmentFlowBlock.investment_costs InvestmentFlowBlock.costs
       InvestmentFlowBlock.fixed_costs eval].
  rewrite V2, V1. unfold contributions. subst st0. simpl. split; ring.
Qed.

Lemma legacy_objective_value (annuity : Q -> Z -> Q -> result Q)
    (m : Model.t) (convex nonconvex : group) :
  ~ (1 + Model.discount_rate m == 0)%Q ->
  (forall i o f, In (i, o, f) convex ->
                 exists iv, Flow.multiperiodinvestment f = Some iv
                            /\ priced m false iv
                            /\ annuity_returns annuity m iv) ->
  (forall i o f, In (i, o, f) nonconvex ->
                 exists iv, Flow.multiperiodinvestment f = Some iv
                            /\ priced m true iv
                            /\ annuity_returns annuity m iv) ->
  exists e,
    blocks.MultiPeriodInvestmentFlow._objective_expression annuity m
      convex nonconvex = Ok e
    /\ forall rho,
        (eval rho e
         == contributions annuity m (fun p => p) rho
              Flow.multiperiodinvestment convex
            + contributions annuity m (fun p => p) rho
                Flow.multiperiodinvestment nonconvex)%Q.
Proof.
  intros Hd Hcv Hnc.
  unfold blocks.MultiPeriodInvestmentFlow._objective_expression,
    blocks.MultiPeriodInvestmentFlow.add_increments,
    blocks.MultiPeriodInvestmentFlow.multiperiodinvestment.
  destruct (legacy_flow_loop_value m
              (blocks.MultiPeriodInvestmentFlow.convex_increment annuity m)
              (contribution annuity m (fun p => p))
              Flow.multiperiodinvestment convex (Num 0))
    as (e1 & E1 & V1).
  { intros i o f Hin. destruct (Hcv i o f Hin) as (iv & Hiv & Hp & Ha).
    exists iv. split; [exact Hiv|].
    now apply legacy_convex_increment_valued. }
  destruct (legacy_flow_loop_value m
              (blocks.MultiPeriodInvestmentFlow.nonconvex_increment annuity m)
              (contribution annuity m (fun p => p))
              Flow.multiperiodinvestment nonconvex e1)
    as (e2 & E2 & V2).
  { intros i o f Hin. destruct (Hnc i o f Hin) as (iv & Hiv & Hp & Ha).
    exists iv. split; [exact Hiv|].
    now apply legacy_nonconvex_increment_valued. }
  rewrite E1. cbn [bind]. rewrite E2.
  exists e2. split; [reflexivity|].
  intros rho. rewrite V2, V1. unfold contributions. simpl. ring.
Qed.

(** C2, amended: in a multi-period model whose discount rate is not
    -1, when the annuity function returns for every flow and period
    (oemof's raises for an interest of 0), the investment costs that
    [InvestmentFlowBlock] adds to the objective are, for every convex
    flow and every period p,
    invest(p) * annuity(ep_costs(p), lifetime, interest) * lifetime
    discounted by (1 + discount_rate) ^ (- year(p)), with year(p) the
    year offset of the period, and for every non-convex flow the same
    plus invested(p) * offset(p) under the same discount factor; the
    costs that [_objective_expression] returns are these investment
    costs plus the fixed costs.  The [MultiPeriodInvestmentFlow] block
    of blocks.py returns the same terms with the exponent minus the
    period ordinal p. *)
Theorem investment_costs_are_discounted (annuity : Q -> Z -> Q -> result Q)
    (m : Model.t) (g convex nonconvex : group) :
  EnergySystem.multi_period (Model.es m) = true ->
  ~ (1 + Model.discount_rate m == 0)%Q ->
  (forall i o f, In (i, o, f) g ->
                 exists iv, Flow.investment f = Some iv
                            /\ priced m (Investment.nonconvex iv) iv
                            /\ annuity_returns annuity m iv) ->
  (forall i o f, In (i, o, f) convex ->
                 exists iv, Flow.multiperiodinvestment f = Some iv
                            /\ priced m false iv
                            /\ annuity_returns annuity m iv) ->
  (forall i o f, In (i, o, f) nonconvex ->
                 exists iv, Flow.multiperiodinvestment f = Some iv
                            /\ priced m true iv
                            /\ annuity_returns annuity m iv) ->
  (exists s r,
      InvestmentFlowBlock._create_sets g = Ok s
      /\ InvestmentFlowBlock._objective_expression annuity m (Some s)
         = Ok (Some r)
      /\ forall rho,
          (eval rho (InvestmentFlowBlock.investment_costs r)
           == contributions annuity m (year_of m) rho Flow.investment
                (InvestmentFlowBlock.CONVEX_INVESTFLOWS s)
              + contributions annuity m (year_of m) rho Flow.investment
                  (InvestmentFlowBlock.NON_CONVEX_INVESTFLOWS s))%Q
          /\ (eval rho (InvestmentFlowBlock.costs r)
              == contributions annuity m (year_of m) rho Flow.investment
                   (InvestmentFlowBlock.CONVEX_INVESTFLOWS s)
                 + contributions annuity m (year_of m) rho Flow.investment
                     (InvestmentFlowBlock.NON_CONVEX_INVESTFLOWS s)
                 + eval rho (InvestmentFlowBlock.fixed_costs r))%Q)
  /\ (exists e,
      blocks.MultiPeriodInvestmentFlow._objective_expression annuity m
        convex nonconvex = Ok e
      /\ forall rho,
          (eval rho e
           == contributions annuity m (fun p => p) rho
                Flow.multiperiodinvestment convex
              + contributions annuity m (fun p => p) rho
                  Flow.multiperiodinvestment nonconvex)%Q).
Proof.
  intros Hmp Hd Hg Hcv Hnc. split.
  - now apply investment_objective_value.
  - now apply legacy_objective_value.
Qed.

Lemma ex_investment_priced (m : Model.t) : priced m false ex_investment.
Proof.
  repeat split; try discriminate. now left.
Defined.

Lemma ex_investment_nonconvex_priced (m : Model.t) :
  priced m true ex_investment_nonconvex.
Proof.
  repeat split; try discriminate. right. discriminate.
Defined.

(** The annuity of the examples returns for the two example
    investments in the model with a discount rate of 10 %. *)
Lemma ex_investment_annuity :
  annuity_returns ex_annuity ex_model_5y ex_investment.
Proof.
  intros p capex l _ Hc Hl. cbn in Hc, Hl.
  injection Hc as <-. injection Hl as <-.
  eexists. vm_compute. reflexivity.
Defined.

Lemma ex_investment_nonconvex_annuity :
  annuity_returns ex_annuity ex_model_5y ex_investment_nonconvex.
Proof.
  intros p capex l _ Hc Hl. cbn in Hc, Hl.
  injection Hc as <-. injection Hl as <-.
  eexists. vm_compute. reflexivity.
Defined.

Lemma ex_group_mixed_priced (i o : node) (f : Flow.t) :
  In (i, o, f) (ex_group_convex ++ ex_group_nonconvex) ->
  exists iv, Flow.investment f = Some iv
             /\ priced ex_model_5y (Investment.nonconvex iv) iv
             /\ annuity_returns ex_annuity ex_model_5y iv.
Proof.
  intros [H|[H|[]]]; injection H as <- <- <-.
  - exists ex_investment. split; [reflexivity|].
    split; [apply ex_investment_priced|apply ex_investment_annuity].
  - exists ex_investment_nonconvex. split; [reflexivity|].
    split; [apply ex_investment_nonconvex_priced
           |apply ex_investment_nonconvex_annuity].
Defined.

(** The theorem at the model with periods five years apart, for one
    convex and one non-convex flow. *)
Lemma investment_costs_are_discounted_witness :
  (exists s r,
      InvestmentFlowBlock._create_sets (ex_group_convex ++ ex_group_nonconvex)
      = Ok s
      /\ InvestmentFlowBlock._objective_expression ex_annuity ex_model_5y
           (Some s) = Ok (Some r)
      /\ forall rho,
          (eval rho (InvestmentFlowBlock.investment_costs r)
           == contributions ex_annuity ex_model_5y (year_of ex_model_5y) rho
                Flow.investment (InvestmentFlowBlock.CONVEX_INVESTFLOWS s)
              + contributions ex_annuity ex_model_5y (year_of ex_model_5y) rho
                  Flow.investment
                  (InvestmentFlowBlock.NON_CONVEX_INVESTFLOWS s))%Q
          /\ (eval rho (InvestmentFlowBlock.costs r)
              == contributions ex_annuity ex_model_5y (year_of ex_model_5y)
                   rho Flow.investment
                   (InvestmentFlowBlock.CONVEX_INVESTFLOWS s)
                 + contributions ex_annuity ex_model_5y (year_of ex_model_5y)
                     rho Flow.investment
                     (InvestmentFlowBlock.NON_CONVEX_INVESTFLOWS s)
                 + eval rho (InvestmentFlowBlock.fixed_costs r))%Q)
  /\ (exists e,
      blocks.MultiPeriodInvestmentFlow._objective_expression ex_annuity
        ex_model_5y ex_group_convex ex_group_nonconvex = Ok e
      /\ forall rho,
          (eval rho e
           == contributions ex_annuity ex_model_5y (fun p => p) rho
                Flow.multiperiodinvestment ex_group_convex
              + contributions ex_annuity ex_model_5y (fun p => p) rho
                  Flow.multiperiodinvestment ex_group_nonconvex)%Q).
Proof.
  apply (investment_costs_are_discounted ex_annuity ex_model_5y
           (ex_group_convex ++ ex_group_nonconvex)
           ex_group_convex ex_group_nonconvex).
  - reflexivity.
  - intros H. vm_compute in H. discriminate H.
  - apply ex_group_mixed_priced.
  - intros i o f [H|[]]. injection H as <- <- <-.
    exists ex_investment. split; [reflexivity|].
    split; [apply ex_investment_priced|apply ex_investment_annuity].
  - intros i o f [H|[]]. injection H as <- <- <-.
    exists ex_investment_nonconvex. split; [reflexivity|].
    split; [apply ex_investment_nonconvex_priced
           |apply ex_investment_nonconvex_annuity].
Defined.

(** A discount rate of -1 makes the base of the discount factor 0, and
    a later year a division by zero. *)
Example ex_zero_base_raises :
  InvestmentFlowBlock.discount
    {| Model.es := Model.es ex_model;
       Model.n_timesteps := 5;
       Model.TIMEINDEX := Model.TIMEINDEX ex_model;
       Model.timeincrement := fun _ => 1%Q;
       Model.discount_rate := (- 1)%Q |} 5
  = Raise ZeroDivisionError.
Proof. reflexivity. Qed.

(** Without an interest rate and with a discount rate of 0 the
    interest is 0, the annuity of the examples divides by zero, and the
    objective is not built. *)
Example ex_zero_interest_raises :
  InvestmentFlowBlock._objective_expression ex_annuity ex_model_no_discount
    (Some (ex_sets_with ex_investment_long))
  = Raise ZeroDivisionError
  /\ blocks.MultiPeriodInvestmentFlow._objective_expression ex_annuity
       ex_model_no_discount
       [("source", "bus", ex_flow_with ex_investment_long)] []
     = Raise ZeroDivisionError.
Proof. split; reflexivity. Qed.

(** C2 as worded fails on the block of blocks.py.  With periods five
    years apart and a discount rate of 10 %, the increment of period 1 is
    discounted by 1.1 ^ (-1), the ordinal, and its value differs from the
    one discounted by 1.1 ^ (-5), the year offset. *)
Lemma legacy_discount_is_not_by_year :
  exists e,
    blocks.MultiPeriodInvestmentFlow.convex_increment ex_annuity ex_model_5y
      "source" "bus" ex_investment 1 = Ok e
    /\ (eval ex_ones e
        == contribution ex_annuity ex_model_5y (fun p => p) ex_ones
             "source" "bus" ex_investment 1)%Q
    /\ ~ (eval ex_ones e
          == contribution ex_annuity ex_model_5y (year_of ex_model_5y) ex_ones
               "source" "bus" ex_investment 1)%Q.
Proof.
  eexists. split; [reflexivity|]. split; [reflexivity|].
  apply Qeq_bool_neq. vm_compute. reflexivity.
Qed.

Example ex_legacy_increment_value :
  exists e,
    blocks.MultiPeriodInvestmentFlow.convex_increment ex_annuity ex_model_5y
      "source" "bus" ex_investment 1 = Ok e
    /\ exists a,
         ex_annuity 100 3 (5 # 100) = Ok a
         /\ (eval ex_ones e == (a * 3) * (10 # 11))%Q.
Proof.
  eexists. split; [reflexivity|]. eexists. split; [reflexivity|].
  vm_compute. reflexivity.
Qed.

Example ex_year_increment_value :
  exists e,
    InvestmentFlowBlock.convex_increment ex_annuity ex_model_5y
      "source" "bus" ex_investment 1 = Ok e
    /\ exists a,
         ex_annuity 100 3 (5 # 100) = Ok a
         /\ (eval ex_ones e == (a * 3) * (100000 # 161051))%Q.
Proof.
  eexists. split; [reflexivity|]. eexists. split; [reflexivity|].
  vm_compute. reflexivity.
Qed.

(* ------------------------------------------------------------------ *)
(** * The balance of a bus *)

Lemma eval_fold_Add (rho : assignment) (es : list expr) (acc : expr) :
  (eval rho (fold_left Add es acc)
   == eval rho acc + Qsum (map (eval rho) es))%Q.
Proof.
  revert acc. induction es as [|e es IH]; intros acc; simpl; [ring|].
  rewrite IH. simpl. ring.
Qed.

Lemma eval_py_sum (rho : assignment) (es : list expr) :
  (eval rho (py_sum es) == Qsum (map (eval rho) es))%Q.
Proof. unfold py_sum. rewrite eval_fold_Add. simpl. ring. Qed.

Lemma fold_Add_not_Num (es : list expr) (acc : expr) :
  (forall q, acc <> Num q) -> forall q, fold_left Add es acc <> Num q.
Proof.
  revert acc. induction es as [|e es IH]; intros acc H q; simpl; [apply H|].
  apply IH. discriminate.
Qed.

Lemma py_sum_not_Num (es : list expr) :
  es <> [] -> forall q, py_sum es <> Num q.
Proof.
  destruct es as [|e es]; [easy|]. intros _ q. unfold py_sum. simpl.
  apply fold_Add_not_Num. discriminate.
Qed.

Lemma py_eq_relational (lhs rhs : expr) :
  (forall q, lhs <> Num q) \/ (forall q, rhs <> Num q) ->
  py_eq lhs rhs = PyRel (Eq lhs rhs).
Proof.
  intros [H|H]; destruct lhs, rhs; try reflexivity;
    exfalso; eapply H; reflexivity.
Qed.

(** What the comparison of the two sums of a bus gives. *)
Lemma balance_comparison (inflow outflow : node -> var) (g : Node.t) :
  let lhs := py_sum (map (fun i => Var (inflow i)) (Node.inputs g)) in
  let rhs := py_sum (map (fun o => Var (outflow o)) (Node.outputs g)) in
  (Node.inputs g = [] -> Node.outputs g = [] ->
   py_eq lhs rhs = PyBool true)
  /\ (Node.inputs g <> [] \/ Node.outputs g <> [] ->
      py_eq lhs rhs = PyRel (Eq lhs rhs)).
Proof.
  split.
  - intros -> ->. reflexivity.
  - intros H. apply py_eq_relational.
    destruct H as [H|H]; [left|right]; apply py_sum_not_Num;
      now destruct (Node.inputs g), (Node.outputs g).
Qed.

Lemma balance_says (rho : assignment) (inflow outflow : node -> var)
    (g : Node.t) :
  holds rho (Eq (py_sum (map (fun i => Var (inflow i)) (Node.inputs g)))
                (py_sum (map (fun o => Var (outflow o)) (Node.outputs g))))
  <-> balanced rho inflow outflow g.
Proof.
  unfold balanced. simpl. rewrite !eval_py_sum, !map_map. simpl. reflexivity.
Qed.

(** One step of a balance rule, for any of the three bus blocks: the
    step adds the balance under its key, or nothing. *)
Lemma balance_step_cases (k : key) (inflow outflow : node -> var)
    (g : Node.t) :
  let lhs := py_sum (map (fun i => Var (inflow i)) (Node.inputs g)) in
  let rhs := py_sum (map (fun o => Var (outflow o)) (Node.outputs g)) in
  let step := match py_eq lhs rhs with
              | PyBool true => Ok []
              | PyBool false =>
                  Raise (ValueError ["Constraint is trivially False"])
              | PyRel expr => Ok [(k, expr)]
              end in
  (Node.inputs g = [] -> Node.outputs g = [] -> step = Ok [])
  /\ (Node.inputs g <> [] \/ Node.outputs g <> [] ->
      step = Ok [(k, Eq lhs rhs)]).
Proof.
  destruct (balance_comparison inflow outflow g) as [Hnone Hsome].
  split.
  - intros Hi Ho. cbv zeta. now rewrite (Hnone Hi Ho).
  - intros H. cbv zeta. now rewrite (Hsome H).
Qed.

Lemma balance_step_ok (k : key) (inflow outflow : node -> var) (g : Node.t) :
  exists out,
    match py_eq (py_sum (map (fun i => Var (inflow i)) (Node.inputs g)))
                (py_sum (map (fun o => Var (outflow o)) (Node.outputs g))) with
    | PyBool true => Ok []
    | PyBool false => Raise (ValueError ["Constraint is trivially False"])
    | PyRel expr => Ok [(k, expr)]
    end = Ok out
    /\ forall k' c, In (k', c) out -> k' = k.
Proof.
  destruct (balance_step_cases k inflow outflow g) as [Hnone Hsome].
  cbv zeta in Hnone, Hsome.
  destruct (Node.inputs g) as [|i ins] eqn:Ei;
    destruct (Node.outputs g) as [|o outs] eqn:Eo.
  - rewrite (Hnone eq_refl eq_refl). exists []. split; [reflexivity|easy].
  - rewrite Hsome by (right; discriminate). eexists. split; [reflexivity|].
    intros k' c [H|[]]. now injection H.
  - rewrite Hsome by (left; discriminate). eexists. split; [reflexivity|].
    intros k' c [H|[]]. now injection H.
  - rewrite Hsome by (left; discriminate). eexists. split; [reflexivity|].
    intros k' c [H|[]]. now injection H.
Qed.

Lemma label_unique (group : list Node.t) (g g' : Node.t) :
  NoDup (map Node.label group) -> In g group -> In g' group ->
  Node.label g = Node.label g' -> g = g'.
Proof.
  induction group as [|x group IH]; intros Hnd Hg Hg' Hl; [easy|].
  simpl in Hnd. apply NoDup_cons_iff in Hnd as [Hx Hnd].
  destruct Hg as [->|Hg], Hg' as [->|Hg']; try reflexivity.
  - destruct Hx. rewrite Hl. now apply in_map.
  - destruct Hx. rewrite <- Hl. now apply in_map.
  - now apply IH.
Qed.

Lemma for_each_ext {A B} (f g : A -> result (list B)) (l : list A) :
  (forall a, f a = g a) -> for_each f l = for_each g l.
Proof.
  intros H. induction l as [|a l IH]; simpl; [reflexivity|].
  now rewrite H, IH.
Qed.

Section Balance.
Context {X : Type}.
Variable slices : list X.
Variable group : list Node.t.
Variable mk : X -> Node.t -> key.
Variables inflow outflow : X -> Node.t -> node -> var.
Hypothesis mk_label :
  forall x g x' g', mk x g = mk x' g' -> Node.label g = Node.label g'.

Lemma balance_rule_emits :
  NoDup (map Node.label group) ->
  exists store,
    for_each (fun x => for_each (balance_step mk inflow outflow x) group) slices = Ok store
    /\ forall x g, In x slices -> In g group ->
         balance_or_nothing store (mk x g) (inflow x g) (outflow x g) g.
Proof.
  intros Hnd.
  destruct (for_each_ok (fun x => for_each (balance_step mk inflow outflow x) group) slices)
    as [store Hstore].
  { intros x _. apply for_each_ok. intros g _.
    destruct (balance_step_ok (mk x g) (inflow x g) (outflow x g) g)
      as (out & Hout & _). now exists out. }
  exists store. split; [exact Hstore|]. intros x g Hx Hg.
  destruct (balance_step_cases (mk x g) (inflow x g) (outflow x g) g)
    as [Hnone Hsome]. cbv zeta in Hnone, Hsome.
  split.
  - intros Hflows. eexists. split; [|split; [reflexivity|]].
    + destruct (for_each_ok (balance_step mk inflow outflow x) group) as [inner Hinner].
      { intros g' _.
        destruct (balance_step_ok (mk x g') (inflow x g') (outflow x g') g')
          as (out & Hout & _). now exists out. }
      apply (for_each_in Hstore Hx Hinner).
      apply (for_each_in Hinner Hg (Hsome Hflows)). now left.
    + intros rho. apply balance_says.
  - intros Hi Ho c Hc.
    destruct (for_each_inv Hstore Hc) as (x' & inner & Hx' & Hinner & Hc').
    destruct (for_each_inv Hinner Hc') as (g' & out & Hg' & Hout & Hc'').
    destruct (balance_step_ok (mk x' g') (inflow x' g') (outflow x' g') g')
      as (out' & Hout' & Hkeys).
    assert (Hstep : balance_step mk inflow outflow x' g' = Ok out') by exact Hout'.
    rewrite Hstep in Hout. injection Hout as <-.
    pose proof (Hkeys _ _ Hc'') as Hk.
    assert (g = g') as <-.
    { apply (label_unique group); try assumption. now apply mk_label in Hk. }
    destruct (balance_step_cases (mk x' g) (inflow x' g) (outflow x' g) g)
      as [Hnone' _]. cbv zeta in Hnone'.
    assert (Hempty : balance_step mk inflow outflow x' g = Ok []) by exact (Hnone' Hi Ho).
    rewrite Hempty in Hstep. injection Hstep as <-. easy.
Qed.
End Balance.

(** The two balance rules, for buses with distinct labels. *)
Lemma busbalance_rules_emit (m : Model.t) (group : list Node.t) :
  NoDup (map Node.label group) ->
  (exists store,
      bus.Bus._busbalance_rule m group = Ok store
      /\ forall g p t, In g group -> In (p, t) (Model.TIMEINDEX m) ->
           balance_or_nothing store [N (Node.label g); I p; I t]
             (fun i => flow_pt i (Node.label g) p t)
             (fun o => flow_pt (Node.label g) o p t) g)
  /\ (exists store,
      blocks.Bus._busbalance_rule m group = Ok store
      /\ forall g t, In g group -> In t (Model.TIMESTEPS m) ->
           balance_or_nothing store [N (Node.label g); I t]
             (fun i => flow_t i (Node.label g) t)
             (fun o => flow_t (Node.label g) o t) g).
Proof.
  intros Hnd. split.
  - destruct (balance_rule_emits (Model.TIMEINDEX m) group
                (fun '(p, t) g => [N (Node.label g); I p; I t])
                (fun '(p, t) g i => flow_pt i (Node.label g) p t)
                (fun '(p, t) g o => flow_pt (Node.label g) o p t))
      as (store & Hstore & Hall).
    { intros [p t] g [p' t'] g' H. now injection H. }
    { exact Hnd. }
    exists store. split.
    + etransitivity; [|exact Hstore]. unfold bus.Bus._busbalance_rule.
      apply for_each_ext. intros [p t]. reflexivity.
    + intros g p t Hg Hpt. exact (Hall (p, t) g Hpt Hg).
  - destruct (balance_rule_emits (Model.TIMESTEPS m) group
                (fun t g => [N (Node.label g); I t])
                (fun t g i => flow_t i (Node.label g) t)
                (fun t g o => flow_t (Node.label g) o t))
      as (store & Hstore & Hall).
    { intros t g t' g' H. now injection H. }
    { exact Hnd. }
    exists store. split; [exact Hstore|].
    intros g t Hg Ht. exact (Hall t g Ht Hg).
Qed.

(** C8: for a group of buses with distinct labels, [_create] of the
    [Bus] block of blocks/bus.py returns the balance constraint of the
    block, and for every bus of the group and every (period, timestep)
    of the time index that constraint holds, under the key (bus, p, t),
    the equation that the sum of the inflows equals the sum of the
    outflows when the bus has an inflow or an outflow, and has no entry
    for that slice when it has neither.  [_create] of the [Bus] block of
    blocks.py does the same for every timestep, under the key
    (bus, t). *)
Theorem bus_balance_is_emitted (m : Model.t) (group : list Node.t) :
  NoDup (map Node.label group) ->
  (exists balance,
      bus.Bus._create m (Some group) = Ok (Some balance)
      /\ forall g p t, In g group -> In (p, t) (Model.TIMEINDEX m) ->
           balance_or_nothing balance [N (Node.label g); I p; I t]
             (fun i => flow_pt i (Node.label g) p t)
             (fun o => flow_pt (Node.label g) o p t) g)
  /\ (exists balance,
      blocks.Bus._create m (Some group) = Ok (Some balance)
      /\ forall g t, In g group -> In t (Model.TIMESTEPS m) ->
           balance_or_nothing balance [N (Node.label g); I t]
             (fun i => flow_t i (Node.label g) t)
             (fun o => flow_t (Node.label g) o t) g).
Proof.
  intros Hnd.
  destruct (busbalance_rules_emit m group Hnd)
    as [(st1 & H1 & Hall1) (st2 & H2 & Hall2)].
  split.
  - exists st1. cbn [bus.Bus._create]. rewrite H1. split; [reflexivity|].
    exact Hall1.
  - exists st2. cbn [blocks.Bus._create]. rewrite H2. split; [reflexivity|].
    exact Hall2.
Qed.

Example ex_bus_balance_run :
  bus.Bus._busbalance_rule ex_model_5y ex_buses
  = Ok (flat_map (fun z =>
          [([N "electricity"; I z; I z],
            Eq (Add (Num 0) (Var (flow_pt "source" "electricity" z z)))
               (Add (Num 0) (Var (flow_pt "electricity" "sink" z z))));
           ([N "heat"; I z; I z],
            Eq (Add (Add (Num 0) (Var (flow_pt "boiler" "heat" z z)))
                    (Var (flow_pt "pump" "heat" z z)))
               (Num 0))]) [0; 1; 2]).
Proof. reflexivity. Qed.

(** The theorem at the example buses. *)
Lemma bus_balance_is_emitted_witness :
  (exists balance,
      bus.Bus._create ex_model_5y (Some ex_buses) = Ok (Some balance)
      /\ forall g p t, In g ex_buses -> In (p, t) (Model.TIMEINDEX ex_model_5y) ->
           balance_or_nothing balance [N (Node.label g); I p; I t]
             (fun i => flow_pt i (Node.label g) p t)
             (fun o => flow_pt (Node.label g) o p t) g)
  /\ (exists balance,
      blocks.Bus._create ex_model_5y (Some ex_buses) = Ok (Some balance)
      /\ forall g t, In g ex_buses -> In t (Model.TIMESTEPS ex_model_5y) ->
           balance_or_nothing balance [N (Node.label g); I t]
             (fun i => flow_t i (Node.label g) t)
             (fun o => flow_t (Node.label g) o t) g).
Proof.
  apply (bus_balance_is_emitted ex_model_5y ex_buses).
  repeat constructor; simpl; intuition discriminate.
Defined.

(* ------------------------------------------------------------------ *)
(** * The conversion relation: a missing conversion factor *)

Lemma dict_get_missing {A} (d : list (node * A)) (k : node) :
  (forall a, ~ In (k, a) d) -> dict_get d k = Raise (KeyError [N k]).
Proof.
  induction d as [|[k' a] d IH]; intros H; simpl; [reflexivity|].
  destruct (String.eqb_spec k' k) as [->|Hne].
  - destruct (H a). now left.
  - apply IH. intros a' Hin. apply (H a'). now right.
Qed.

(** The lookups and products inside the [try] raise a [KeyError] or a
    [TypeError], never a [ValueError]: the handler is never entered. *)
Lemma relation_body_never_ValueError (n : Node.t) (o i : node) (t : Z)
    (lhs rhs : node -> var) (handler : result (expr * expr)) :
  let body :=
    f_o <- dict_get (Node.conversion_factors n) o ;;
    c_o <- number (item f_o t) ;;
    f_i <- dict_get (Node.conversion_factors n) i ;;
    c_i <- number (item f_i t) ;;
    Ok (Mul (Var (lhs i)) (Num c_o), Mul (Var (rhs o)) (Num c_i)) in
  try_except_ValueError body handler = body.
Proof.
  assert (Hget : forall k, (exists s, dict_get (Node.conversion_factors n) k = Ok s)
            \/ dict_get (Node.conversion_factors n) k = Raise (KeyError [N k])).
  { intros k. induction (Node.conversion_factors n) as [|[k' a] d IH]; simpl.
    - now right.
    - destruct (String.eqb k' k); [left; eauto|exact IH]. }
  cbv zeta.
  destruct (Hget o) as [[s ->]| ->]; [|reflexivity]. simpl.
  destruct (item s t); [|reflexivity]. simpl.
  destruct (Hget i) as [[s' ->]| ->]; [|reflexivity]. simpl.
  destruct (item s' t); reflexivity.
Qed.

(** A converter that has no conversion factor for an output [o]: the
    rule raises the [KeyError] of the dict lookup, which carries [o]
    alone, and not the error of the handler that names the converter. *)
Lemma missing_output_factor (n : Node.t) (o i : node) (t : Z) :
  (forall s, ~ In (o, s) (Node.conversion_factors n)) ->
  blocks.Transformer.relation_step n o i t = Raise (KeyError [N o]).
Proof.
  intros H. unfold blocks.Transformer.relation_step.
  rewrite (dict_get_missing _ _ H). reflexivity.
Qed.

(* ------------------------------------------------------------------ *)
(** * The additional limit on multi-period investment flows *)

Lemma getattr_missing (x : multiperiodinvestment_limit.pyvalue)
    (name : string) :
  multiperiodinvestment_limit.hasattr x name = false ->
  multiperiodinvestment_limit.getattr x name = Raise (AttributeError name).
Proof.
  unfold multiperiodinvestment_limit.hasattr,
    multiperiodinvestment_limit.getattr.
  destruct x as [| |attrs]; try reflexivity.
  destruct (multiperiodinvestment_limit.lookup attrs name);
    [discriminate|reflexivity].
Qed.

(** C10: for a MultiPeriodModel with at least one flow, none of whose
    flow objects has an attribute named mutliperiodinvestment, the
    function raises AttributeError for that name, whatever the keyword,
    and the model is as it was: no expression and no constraint has been
    attached. *)
Theorem misspelled_attribute_raises
    (md : multiperiodinvestment_limit.model) (keyword : string) (limit : Q) :
  multiperiodinvestment_limit.is_MultiPeriodModel md = true ->
  multiperiodinvestment_limit.flows md <> [] ->
  (forall k f, In (k, f) (multiperiodinvestment_limit.flows md) ->
     multiperiodinvestment_limit.hasattr f "mutliperiodinvestment" = false) ->
  multiperiodinvestment_limit.additional_multiperiodinvestment_flow_limit
    md keyword limit
  = (md, Raise (AttributeError "mutliperiodinvestment")).
Proof.
  intros Hmp Hne Hattr.
  unfold multiperiodinvestment_limit.additional_multiperiodinvestment_flow_limit,
    multiperiodinvestment_limit.collect.
  rewrite Hmp. cbn [negb].
  destruct (multiperiodinvestment_limit.flows md) as [|[[i o] f] rest];
    [easy|].
  cbn [fold_m].
  rewrite (getattr_missing f _ (Hattr (i, o) f (or_introl eq_refl))).
  reflexivity.
Qed.

(** The theorem at the example model, for the keyword "space". *)
Lemma misspelled_attribute_raises_witness :
  multiperiodinvestment_limit.additional_multiperiodinvestment_flow_limit
    ex_limit_model "space" 1500
  = (ex_limit_model, Raise (AttributeError "mutliperiodinvestment")).
Proof.
  apply (misspelled_attribute_raises ex_limit_model "space" 1500).
  - reflexivity.
  - discriminate.
  - intros k f [H|[H|[]]]; injection H as <- <-; reflexivity.
Defined.

(** A model that is not a MultiPeriodModel is refused first. *)
Example ex_limit_standard_model :
  snd (multiperiodinvestment_limit.additional_multiperiodinvestment_flow_limit
         {| multiperiodinvestment_limit.is_MultiPeriodModel := false;
            multiperiodinvestment_limit.flows := [];
            multiperiodinvestment_limit.invest_item :=
              fun i o => Raise (KeyError [N i; N o]);
            multiperiodinvestment_limit.attached := [] |} "space" 1500)
  = Raise multiperiodinvestment_limit.not_applicable.
Proof. reflexivity. Qed.

(* ------------------------------------------------------------------ *)
(** * The non-convex block *)

Lemma indexed_inv (dom : list Z) (mk : Z -> var) (i o : node) (z : Z)
    (e : expr) :
  indexed dom mk i o z = Ok e -> e = Var (mk z) /\ In z dom.
Proof.
  unfold indexed. destruct (existsb (Z.eqb z) dom) eqn:E; [|discriminate].
  intros H. injection H as <-. split; [reflexivity|].
  apply existsb_exists in E as (y & Hy & Heq).
  apply Z.eqb_eq in Heq. now subst.
Qed.

Lemma first_timestep (m : Model.t) (t : Z) :
  In t (Model.TIMESTEPS m) -> first_of (Model.TIMESTEPS m) = Ok 0.
Proof.
  intros H. apply in_TIMESTEPS in H. unfold Model.TIMESTEPS.
  rewrite (range_split 0 _ 0) by lia. reflexivity.
Qed.

Lemma last_timestep (m : Model.t) (t : Z) :
  In t (Model.TIMESTEPS m) -> last_of (Model.TIMESTEPS m) = Ok (horizon_end m).
Proof.
  intros H. apply in_TIMESTEPS in H. unfold Model.TIMESTEPS, horizon_end.
  rewrite (range_split 0 _ (Z.of_nat (Model.n_timesteps m) - 1)) by lia.
  unfold last_of. rewrite rev_app_distr.
  replace (Z.of_nat (Model.n_timesteps m) - 1 + 1)
    with (Z.of_nat (Model.n_timesteps m)) by lia.
  unfold range at 1. rewrite Z.sub_diag. reflexivity.
Qed.

Ltac bind_inv H :=
  match type of H with
  | bind ?c _ = Ok _ =>
      let E := fresh "E" in
      destruct c eqn:E; [cbn [bind] in H|discriminate H]
  end.

(** A loop that returned met no exception in any iteration. *)
Lemma for_each_all_ok {A B} (body : A -> result (list B)) (l : list A)
    (out : list B) (a : A) :
  for_each body l = Ok out -> In a l -> exists bs, body a = Ok bs.
Proof.
  revert out. induction l as [|x l IH]; intros out Hrun Hin; [easy|].
  cbn [for_each] in Hrun. bind_inv Hrun. bind_inv Hrun.
  destruct Hin as [->|Hin]; [eauto|]. eapply IH; [reflexivity|assumption].
Qed.

(** An indexed constraint built by a rule holds, for every index, what
    the rule returned there, and nothing else. *)
Lemma constraint_over_in (flows : group) (dom : list Z)
    (rule : node -> node -> Flow.t -> Z -> result relation)
    (store : constraints) (i o : node) (f : Flow.t) (t : Z) :
  constraint_over flows dom rule = Ok store ->
  In (i, o, f) flows -> In t dom ->
  exists c, rule i o f t = Ok c /\ In ([N i; N o; I t], c) store.
Proof.
  unfold constraint_over. intros Hrun Hin Ht.
  destruct (for_each_all_ok _ _ _ (i, o, f) Hrun Hin) as [inner Hinner].
  destruct (for_each_all_ok _ _ _ t Hinner Ht) as [out Hout].
  destruct (rule i o f t) as [c|] eqn:Ec; [|discriminate].
  cbn [bind] in Hout. injection Hout as <-.
  exists c. split; [reflexivity|].
  apply (for_each_in (a := (i, o, f)) Hrun Hin Hinner).
  apply (for_each_in (a := t) (bs := [([N i; N o; I t], c)]) Hinner Ht);
    [now rewrite Ec|now left].
Qed.

Lemma constraint_over_inv (flows : group) (dom : list Z)
    (rule : node -> node -> Flow.t -> Z -> result relation)
    (store : constraints) (k : key) (c : relation) :
  constraint_over flows dom rule = Ok store -> In (k, c) store ->
  exists i o f t, In (i, o, f) flows /\ In t dom
                  /\ rule i o f t = Ok c /\ k = [N i; N o; I t].
Proof.
  unfold constraint_over. intros Hrun Hin.
  destruct (for_each_inv Hrun Hin) as ([[i o] f] & inner & Hf & Hinner & Hc).
  destruct (for_each_inv Hinner Hc) as (t & out & Ht & Hout & Hc').
  destruct (rule i o f t) as [c'|] eqn:Ec; [|discriminate].
  simpl in Hout. injection Hout as <-. destruct Hc' as [Hc'|[]].
  injection Hc' as <- <-. exists i, o, f, t. auto.
Qed.

Lemma constraint_per_flow_inv (flows : group)
    (rule : node -> node -> Flow.t -> result relation)
    (store : constraints) (k : key) (c : relation) :
  constraint_per_flow flows rule = Ok store -> In (k, c) store ->
  exists i o f, In (i, o, f) flows /\ rule i o f = Ok c.
Proof.
  unfold constraint_per_flow. intros Hrun Hin.
  destruct (for_each_inv Hrun Hin) as ([[i o] f] & out & Hf & Hout & Hc).
  destruct (rule i o f) as [c'|] eqn:Ec; [|discriminate].
  simpl in Hout. injection Hout as <-. destruct Hc as [Hc|[]].
  injection Hc as <- <-. exists i, o, f. auto.
Qed.

(** What a created block consists of. *)
Lemma create_block_inv (m : Model.t) (g : group)
    (b : blocks.NonConvexFlow.block) :
  blocks.NonConvexFlow.create_block m g = Ok b ->
  let s := blocks.NonConvexFlow.the_sets b in
  let T := Model.TIMESTEPS m in
  blocks.NonConvexFlow._create_sets g = Ok s
  /\ blocks.NonConvexFlow.binaries b
     = blocks.NonConvexFlow.declare status
         (blocks.NonConvexFlow.NONCONVEX_FLOWS s) T
       ++ blocks.NonConvexFlow.declare startup
            (blocks.NonConvexFlow.STARTUPFLOWS s) T
       ++ blocks.NonConvexFlow.declare shutdown
            (blocks.NonConvexFlow.SHUTDOWNFLOWS s) T
  /\ constraint_over (blocks.NonConvexFlow.MIN_FLOWS s) T
       (blocks.NonConvexFlow._minimum_flow_rule m)
     = Ok (blocks.NonConvexFlow.min b)
  /\ constraint_over (blocks.NonConvexFlow.MIN_FLOWS s) T
       (blocks.NonConvexFlow._maximum_flow_rule m)
     = Ok (blocks.NonConvexFlow.max b)
  /\ constraint_over (blocks.NonConvexFlow.STARTUPFLOWS s) T
       (blocks.NonConvexFlow._startup_rule m)
     = Ok (blocks.NonConvexFlow.startup_constr b)
  /\ constraint_per_flow (blocks.NonConvexFlow.MAXSTARTUPFLOWS s)
       (blocks.NonConvexFlow._max_startup_rule m)
     = Ok (blocks.NonConvexFlow.max_startup_constr b)
  /\ constraint_over (blocks.NonConvexFlow.SHUTDOWNFLOWS s) T
       (blocks.NonConvexFlow._shutdown_rule m)
     = Ok (blocks.NonConvexFlow.shutdown_constr b)
  /\ constraint_per_flow (blocks.NonConvexFlow.MAXSHUTDOWNFLOWS s)
       (blocks.NonConvexFlow._max_shutdown_rule m)
     = Ok (blocks.NonConvexFlow.max_shutdown_constr b)
  /\ constraint_over (blocks.NonConvexFlow.MINUPTIMEFLOWS s) T
       (blocks.NonConvexFlow._min_uptime_rule m)
     = Ok (blocks.NonConvexFlow.min_uptime_constr b)
  /\ constraint_over (blocks.NonConvexFlow.MINDOWNTIMEFLOWS s) T
       (blocks.NonConvexFlow._min_downtime_rule m)
     = Ok (blocks.NonConvexFlow.min_downtime_constr b).
Proof.
  unfold blocks.NonConvexFlow.create_block. intros H.
  repeat bind_inv H. injection H as <-. cbn.
  repeat split; assumption || reflexivity.
Qed.

Lemma select_inv (test : Flow.t -> result bool) (g r : group) :
  select test g = Ok r ->
  forall i o f, In (i, o, f) r <-> In (i, o, f) g /\ test f = Ok true.
Proof.
  unfold select. revert r.
  induction g as [|[[i0 o0] f0] g IH]; intros r H i o f.
  - injection H as <-. split; [easy|now intros []].
  - cbn [for_each] in H. bind_inv H. bind_inv H. injection H as <-.
    bind_inv E. injection E as <-.
    rewrite in_app_iff, (IH _ eq_refl). split.
    + intros [Hin|[Hin Ht]]; [|split; [now right|assumption]].
      destruct a1; [|easy]. destruct Hin as [Hin|[]].
      injection Hin as <- <- <-. split; [now left|assumption].
    + intros [[Hin|Hin] Ht]; [|auto].
      injection Hin as <- <- <-. left. rewrite Ht in E1.
      injection E1 as <-. now left.
Qed.

(** The sets of a created block are sets of flows of the group; a flow
    in MIN_FLOWS has its [min] set in the first timestep. *)
Lemma nonconvex_sets_inv (g : group) (s : blocks.NonConvexFlow.sets) :
  blocks.NonConvexFlow._create_sets g = Ok s ->
  blocks.NonConvexFlow.NONCONVEX_FLOWS s = g
  /\ (forall i o f, In (i, o, f) (blocks.NonConvexFlow.MIN_FLOWS s) ->
        In (i, o, f) g /\ item (Flow.min f) 0 <> None)
  /\ (forall i o f, In (i, o, f) (blocks.NonConvexFlow.STARTUPFLOWS s) ->
        In (i, o, f) g)
  /\ (forall i o f, In (i, o, f) (blocks.NonConvexFlow.SHUTDOWNFLOWS s) ->
        In (i, o, f) g).
Proof.
  unfold blocks.NonConvexFlow._create_sets. intros H.
  repeat bind_inv H. injection H as <-. cbn.
  split; [reflexivity|]. split; [|split].
  - intros i o f H. apply (select_inv _ _ _ E) in H as [Hin H].
    split; [exact Hin|]. injection H as H.
    now destruct (item (Flow.min f) 0).
  - intros i o f H. now apply (select_inv _ _ _ E0) in H.
  - intros i o f H. now apply (select_inv _ _ _ E2) in H.
Qed.

Lemma declared_status (g : group) (dom : list Z) (mk : node -> node -> Z -> var)
    (i o : node) (f : Flow.t) (t : Z) :
  In (i, o, f) g -> In t dom ->
  In (mk i o t) (blocks.NonConvexFlow.declare mk g dom).
Proof.
  intros Hin Ht. unfold blocks.NonConvexFlow.declare.
  apply in_flat_map. exists (i, o, f). split; [exact Hin|].
  now apply in_map.
Qed.

(** What the startup and the shutdown rule return at a timestep. *)
Lemma startup_rule_value (m : Model.t) (i o : node) (f : Flow.t)
    (nc : NonConvex.t) (t : Z) (c : relation) :
  Flow.nonconvex f = Some nc -> In t (Model.TIMESTEPS m) ->
  blocks.NonConvexFlow._startup_rule m i o f t = Ok c ->
  forall rho,
    holds rho c ->
    (rho (status i o t) - previous_status rho nc i o t
     <= rho (startup i o t))%Q.
Proof.
  intros Hnc Ht. unfold blocks.NonConvexFlow._startup_rule,
    blocks.NonConvexFlow.v_startup, blocks.NonConvexFlow.v_status,
    blocks.NonConvexFlow.nonconvex, previous_status.
  rewrite (first_timestep m t Ht), !(indexed_in _ _ _ _ _ Ht), Hnc.
  cbn [bind attr_of]. pose proof (proj1 (in_TIMESTEPS m t) Ht) as Hr.
  destruct (Z.ltb_spec 0 t) as [Hlt|Hle].
  - destruct (Z.eqb_spec t 0); [lia|].
    rewrite indexed_in by (apply in_TIMESTEPS; lia). cbn [bind].
    intros H. injection H as <-. intros rho Hc. exact Hc.
  - destruct (Z.eqb_spec t 0); [|lia].
    intros H. injection H as <-. intros rho Hc. exact Hc.
Qed.

Lemma shutdown_rule_value (m : Model.t) (i o : node) (f : Flow.t)
    (nc : NonConvex.t) (t : Z) (c : relation) :
  Flow.nonconvex f = Some nc -> In t (Model.TIMESTEPS m) ->
  blocks.NonConvexFlow._shutdown_rule m i o f t = Ok c ->
  forall rho,
    holds rho c ->
    (previous_status rho nc i o t - rho (status i o t)
     <= rho (shutdown i o t))%Q.
Proof.
  intros Hnc Ht. unfold blocks.NonConvexFlow._shutdown_rule,
    blocks.NonConvexFlow.v_shutdown, blocks.NonConvexFlow.v_status,
    blocks.NonConvexFlow.nonconvex, previous_status.
  rewrite (first_timestep m t Ht), !(indexed_in _ _ _ _ _ Ht), Hnc.
  cbn [bind attr_of]. pose proof (proj1 (in_TIMESTEPS m t) Ht) as Hr.
  destruct (Z.ltb_spec 0 t) as [Hlt|Hle].
  - destruct (Z.eqb_spec t 0); [lia|].
    rewrite indexed_in by (apply in_TIMESTEPS; lia). cbn [bind].
    intros H. injection H as <-. intros rho Hc. exact Hc.
  - destruct (Z.eqb_spec t 0); [|lia].
    intros H. injection H as <-. intros rho Hc. exact Hc.
Qed.

(** C7, amended: for a non-convex flow with startup and shutdown
    variables, every assignment the block admits has status(t) in {0, 1}
    and satisfies startup(t) >= status(t) - status(t-1) and
    shutdown(t) >= status(t-1) - status(t) for every timestep, with
    status(-1) taken as initial_status. *)
Theorem startup_and_shutdown_bound_the_status_change (m : Model.t)
    (g : group) (b : blocks.NonConvexFlow.block) (i o : node) (f : Flow.t)
    (nc : NonConvex.t) (rho : assignment) (t : Z) :
  blocks.NonConvexFlow.create_block m g = Ok b ->
  In (i, o, f) (blocks.NonConvexFlow.STARTUPFLOWS
                  (blocks.NonConvexFlow.the_sets b)) ->
  In (i, o, f) (blocks.NonConvexFlow.SHUTDOWNFLOWS
                  (blocks.NonConvexFlow.the_sets b)) ->
  Flow.nonconvex f = Some nc ->
  blocks.NonConvexFlow.feasible b rho ->
  In t (Model.TIMESTEPS m) ->
  binary (rho (status i o t)) /\ startup_shutdown_bounds rho nc i o t.
Proof.
  intros Hb Hsu Hsd Hnc [Hbin Hcons] Ht.
  destruct (create_block_inv m g b Hb)
    as (Hs & Hvars & _ & _ & Hcsu & _ & Hcsd & _).
  destruct (nonconvex_sets_inv g _ Hs) as (Hall & _ & Hsub & _).
  split; [|split].
  - apply Hbin. rewrite Hvars, Hall. apply in_or_app. left.
    apply declared_status with (f := f); [now apply Hsub|exact Ht].
  - destruct (constraint_over_in _ _ _ _ i o f t Hcsu Hsu Ht)
      as (c & Hc & Hin).
    apply (startup_rule_value m i o f nc t c Hnc Ht Hc).
    apply (Hcons [N i; N o; I t]).
    unfold blocks.NonConvexFlow.all_constraints.
    rewrite !in_app_iff. auto.
  - destruct (constraint_over_in _ _ _ _ i o f t Hcsd Hsd Ht)
      as (c & Hc & Hin).
    apply (shutdown_rule_value m i o f nc t c Hnc Ht Hc).
    apply (Hcons [N i; N o; I t]).
    unfold blocks.NonConvexFlow.all_constraints.
    rewrite !in_app_iff. auto 10.
Qed.

Lemma holdsb_sound (rho : assignment) (c : relation) :
  holdsb rho c = true -> holds rho c.
Proof.
  destruct c; simpl; intros H.
  - now apply Qeq_bool_iff.
  - now apply Qle_bool_iff.
  - now apply Qle_bool_iff.
Qed.

Lemma feasibleb_sound (b : blocks.NonConvexFlow.block) (rho : assignment) :
  feasibleb b rho = true -> blocks.NonConvexFlow.feasible b rho.
Proof.
  unfold feasibleb. rewrite andb_true_iff, !forallb_forall.
  intros [Hbin Hcons]. split.
  - intros x Hx. specialize (Hbin x Hx).
    apply orb_true_iff in Hbin as [H|H]; apply Qeq_bool_iff in H; auto.
  - intros k c Hin. apply holdsb_sound. exact (Hcons (k, c) Hin).
Qed.

Example ex_startup_constraints :
  exists b,
    ex_nonconvex_block = Ok b
    /\ In ([N "plant"; N "bus"; I 0],
           Ge (Var (startup "plant" "bus" 0))
              (Sub (Var (status "plant" "bus" 0)) (Num 0)))
          (blocks.NonConvexFlow.startup_constr b)
    /\ In ([N "plant"; N "bus"; I 3],
           Ge (Var (startup "plant" "bus" 3))
              (Sub (Var (status "plant" "bus" 3))
                   (Var (status "plant" "bus" 2))))
          (blocks.NonConvexFlow.startup_constr b).
Proof.
  eexists. split; [vm_compute; reflexivity|]. split; simpl; tauto.
Qed.

(** C7 as worded fails on the code.  The block of the example flows
    admits the assignment in which the status stays 0, every startup is
    1 and every shutdown is 0, and there
    startup(3) - shutdown(3) = 1 while status(3) - status(2) = 0. *)
Lemma startup_shutdown_equation_fails :
  exists b,
    ex_nonconvex_block = Ok b
    /\ In ("plant", "bus", ex_nonconvex_flow (Some (3 # 10)%Q))
          (blocks.NonConvexFlow.STARTUPFLOWS (blocks.NonConvexFlow.the_sets b))
    /\ In ("plant", "bus", ex_nonconvex_flow (Some (3 # 10)%Q))
          (blocks.NonConvexFlow.SHUTDOWNFLOWS (blocks.NonConvexFlow.the_sets b))
    /\ blocks.NonConvexFlow.feasible b ex_idle_startups
    /\ ~ startup_shutdown_equation ex_idle_startups ex_nonconvex
           "plant" "bus" 3.
Proof.
  eexists. split; [vm_compute; reflexivity|].
  split; [now left|]. split; [now left|]. split.
  - apply feasibleb_sound. vm_compute. reflexivity.
  - unfold startup_shutdown_equation. apply Qeq_bool_neq.
    vm_compute. reflexivity.
Qed.

(** The theorem at the example block, for the assignment above and
    timestep 3. *)
Lemma startup_and_shutdown_bound_the_status_change_witness :
  binary (ex_idle_startups (status "plant" "bus" 3))
  /\ startup_shutdown_bounds ex_idle_startups ex_nonconvex "plant" "bus" 3.
Proof.
  destruct ex_nonconvex_block as [b|e] eqn:E;
    [|vm_compute in E; discriminate E].
  apply (startup_and_shutdown_bound_the_status_change ex_model_8
           ex_nonconvex_group b "plant" "bus"
           (ex_nonconvex_flow (Some (3 # 10)%Q)) ex_nonconvex
           ex_idle_startups 3 E).
  - vm_compute in E. injection E as <-. now left.
  - vm_compute in E. injection E as <-. now left.
  - reflexivity.
  - vm_compute in E. injection E as <-.
    apply feasibleb_sound. vm_compute. reflexivity.
  - apply in_TIMESTEPS. simpl. lia.
Defined.

(* ------------------------------------------------------------------ *)
(** * A flow whose [min] is unset *)

Lemma eval_update (rho : assignment) (x : var) (v : Q) (e : expr) :
  ~ In x (vars e) -> eval (update rho x v) e = eval rho e.
Proof.
  induction e; simpl; intros H; try rewrite in_app_iff in H;
    try (rewrite IHe1, IHe2 by tauto; reflexivity); try reflexivity.
  - unfold update. destruct (var_eq_dec x0 x) as [->|]; [|reflexivity].
    destruct H. now left.
  - now rewrite IHe.
Qed.

Lemma holds_update (rho : assignment) (x : var) (v : Q) (c : relation) :
  ~ In x (vars_of c) -> holds rho c -> holds (update rho x v) c.
Proof.
  destruct c; simpl; rewrite in_app_iff; intros H Hc;
    rewrite !eval_update by tauto; exact Hc.
Qed.

Lemma switch_only_vars (e : expr) (x : var) :
  switch_only e -> In x (vars e) -> is_switch x.
Proof.
  induction e; simpl; try rewrite in_app_iff; try tauto.
  intros H [->|[]]. exact H.
Qed.

Lemma switch_only_rel_vars (c : relation) (x : var) :
  switch_only_rel c -> In x (vars_of c) -> is_switch x.
Proof.
  destruct c; simpl; rewrite in_app_iff; intros [Hl Hr] [H|H];
    eauto using switch_only_vars.
Qed.

Lemma switch_only_fold (es : list expr) (acc : expr) :
  switch_only acc -> Forall switch_only es ->
  switch_only (fold_left Add es acc).
Proof.
  revert acc. induction es as [|e es IH]; intros acc Hacc Hes; [exact Hacc|].
  simpl. apply Forall_cons_iff in Hes as [He Hes]. apply IH; simpl; auto.
Qed.

Lemma switch_only_py_sum (es : list expr) :
  Forall switch_only es -> switch_only (py_sum es).
Proof. intros H. now apply switch_only_fold. Qed.

Lemma switch_only_indexed (dom : list Z) (mk : Z -> var) (i o : node) (z : Z)
    (e : expr) :
  (forall z', is_switch (mk z')) ->
  indexed dom mk i o z = Ok e -> switch_only e.
Proof.
  intros Hmk H. apply indexed_inv in H as [-> _]. apply Hmk.
Qed.

(** A list of variables that a loop collected by indexing. *)
Lemma switch_only_collected {A} (dom : list Z) (mk : Z -> var) (i o : node)
    (at_ : A -> Z) (l : list A) (xs : list expr) :
  (forall z', is_switch (mk z')) ->
  for_each (fun a => x <- indexed dom mk i o (at_ a) ;; Ok [x]) l = Ok xs ->
  Forall switch_only xs.
Proof.
  intros Hmk. revert xs. induction l as [|a l IH]; intros xs H.
  - injection H as <-. constructor.
  - cbn [for_each] in H. bind_inv H. bind_inv H. injection H as <-.
    bind_inv E. injection E as <-. simpl. constructor.
    + now apply (switch_only_indexed _ _ _ _ _ _ Hmk E1).
    + now apply IH.
Qed.

Lemma rule_value_le (lhs rhs : expr) (c : relation) :
  rule_value (py_le lhs rhs) = Ok c -> c = Le lhs rhs.
Proof.
  unfold py_le. destruct lhs, rhs; simpl; intros H;
    try discriminate; now injection H.
Qed.

Ltac switch_var :=
  match goal with
  | E : indexed _ _ _ _ _ = Ok ?e |- switch_only ?e =>
      eapply switch_only_indexed; [|exact E]; intros; exact Logic.I
  end.

(** The startup, shutdown and minimum up and down time constraints
    speak of status, startup and shutdown variables only. *)
Lemma startup_rule_switch_only (m : Model.t) (i o : node) (f : Flow.t)
    (t : Z) (c : relation) :
  blocks.NonConvexFlow._startup_rule m i o f t = Ok c -> switch_only_rel c.
Proof.
  unfold blocks.NonConvexFlow._startup_rule, blocks.NonConvexFlow.v_startup,
    blocks.NonConvexFlow.v_status.
  intros H. bind_inv H. destruct (a <? t); repeat bind_inv H;
    injection H as <-; simpl; repeat split; switch_var.
Qed.

Lemma shutdown_rule_switch_only (m : Model.t) (i o : node) (f : Flow.t)
    (t : Z) (c : relation) :
  blocks.NonConvexFlow._shutdown_rule m i o f t = Ok c -> switch_only_rel c.
Proof.
  unfold blocks.NonConvexFlow._shutdown_rule, blocks.NonConvexFlow.v_shutdown,
    blocks.NonConvexFlow.v_status.
  intros H. bind_inv H. destruct (a <? t); repeat bind_inv H;
    injection H as <-; simpl; repeat split; switch_var.
Qed.

Lemma max_startup_rule_switch_only (m : Model.t) (i o : node) (f : Flow.t)
    (c : relation) :
  blocks.NonConvexFlow._max_startup_rule m i o f = Ok c -> switch_only_rel c.
Proof.
  unfold blocks.NonConvexFlow._max_startup_rule,
    blocks.NonConvexFlow.v_startup.
  intros H. repeat bind_inv H. apply rule_value_le in H as ->.
  simpl. split; [|exact Logic.I]. apply switch_only_py_sum.
  eapply (switch_only_collected _ _ _ _ (fun t => t)); [|exact E].
  intros; exact Logic.I.
Qed.

Lemma max_shutdown_rule_switch_only (m : Model.t) (i o : node) (f : Flow.t)
    (c : relation) :
  blocks.NonConvexFlow._max_shutdown_rule m i o f = Ok c -> switch_only_rel c.
Proof.
  unfold blocks.NonConvexFlow._max_shutdown_rule,
    blocks.NonConvexFlow.v_shutdown.
  intros H. repeat bind_inv H. apply rule_value_le in H as ->.
  simpl. split; [|exact Logic.I]. apply switch_only_py_sum.
  eapply (switch_only_collected _ _ _ _ (fun t => t)); [|exact E].
  intros; exact Logic.I.
Qed.

Lemma status_window_switch_only (m : Model.t) (i o : node) (t n : Z)
    (e : expr) :
  blocks.NonConvexFlow.status_window m i o t n = Ok e -> switch_only e.
Proof.
  unfold blocks.NonConvexFlow.status_window, blocks.NonConvexFlow.v_status.
  intros H. bind_inv H. injection H as <-. apply switch_only_py_sum.
  eapply (switch_only_collected _ _ _ _ (fun u => t + u)); [|exact E].
  intros; exact Logic.I.
Qed.

Lemma min_uptime_rule_switch_only (m : Model.t) (i o : node) (f : Flow.t)
    (t : Z) (c : relation) :
  blocks.NonConvexFlow._min_uptime_rule m i o f t = Ok c -> switch_only_rel c.
Proof.
  unfold blocks.NonConvexFlow._min_uptime_rule, blocks.NonConvexFlow.v_status.
  intros H. bind_inv H. bind_inv H. destruct a0; repeat bind_inv H;
    injection H as <-; simpl; repeat split;
    try switch_var; eauto using status_window_switch_only.
Qed.

Lemma min_downtime_rule_switch_only (m : Model.t) (i o : node) (f : Flow.t)
    (t : Z) (c : relation) :
  blocks.NonConvexFlow._min_downtime_rule m i o f t = Ok c ->
  switch_only_rel c.
Proof.
  unfold blocks.NonConvexFlow._min_downtime_rule,
    blocks.NonConvexFlow.v_status.
  intros H. bind_inv H. bind_inv H. destruct a0; repeat bind_inv H;
    injection H as <-; simpl; repeat split;
    try switch_var; eauto using status_window_switch_only.
Qed.

(** The minimum and the maximum flow constraint of a flow speak of its
    status and of its flow value. *)
Lemma flow_rule_vars (m : Model.t) (i o : node) (f : Flow.t) (t : Z)
    (c : relation) (x : var) :
  blocks.NonConvexFlow._minimum_flow_rule m i o f t = Ok c
  \/ blocks.NonConvexFlow._maximum_flow_rule m i o f t = Ok c ->
  In x (vars_of c) -> x = status i o t \/ x = flow_t i o t.
Proof.
  unfold blocks.NonConvexFlow._minimum_flow_rule,
    blocks.NonConvexFlow._maximum_flow_rule, blocks.NonConvexFlow.v_status.
  intros [H|H]; repeat bind_inv H; injection H as <-;
    apply indexed_inv in E as [-> _]; simpl; intuition.
Qed.

Lemma key_unique (g : group) (i o : node) (f f' : Flow.t) :
  NoDup (map fst g) -> In (i, o, f) g -> In (i, o, f') g -> f = f'.
Proof.
  induction g as [|[k f0] g IH]; intros Hnd Hf Hf'; [easy|].
  simpl in Hnd. apply NoDup_cons_iff in Hnd as [Hk Hnd].
  destruct Hf as [Hf|Hf], Hf' as [Hf'|Hf'].
  - congruence.
  - injection Hf as -> ->. destruct Hk.
    now apply (in_map fst) in Hf'.
  - injection Hf' as -> ->. destruct Hk.
    now apply (in_map fst) in Hf.
  - now apply IH.
Qed.

Lemma declared_is_switch (mk : node -> node -> Z -> var) (g : group)
    (dom : list Z) (x : var) :
  (forall i o t, is_switch (mk i o t)) ->
  In x (blocks.NonConvexFlow.declare mk g dom) -> is_switch x.
Proof.
  intros Hmk H. unfold blocks.NonConvexFlow.declare in H.
  apply in_flat_map in H as ([[i o] f] & _ & H).
  apply in_map_iff in H as (t & <- & _). apply Hmk.
Qed.

(** C9: in a created block, for a flow of the group (one flow per pair
    of nodes) whose [min] is unset in the first timestep, the status
    variable is declared for every timestep, the flow is outside
    MIN_FLOWS, neither the minimum nor the maximum flow constraint has
    an entry for it, and the status does not gate the flow value:
    whatever value the flow takes, an assignment the block admits stays
    admitted. *)
Theorem unset_min_leaves_flow_ungated (m : Model.t) (g : group)
    (b : blocks.NonConvexFlow.block) (i o : node) (f : Flow.t) :
  blocks.NonConvexFlow.create_block m g = Ok b ->
  NoDup (map fst g) ->
  In (i, o, f) g ->
  item (Flow.min f) 0 = None ->
  (forall t, In t (Model.TIMESTEPS m) ->
             In (status i o t) (blocks.NonConvexFlow.binaries b))
  /\ ~ In (i, o, f) (blocks.NonConvexFlow.MIN_FLOWS
                       (blocks.NonConvexFlow.the_sets b))
  /\ (forall t, omits (blocks.NonConvexFlow.min b) [N i; N o; I t]
                /\ omits (blocks.NonConvexFlow.max b) [N i; N o; I t])
  /\ (forall rho t v,
         blocks.NonConvexFlow.feasible b rho ->
         blocks.NonConvexFlow.feasible b (update rho (flow_t i o t) v)).
Proof.
  intros Hb Hnd Hin Hmin.
  destruct (create_block_inv m g b Hb)
    as (Hs & Hvars & Hcmin & Hcmax & Hcsu & Hcmsu & Hcsd & Hcmsd & Hcup & Hcdn).
  destruct (nonconvex_sets_inv g _ Hs) as (Hall & Hmins & _).
  assert (Hout : forall f', ~ In (i, o, f')
            (blocks.NonConvexFlow.MIN_FLOWS (blocks.NonConvexFlow.the_sets b))).
  { intros f' H. apply Hmins in H as [Hg Hset].
    rewrite (key_unique g i o f' f Hnd Hg Hin) in Hset. now apply Hset. }
  split; [|split; [apply Hout|split]].
  - intros t Ht. rewrite Hvars, Hall. apply in_or_app. left.
    now apply declared_status with (f := f).
  - intros t. split; intros c Hc.
    + apply (constraint_over_inv _ _ _ _ _ _ Hcmin) in Hc
        as (i' & o' & f' & t' & Hf' & _ & _ & Hk).
      injection Hk as <- <- <-. now apply (Hout f').
    + apply (constraint_over_inv _ _ _ _ _ _ Hcmax) in Hc
        as (i' & o' & f' & t' & Hf' & _ & _ & Hk).
      injection Hk as <- <- <-. now apply (Hout f').
  - intros rho t v [Hbin Hcons]. split.
    + intros x Hx. unfold update.
      destruct (var_eq_dec x (flow_t i o t)) as [->|_]; [exfalso|now apply Hbin].
      rewrite Hvars, !in_app_iff in Hx.
      destruct Hx as [Hx|[Hx|Hx]];
        now apply declared_is_switch in Hx.
    + intros k c Hc. apply holds_update; [|now apply (Hcons k)].
      intros Hx. unfold blocks.NonConvexFlow.all_constraints in Hc.
      rewrite !in_app_iff in Hc.
      destruct Hc as [Hc|[Hc|[Hc|[Hc|[Hc|[Hc|[Hc|Hc]]]]]]].
      * apply (constraint_over_inv _ _ _ _ _ _ Hcmin) in Hc
          as (i' & o' & f' & t' & Hf' & _ & Hrule & _).
        destruct (flow_rule_vars m i' o' f' t' c _ (or_introl Hrule) Hx)
          as [E|E]; [discriminate|].
        injection E as <- <- <-. now apply (Hout f').
      * apply (constraint_over_inv _ _ _ _ _ _ Hcmax) in Hc
          as (i' & o' & f' & t' & Hf' & _ & Hrule & _).
        destruct (flow_rule_vars m i' o' f' t' c _ (or_intror Hrule) Hx)
          as [E|E]; [discriminate|].
        injection E as <- <- <-. now apply (Hout f').
      * apply (constraint_over_inv _ _ _ _ _ _ Hcsu) in Hc
          as (i' & o' & f' & t' & _ & _ & Hrule & _).
        apply startup_rule_switch_only in Hrule.
        exact (switch_only_rel_vars _ _ Hrule Hx).
      * apply (constraint_per_flow_inv _ _ _ _ _ Hcmsu) in Hc
          as (i' & o' & f' & _ & Hrule).
        apply max_startup_rule_switch_only in Hrule.
        exact (switch_only_rel_vars _ _ Hrule Hx).
      * apply (constraint_over_inv _ _ _ _ _ _ Hcsd) in Hc
          as (i' & o' & f' & t' & _ & _ & Hrule & _).
        apply shutdown_rule_switch_only in Hrule.
        exact (switch_only_rel_vars _ _ Hrule Hx).
      * apply (constraint_per_flow_inv _ _ _ _ _ Hcmsd) in Hc
          as (i' & o' & f' & _ & Hrule).
        apply max_shutdown_rule_switch_only in Hrule.
        exact (switch_only_rel_vars _ _ Hrule Hx).
      * apply (constraint_over_inv _ _ _ _ _ _ Hcup) in Hc
          as (i' & o' & f' & t' & _ & _ & Hrule & _).
        apply min_uptime_rule_switch_only in Hrule.
        exact (switch_only_rel_vars _ _ Hrule Hx).
      * apply (constraint_over_inv _ _ _ _ _ _ Hcdn) in Hc
          as (i' & o' & f' & t' & _ & _ & Hrule & _).
        apply min_downtime_rule_switch_only in Hrule.
        exact (switch_only_rel_vars _ _ Hrule Hx).
Qed.

(** The theorem at the example block, for the flow from "engine" whose
    [min] is unset. *)
Lemma unset_min_leaves_flow_ungated_witness :
  exists b,
    ex_nonconvex_block = Ok b
    /\ (forall t, In t (Model.TIMESTEPS ex_model_8) ->
                  In (status "engine" "bus" t)
                     (blocks.NonConvexFlow.binaries b))
    /\ ~ In ("engine", "bus", ex_nonconvex_flow None)
            (blocks.NonConvexFlow.MIN_FLOWS (blocks.NonConvexFlow.the_sets b))
    /\ (forall t,
           omits (blocks.NonConvexFlow.min b) [N "engine"; N "bus"; I t]
           /\ omits (blocks.NonConvexFlow.max b) [N "engine"; N "bus"; I t])
    /\ (forall rho t v,
           blocks.NonConvexFlow.feasible b rho ->
           blocks.NonConvexFlow.feasible b
             (update rho (flow_t "engine" "bus" t) v)).
Proof.
  destruct ex_nonconvex_block as [b|e] eqn:E;
    [|vm_compute in E; discriminate E].
  exists b. split; [reflexivity|].
  apply (unset_min_leaves_flow_ungated ex_model_8 ex_nonconvex_group b
           "engine" "bus" (ex_nonconvex_flow None) E).
  - repeat constructor; simpl; intuition discriminate.
  - right. now left.
  - reflexivity.
Defined.

(** With the status of "engine" at 0 in every timestep, the block admits
    a flow of 1000 from it. *)
Example ex_engine_flows_while_off :
  exists b,
    ex_nonconvex_block = Ok b
    /\ blocks.NonConvexFlow.feasible b
         (update ex_idle_startups (flow_t "engine" "bus" 4) 1000).
Proof.
  eexists. split; [vm_compute; reflexivity|].
  apply feasibleb_sound. vm_compute. reflexivity.
Qed.

(* ------------------------------------------------------------------ *)
(** * Minimum up and down time *)

Lemma inject_Z_succ (n : nat) :
  (inject_Z (Z.of_nat (S n)) == inject_Z (Z.of_nat n) + 1)%Q.
Proof. rewrite Nat2Z.inj_succ. unfold Z.succ. now rewrite inject_Z_plus. Qed.

Lemma binary_sum_bound (xs : list Q) :
  (forall x, In x xs -> binary x) ->
  (0 <= Qsum xs /\ Qsum xs <= inject_Z (Z.of_nat (List.length xs)))%Q.
Proof.
  induction xs as [|x xs IH]; intros H.
  - simpl. split; apply Qle_refl.
  - destruct IH as [IH0 IH1]; [intros; apply H; now right|].
    cbn [Qsum fold_right List.length]. rewrite inject_Z_succ.
    fold (Qsum xs). destruct (H x (or_introl eq_refl)) as [E|E];
      rewrite E; split; lra.
Qed.

(** Binary values whose sum reaches their number are all 1. *)
Lemma binary_sum_full (xs : list Q) :
  (forall x, In x xs -> binary x) ->
  (inject_Z (Z.of_nat (List.length xs)) <= Qsum xs)%Q ->
  forall x, In x xs -> (x == 1)%Q.
Proof.
  induction xs as [|y xs IH]; intros H Hsum x Hx; [easy|].
  cbn [Qsum fold_right List.length] in Hsum. rewrite inject_Z_succ in Hsum.
  fold (Qsum xs) in Hsum.
  destruct (binary_sum_bound xs) as [_ Hub]; [intros; apply H; now right|].
  destruct (H y (or_introl eq_refl)) as [E|E]; rewrite E in Hsum.
  - exfalso. lra.
  - destruct Hx as [<-|Hx]; [exact E|].
    apply IH; [intros; apply H; now right|lra|exact Hx].
Qed.

(** Binary values whose sum is at most 0 are all 0. *)
Lemma binary_sum_empty (xs : list Q) :
  (forall x, In x xs -> binary x) ->
  (Qsum xs <= 0)%Q ->
  forall x, In x xs -> (x == 0)%Q.
Proof.
  induction xs as [|y xs IH]; intros H Hsum x Hx; [easy|].
  cbn [Qsum fold_right] in Hsum. fold (Qsum xs) in Hsum.
  destruct (binary_sum_bound xs) as [Hlb _]; [intros; apply H; now right|].
  destruct (H y (or_introl eq_refl)) as [E|E]; rewrite E in Hsum.
  - destruct Hx as [<-|Hx]; [exact E|].
    apply IH; [intros; apply H; now right|lra|exact Hx].
  - exfalso. lra.
Qed.

(** Values that are all 1 sum to their number, and values that are all
    0 sum to 0. *)
Lemma ones_sum (xs : list Q) :
  (forall x, In x xs -> (x == 1)%Q) ->
  (Qsum xs == inject_Z (Z.of_nat (List.length xs)))%Q.
Proof.
  induction xs as [|y xs IH]; intros H; [reflexivity|].
  cbn [Qsum fold_right List.length]. rewrite inject_Z_succ.
  fold (Qsum xs). rewrite (H y (or_introl eq_refl)), IH; [ring|].
  intros; apply H; now right.
Qed.

Lemma zeros_sum (xs : list Q) :
  (forall x, In x xs -> (x == 0)%Q) -> (Qsum xs == 0)%Q.
Proof.
  induction xs as [|y xs IH]; intros H; [reflexivity|].
  cbn [Qsum fold_right]. fold (Qsum xs).
  rewrite (H y (or_introl eq_refl)), IH; [ring|].
  intros; apply H; now right.
Qed.

Lemma collected_ok {A} (dom : list Z) (mk : Z -> var) (i o : node)
    (at_ : A -> Z) (l : list A) :
  (forall a, In a l -> In (at_ a) dom) ->
  for_each (fun a => x <- indexed dom mk i o (at_ a) ;; Ok [x]) l
  = Ok (map (fun a => Var (mk (at_ a))) l).
Proof.
  induction l as [|a l IH]; intros H; [reflexivity|].
  cbn [for_each]. rewrite (indexed_in _ _ _ _ _ (H a (or_introl eq_refl))).
  cbn [bind]. rewrite IH by (intros; apply H; now right). reflexivity.
Qed.

(** The window sum is built when its timesteps exist, and is the sum of
    the status over the window. *)
Lemma status_window_value (m : Model.t) (i o : node) (t n : Z) :
  (forall u, 0 <= u < n -> In (t + u) (Model.TIMESTEPS m)) ->
  exists e,
    blocks.NonConvexFlow.status_window m i o t n = Ok e
    /\ forall rho,
        (eval rho e
         == Qsum (map (fun u => rho (status i o (t + u))) (range 0 n)))%Q.
Proof.
  intros H. unfold blocks.NonConvexFlow.status_window,
    blocks.NonConvexFlow.v_status.
  rewrite (collected_ok _ _ _ _ (fun u => t + u)).
  - cbn [bind]. eexists. split; [reflexivity|]. intros rho.
    rewrite eval_py_sum, map_map. reflexivity.
  - intros u Hu. apply H. now apply in_range in Hu.
Qed.

Lemma inside_window_value (m : Model.t) (nc : NonConvex.t) (t : Z) :
  In t (Model.TIMESTEPS m) ->
  blocks.NonConvexFlow.inside_window m nc t
  = Ok ((NonConvex.max_up_down nc <=? t)
        && (t <=? horizon_end m - NonConvex.max_up_down nc)).
Proof.
  intros Ht. unfold blocks.NonConvexFlow.inside_window.
  rewrite (last_timestep m t Ht).
  now destruct (NonConvex.max_up_down nc <=? t).
Qed.

Lemma window_members (rho : assignment) (i o : node) (t n u : Z) :
  0 <= u < n ->
  In (rho (status i o (t + u)))
     (map (fun u => rho (status i o (t + u))) (range 0 n)).
Proof.
  intros H. apply in_map_iff. exists u. split; [reflexivity|].
  apply in_range. lia.
Qed.

Lemma window_binary (rho : assignment) (i o : node) (t n : Z) (x : Q) :
  (forall t', binary (rho (status i o t'))) ->
  In x (map (fun u => rho (status i o (t + u))) (range 0 n)) -> binary x.
Proof.
  intros Hbin H. apply in_map_iff in H as (u & <- & _). apply Hbin.
Qed.

Lemma window_length (t n : Z) (rho : assignment) (i o : node) :
  0 <= n ->
  Z.of_nat (List.length (map (fun u => rho (status i o (t + u)))
                             (range 0 n))) = n.
Proof.
  intros H. unfold range. rewrite !length_map, length_seq. lia.
Qed.

Lemma min_uptime_policy (m : Model.t) (i o : node) (f : Flow.t)
    (nc : NonConvex.t) (t up : Z) :
  Flow.nonconvex f = Some nc -> In t (Model.TIMESTEPS m) ->
  0 <= NonConvex.max_up_down nc ->
  NonConvex.minimum_uptime nc = Some up ->
  0 <= up <= NonConvex.max_up_down nc ->
  interior_window_policy m nc i o t
    (blocks.NonConvexFlow._min_uptime_rule m i o f t)
    (fun rho => stays_up rho i o t up).
Proof.
  intros Hnc Ht Hw Hup [Hup0 Hle].
  pose proof (proj1 (in_TIMESTEPS m t) Ht) as Hr.
  unfold interior_window_policy, blocks.NonConvexFlow._min_uptime_rule,
    blocks.NonConvexFlow.nonconvex, blocks.NonConvexFlow.v_status.
  rewrite Hnc. cbn [attr_of bind]. rewrite (inside_window_value m nc t Ht).
  cbn [bind]. unfold horizon_end in *. split.
  - intros Hin.
    replace (NonConvex.max_up_down nc <=? t) with true by (symmetry; lia).
    replace (t <=? Z.of_nat (Model.n_timesteps m) - 1 - NonConvex.max_up_down nc)
      with true by (symmetry; lia).
    cbn [andb]. rewrite (indexed_in _ _ _ _ _ Ht).
    rewrite indexed_in by (apply in_TIMESTEPS; lia).
    rewrite Hup. cbn [bind number].
    destruct (status_window_value m i o t up) as (win & -> & Hwin).
    { intros u Hu. apply in_TIMESTEPS. lia. }
    cbn [bind]. eexists. split; [reflexivity|].
    intros rho Hbin.
    set (win_values := map (fun u => rho (status i o (t + u))) (range 0 up)).
    assert (Hwb : forall x, In x win_values -> binary x)
      by (intros x Hx; now apply (window_binary rho i o t up)).
    assert (Hlen : Z.of_nat (List.length win_values) = up)
      by (apply window_length; lia).
    assert (Hup0' : (0 <= inject_Z up)%Q)
      by (change 0%Q with (inject_Z 0); rewrite <- Zle_Qle; exact Hup0).
    cbn [holds eval]. rewrite Hwin. fold win_values. split.
    + intros Hc Hprev Hcur u Hu. rewrite Hprev, Hcur in Hc.
      apply (binary_sum_full win_values Hwb).
      * rewrite Hlen. lra.
      * now apply window_members.
    + intros Hstay.
      destruct (binary_sum_bound win_values Hwb) as [Hlb _].
      destruct (Hbin (t - 1)) as [Ep|Ep]; destruct (Hbin t) as [Ec|Ec];
        rewrite ?Ep, ?Ec; try nra.
      assert (Hall : forall x, In x win_values -> (x == 1)%Q).
      { intros x Hx. apply in_map_iff in Hx as (u & <- & Hu).
        apply in_range in Hu. apply (Hstay Ep Ec). lia. }
      rewrite (ones_sum win_values Hall), Hlen. lra.
  - intros Hout.
    replace ((NonConvex.max_up_down nc <=? t)
             && (t <=? Z.of_nat (Model.n_timesteps m) - 1
                       - NonConvex.max_up_down nc)) with false
      by (symmetry; apply andb_false_iff; lia).
    rewrite (indexed_in _ _ _ _ _ Ht). cbn [bind].
    eexists. split; [reflexivity|]. intros rho. unfold pinned.
    cbn [holds eval]. split; intros H; lra.
Qed.

Lemma min_downtime_policy (m : Model.t) (i o : node) (f : Flow.t)
    (nc : NonConvex.t) (t down : Z) :
  Flow.nonconvex f = Some nc -> In t (Model.TIMESTEPS m) ->
  0 <= NonConvex.max_up_down nc ->
  NonConvex.minimum_downtime nc = Some down ->
  0 <= down <= NonConvex.max_up_down nc ->
  interior_window_policy m nc i o t
    (blocks.NonConvexFlow._min_downtime_rule m i o f t)
    (fun rho => stays_down rho i o t down).
Proof.
  intros Hnc Ht Hw Hdown [Hdown0 Hle].
  pose proof (proj1 (in_TIMESTEPS m t) Ht) as Hr.
  unfold interior_window_policy, blocks.NonConvexFlow._min_downtime_rule,
    blocks.NonConvexFlow.nonconvex, blocks.NonConvexFlow.v_status.
  rewrite Hnc. cbn [attr_of bind]. rewrite (inside_window_value m nc t Ht).
  cbn [bind]. unfold horizon_end in *. split.
  - intros Hin.
    replace (NonConvex.max_up_down nc <=? t) with true by (symmetry; lia).
    replace (t <=? Z.of_nat (Model.n_timesteps m) - 1 - NonConvex.max_up_down nc)
      with true by (symmetry; lia).
    cbn [andb]. rewrite (indexed_in _ _ _ _ _ Ht).
    rewrite indexed_in by (apply in_TIMESTEPS; lia).
    rewrite Hdown. cbn [bind number].
    destruct (status_window_value m i o t down) as (win & -> & Hwin).
    { intros u Hu. apply in_TIMESTEPS. lia. }
    cbn [bind]. eexists. split; [reflexivity|].
    intros rho Hbin.
    set (win_values :=
           map (fun u => rho (status i o (t + u))) (range 0 down)).
    assert (Hwb : forall x, In x win_values -> binary x)
      by (intros x Hx; now apply (window_binary rho i o t down)).
    assert (Hlen : Z.of_nat (List.length win_values) = down)
      by (apply window_length; lia).
    assert (Hdown0' : (0 <= inject_Z down)%Q)
      by (change 0%Q with (inject_Z 0); rewrite <- Zle_Qle; exact Hdown0).
    cbn [holds eval]. rewrite Hwin. fold win_values. split.
    + intros Hc Hprev Hcur d Hd. rewrite Hprev, Hcur in Hc.
      apply (binary_sum_empty win_values Hwb).
      * lra.
      * now apply window_members.
    + intros Hstay.
      destruct (binary_sum_bound win_values Hwb) as [_ Hub].
      rewrite Hlen in Hub.
      destruct (Hbin (t - 1)) as [Ep|Ep]; destruct (Hbin t) as [Ec|Ec];
        rewrite ?Ep, ?Ec; try nra.
      assert (Hall : forall x, In x win_values -> (x == 0)%Q).
      { intros x Hx. apply in_map_iff in Hx as (u & <- & Hu).
        apply in_range in Hu. apply (Hstay Ep Ec). lia. }
      rewrite (zeros_sum win_values Hall). lra.
  - intros Hout.
    replace ((NonConvex.max_up_down nc <=? t)
             && (t <=? Z.of_nat (Model.n_timesteps m) - 1
                       - NonConvex.max_up_down nc)) with false
      by (symmetry; apply andb_false_iff; lia).
    rewrite (indexed_in _ _ _ _ _ Ht). cbn [bind].
    eexists. split; [reflexivity|]. intros rho. unfold pinned.
    cbn [holds eval]. split; intros H; lra.
Qed.

(** C6: for a non-convex flow and a timestep t, with w = max_up_down
    (at least the minimum up and down time, which are not negative) and
    the horizon end m.TIMESTEPS[-1]: when w < t < horizon_end - w, the
    minimum uptime rule returns an inequality that a binary status
    satisfies exactly when, after an increase at t, it stays 1 for
    minimum_uptime steps, and the minimum downtime rule one that a
    binary status satisfies exactly when, after a decrease at t, it
    stays 0 for minimum_downtime steps; when t < w or
    t > horizon_end - w, both rules return a constraint that holds
    exactly when status(t) == initial_status.  In a created block these
    are the entries of the two constraints under the key (i, o, t). *)
Theorem min_updowntime_interior_window (m : Model.t) (i o : node)
    (f : Flow.t) (nc : NonConvex.t) (t : Z) :
  Flow.nonconvex f = Some nc ->
  In t (Model.TIMESTEPS m) ->
  0 <= NonConvex.max_up_down nc ->
  (forall up,
      NonConvex.minimum_uptime nc = Some up ->
      0 <= up <= NonConvex.max_up_down nc ->
      interior_window_policy m nc i o t
        (blocks.NonConvexFlow._min_uptime_rule m i o f t)
        (fun rho => stays_up rho i o t up))
  /\ (forall down,
      NonConvex.minimum_downtime nc = Some down ->
      0 <= down <= NonConvex.max_up_down nc ->
      interior_window_policy m nc i o t
        (blocks.NonConvexFlow._min_downtime_rule m i o f t)
        (fun rho => stays_down rho i o t down))
  /\ (forall g b,
      blocks.NonConvexFlow.create_block m g = Ok b ->
      (In (i, o, f) (blocks.NonConvexFlow.MINUPTIMEFLOWS
                       (blocks.NonConvexFlow.the_sets b)) ->
       exists c,
         blocks.NonConvexFlow._min_uptime_rule m i o f t = Ok c
         /\ In ([N i; N o; I t], c)
               (blocks.NonConvexFlow.min_uptime_constr b))
      /\ (In (i, o, f) (blocks.NonConvexFlow.MINDOWNTIMEFLOWS
                          (blocks.NonConvexFlow.the_sets b)) ->
          exists c,
            blocks.NonConvexFlow._min_downtime_rule m i o f t = Ok c
            /\ In ([N i; N o; I t], c)
                  (blocks.NonConvexFlow.min_downtime_constr b))).
Proof.
  intros Hnc Ht Hw. split; [|split].
  - intros up Hup Hle. now apply min_uptime_policy.
  - intros down Hdown Hle. now apply min_downtime_policy.
  - intros g b Hb.
    destruct (create_block_inv m g b Hb)
      as (_ & _ & _ & _ & _ & _ & _ & _ & Hcup & Hcdn).
    split; intros Hin.
    + exact (constraint_over_in _ _ _ _ i o f t Hcup Hin Ht).
    + exact (constraint_over_in _ _ _ _ i o f t Hcdn Hin Ht).
Qed.

Example ex_uptime_constraints :
  blocks.NonConvexFlow._min_uptime_rule ex_model_8 "plant" "bus"
    (ex_nonconvex_flow (Some (3 # 10)%Q)) 3
  = Ok (Le (Add (Add (Num 0)
                     (Mul (Sub (Var (status "plant" "bus" 3))
                               (Var (status "plant" "bus" 2)))
                          (Num 2)))
                (Neg (Add (Add (Num 0) (Var (status "plant" "bus" 3)))
                          (Var (status "plant" "bus" 4)))))
           (Num 0))
  /\ blocks.NonConvexFlow._min_uptime_rule ex_model_8 "plant" "bus"
       (ex_nonconvex_flow (Some (3 # 10)%Q)) 6
     = Ok (Eq (Add (Add (Num 0) (Var (status "plant" "bus" 6))) (Num (- 0)))
              (Num 0)).
Proof. split; reflexivity. Qed.

(** At the two ends of the window, t = 2 and t = 5 here, the test of the
    rule is inclusive and the rule returns the inequality. *)
Example ex_uptime_window_ends :
  blocks.NonConvexFlow._min_uptime_rule ex_model_8 "plant" "bus"
    (ex_nonconvex_flow (Some (3 # 10)%Q)) 2
  = Ok (Le (Add (Add (Num 0)
                     (Mul (Sub (Var (status "plant" "bus" 2))
                               (Var (status "plant" "bus" 1)))
                          (Num 2)))
                (Neg (Add (Add (Num 0) (Var (status "plant" "bus" 2)))
                          (Var (status "plant" "bus" 3)))))
           (Num 0))
  /\ blocks.NonConvexFlow._min_uptime_rule ex_model_8 "plant" "bus"
       (ex_nonconvex_flow (Some (3 # 10)%Q)) 5
     = Ok (Le (Add (Add (Num 0)
                        (Mul (Sub (Var (status "plant" "bus" 5))
                                  (Var (status "plant" "bus" 4)))
                             (Num 2)))
                   (Neg (Add (Add (Num 0) (Var (status "plant" "bus" 5)))
                             (Var (status "plant" "bus" 6)))))
              (Num 0)).
Proof. split; reflexivity. Qed.

(** The theorem at the example flow and timestep 3 of 0..7, with a
    window bound of 2 and minimum up and down times of 2. *)
Lemma min_updowntime_interior_window_witness :
  interior_window_policy ex_model_8 ex_nonconvex "plant" "bus" 3
    (blocks.NonConvexFlow._min_uptime_rule ex_model_8 "plant" "bus"
       (ex_nonconvex_flow (Some (3 # 10)%Q)) 3)
    (fun rho => stays_up rho "plant" "bus" 3 2)
  /\ interior_window_policy ex_model_8 ex_nonconvex "plant" "bus" 3
       (blocks.NonConvexFlow._min_downtime_rule ex_model_8 "plant" "bus"
          (ex_nonconvex_flow (Some (3 # 10)%Q)) 3)
       (fun rho => stays_down rho "plant" "bus" 3 2)
  /\ exists b,
      ex_nonconvex_block = Ok b
      /\ (exists c,
            blocks.NonConvexFlow._min_uptime_rule ex_model_8 "plant" "bus"
              (ex_nonconvex_flow (Some (3 # 10)%Q)) 3 = Ok c
            /\ In ([N "plant"; N "bus"; I 3], c)
                  (blocks.NonConvexFlow.min_uptime_constr b))
      /\ (exists c,
            blocks.NonConvexFlow._min_downtime_rule ex_model_8 "plant" "bus"
              (ex_nonconvex_flow (Some (3 # 10)%Q)) 3 = Ok c
            /\ In ([N "plant"; N "bus"; I 3], c)
                  (blocks.NonConvexFlow.min_downtime_constr b)).
Proof.
  assert (Ht : In 3 (Model.TIMESTEPS ex_model_8))
    by (apply in_TIMESTEPS; simpl; lia).
  assert (Hw : 0 <= NonConvex.max_up_down ex_nonconvex) by (simpl; lia).
  destruct (min_updowntime_interior_window ex_model_8 "plant" "bus"
              (ex_nonconvex_flow (Some (3 # 10)%Q)) ex_nonconvex 3
              eq_refl Ht Hw) as (Hup & Hdown & Hblock).
  split; [apply (Hup 2); [reflexivity|simpl; lia]|].
  split; [apply (Hdown 2); [reflexivity|simpl; lia]|].
  destruct ex_nonconvex_block as [b|e] eqn:E;
    [|vm_compute in E; discriminate E].
  exists b. split; [reflexivity|].
  destruct (Hblock ex_nonconvex_group b E) as [Hu Hd].
  split; [apply Hu|apply Hd]; vm_compute in E; injection E as <-; now left.
Defined.

(* ------------------------------------------------------------------ *)
(** * The conversion relation: what a missing factor raises *)

Lemma dict_get_cases {A} (d : list (node * A)) (k : node) :
  (exists a, dict_get d k = Ok a /\ In (k, a) d)
  \/ (dict_get d k = Raise (KeyError [N k]) /\ forall a, ~ In (k, a) d).
Proof.
  induction d as [|[k' a] d IH]; simpl.
  - right. split; [reflexivity|]. intros a [].
  - destruct (String.eqb_spec k' k) as [->|Hne].
    + left. exists a. split; [reflexivity|now left].
    + destruct IH as [(a' & Ha & Hin)|[Hr Hno]].
      * left. exists a'. split; [exact Ha|now right].
      * right. split; [exact Hr|]. intros a' [H|H].
        -- injection H as H _. contradiction.
        -- exact (Hno a' H).
Qed.

(** A loop returns, or raises what the body raises at one of its
    elements. *)
Lemma for_each_cases {A B} (body : A -> result (list B)) (l : list A) :
  (exists out, for_each body l = Ok out)
  \/ (exists a e, In a l /\ body a = Raise e /\ for_each body l = Raise e).
Proof.
  induction l as [|x l IH]; [left; now exists []|]. cbn [for_each].
  destruct (body x) as [bs|e] eqn:Ex.
  - cbn [bind]. destruct IH as [[out ->]|(a & e & Hin & Ha & ->)].
    + left. cbn. eauto.
    + right. exists a, e. split; [now right|]. split; [exact Ha|reflexivity].
  - right. exists x, e. split; [now left|]. split; [exact Ex|reflexivity].
Qed.

(** One relation of a converter [n] of the group, at the timestep [t]:
    it is built when both factors are there, and otherwise the read
    that fails raises a [factor_error], which the handler lets pass. *)
Lemma relation_step_cases (group : list Node.t) (n : Node.t) (o i : node)
    (t : Z) (k : key) (lhs rhs : var) (handler : result (expr * expr)) :
  In n group ->
  let step :=
    sides <- try_except_ValueError
      (f_o <- dict_get (Node.conversion_factors n) o ;;
       c_o <- number (item f_o t) ;;
       f_i <- dict_get (Node.conversion_factors n) i ;;
       c_i <- number (item f_i t) ;;
       Ok (Mul (Var lhs) (Num c_o), Mul (Var rhs) (Num c_i)))
      handler ;;
    Ok [(k, Eq (fst sides) (snd sides))] in
  In o (Node.outputs n) -> In i (Node.inputs n) ->
  (exists out, step = Ok out /\ ~ lacks_factor n o /\ ~ lacks_factor n i)
  \/ (exists e, step = Raise e /\ factor_error group e).
Proof.
  intros Hn step Ho Hi. subst step.
  destruct (dict_get_cases (Node.conversion_factors n) o)
    as [(f_o & -> & Hfo)|[-> Hfo]]; cbn [bind try_except_ValueError].
  2:{ right. eexists. split; [reflexivity|]. left.
      exists n, o. repeat split; [exact Hn|now right|exact Hfo]. }
  destruct (item f_o t) as [c_o|] eqn:Eo; cbn [number bind].
  2:{ right. eexists. split; [reflexivity|]. right.
      exists n, o, f_o, t. now repeat split. }
  destruct (dict_get_cases (Node.conversion_factors n) i)
    as [(f_i & -> & Hfi)|[-> Hfi]]; cbn [bind try_except_ValueError].
  2:{ right. eexists. split; [reflexivity|]. left.
      exists n, i. repeat split; [exact Hn|now left|exact Hfi]. }
  destruct (item f_i t) as [c_i|] eqn:Ei; cbn [number bind].
  2:{ right. eexists. split; [reflexivity|]. right.
      exists n, i, f_i, t. now repeat split. }
  left. eexists. split; [reflexivity|].
  split; intros H; [exact (H f_o Hfo)|exact (H f_i Hfi)].
Qed.

Section MissingFactor.
Context {X : Type}.
Variable slices : list X.
Variable group : list Node.t.
Variable step : X -> Node.t -> node -> node -> result constraints.
Hypothesis step_cases :
  forall x n o i, In n group -> In o (Node.outputs n) -> In i (Node.inputs n) ->
    (exists out, step x n o i = Ok out
                 /\ ~ lacks_factor n o /\ ~ lacks_factor n i)
    \/ (exists e, step x n o i = Raise e /\ factor_error group e).

(** What the loops of [_input_output_relation] raise. *)
Lemma relation_loops_raise_factor_error (e : exn) :
  for_each (fun x =>
    for_each (fun n =>
      for_each (fun o =>
        for_each (fun i => step x n o i) (Node.inputs n))
        (Node.outputs n)) group) slices
  = Raise e -> factor_error group e.
Proof.
  intros H.
  destruct (for_each_cases
              (fun x => for_each (fun n =>
                 for_each (fun o =>
                   for_each (fun i => step x n o i) (Node.inputs n))
                   (Node.outputs n)) group) slices)
    as [[out E]|(x & e1 & _ & Hx & E)]; rewrite E in H; [discriminate|].
  injection H as ->.
  destruct (for_each_cases
              (fun n => for_each (fun o =>
                 for_each (fun i => step x n o i) (Node.inputs n))
                 (Node.outputs n)) group)
    as [[out E1]|(n & e2 & Hn & Hbody & E1)]; rewrite E1 in Hx;
    [discriminate|].
  injection Hx as ->.
  destruct (for_each_cases
              (fun o => for_each (fun i => step x n o i) (Node.inputs n))
              (Node.outputs n))
    as [[out E2]|(o & e3 & Ho & Hbody' & E2)]; rewrite E2 in Hbody;
    [discriminate|].
  injection Hbody as ->.
  destruct (for_each_cases (fun i => step x n o i) (Node.inputs n))
    as [[out E3]|(i & e4 & Hi & Hstep & E3)]; rewrite E3 in Hbody';
    [discriminate|].
  injection Hbody' as ->.
  destruct (step_cases x n o i Hn Ho Hi) as [(out & Hok & _)|(e' & Hr & He)].
  - rewrite Hok in Hstep. discriminate.
  - rewrite Hr in Hstep. now injection Hstep as ->.
Qed.

Lemma relation_loops_abort (n : Node.t) (k : node) :
  slices <> [] -> In n group ->
  Node.inputs n <> [] -> Node.outputs n <> [] ->
  incident n k -> lacks_factor n k ->
  exists e,
    for_each (fun x =>
      for_each (fun n =>
        for_each (fun o =>
          for_each (fun i => step x n o i) (Node.inputs n))
          (Node.outputs n)) group) slices
    = Raise e
    /\ factor_error group e.
Proof.
  intros Hs Hn Hins Houts Hk Hlack.
  destruct (for_each (fun x =>
    for_each (fun n =>
      for_each (fun o =>
        for_each (fun i => step x n o i) (Node.inputs n))
        (Node.outputs n)) group) slices) as [out|e] eqn:E.
  - exfalso.
    destruct slices as [|x rest]; [easy|].
    destruct (for_each_all_ok _ _ _ x E (or_introl eq_refl)) as [c1 E1].
    destruct (for_each_all_ok _ _ _ n E1 Hn) as [c2 E2].
    assert (Hpick : exists o i, In o (Node.outputs n) /\ In i (Node.inputs n)
                                /\ (k = o \/ k = i)).
    { destruct Hk as [Hk|Hk].
      - destruct (Node.outputs n) as [|o outs]; [easy|].
        exists o, k. split; [now left|]. split; [exact Hk|now right].
      - destruct (Node.inputs n) as [|i ins]; [easy|].
        exists k, i. split; [exact Hk|]. split; [now left|now left]. }
    destruct Hpick as (o & i & Ho & Hi & Hoi).
    destruct (for_each_all_ok _ _ _ o E2 Ho) as [c3 E3].
    destruct (for_each_all_ok _ _ _ i E3 Hi) as [c4 E4].
    destruct (step_cases x n o i Hn Ho Hi)
      as [(out' & _ & Hno & Hni)|(e' & Hr & _)].
    + destruct Hoi as [->| ->]; [exact (Hno Hlack)|exact (Hni Hlack)].
    + rewrite Hr in E4. discriminate.
  - exists e. split; [reflexivity|].
    now apply relation_loops_raise_factor_error.
Qed.
End MissingFactor.

(** C4, amended: when a converter of the group that has an input and an
    output lacks the conversion factor of an incident flow, and the
    model has a timestep, [_create] of the [Transformer] block raises
    and builds no relation: no default factor stands in.  What it
    raises is the error of the read that failed first, the [KeyError]
    of a dict lookup that carries the node whose factor is missing and
    nothing else (or the [TypeError] of a factor without a value); it
    is never the [ValueError] of the handler, which names the converter
    and the target.  [_create] of [MultiPeriodTransformer] does the
    same in a model whose time index is not empty. *)
Theorem missing_conversion_factor_aborts (m : Model.t)
    (group : list Node.t) (n : Node.t) (k : node) :
  In n group -> Node.inputs n <> [] -> Node.outputs n <> [] ->
  incident n k -> lacks_factor n k ->
  (Model.TIMESTEPS m <> [] ->
   exists e, blocks.Transformer._create m (Some group) = Raise e
             /\ factor_error group e)
  /\ (Model.TIMEINDEX m <> [] ->
      exists e, blocks.MultiPeriodTransformer._create m (Some group) = Raise e
                /\ factor_error group e).
Proof.
  intros Hn Hins Houts Hk Hlack. split; intros Hs.
  - destruct (relation_loops_abort (Model.TIMESTEPS m) group
                (fun t n o i => blocks.Transformer.relation_step n o i t))
      with (n := n) (k := k) as (e & He & Hfe); try assumption.
    { intros t n' o i Hn' Ho Hi.
      exact (relation_step_cases group n' o i t _ _ _ _ Hn' Ho Hi). }
    exists e. split; [|exact Hfe].
    assert (Hrule : blocks.Transformer._input_output_relation m group
                    = Raise e) by exact He.
    cbn [blocks.Transformer._create]. now rewrite Hrule.
  - destruct (relation_loops_abort (Model.TIMEINDEX m) group
                (fun '(p, t) n o i =>
                   blocks.MultiPeriodTransformer.relation_step n o i p t))
      with (n := n) (k := k) as (e & He & Hfe); try assumption.
    { intros [p t] n' o i Hn' Ho Hi.
      exact (relation_step_cases group n' o i t _ _ _ _ Hn' Ho Hi). }
    exists e. split; [|exact Hfe].
    assert (Hrule : blocks.MultiPeriodTransformer._input_output_relation
                      m group = Raise e).
    { etransitivity; [|exact He].
      unfold blocks.MultiPeriodTransformer._input_output_relation.
      apply for_each_ext. intros [p t]. reflexivity. }
    cbn [blocks.MultiPeriodTransformer._create]. now rewrite Hrule.
Qed.

(** The theorem at a converter "chp" with input "gas" and output
    "electricity" whose conversion factors cover "gas" only. *)
Lemma missing_conversion_factor_aborts_witness :
  (exists e, blocks.Transformer._create ex_model_5y (Some [ex_chp]) = Raise e
             /\ factor_error [ex_chp] e)
  /\ (exists e, blocks.MultiPeriodTransformer._create ex_model_5y
                  (Some [ex_chp]) = Raise e
                /\ factor_error [ex_chp] e).
Proof.
  destruct (missing_conversion_factor_aborts ex_model_5y [ex_chp] ex_chp
              "electricity") as [H1 H2].
  - now left.
  - discriminate.
  - discriminate.
  - right. now left.
  - intros s [H|[]]. discriminate.
  - split; [apply H1|apply H2]; discriminate.
Defined.

(** C4 as worded fails on the code.  The converter "chp" has no factor
    for its output "electricity": both converter blocks raise
    [KeyError] with the key "electricity", not the error of the handler
    that names source and target.  A second converter "boiler" with the
    same gap raises the very same error, so the offending converter and
    flow cannot be read off what is raised. *)
Lemma missing_factor_error_names_no_pair :
  blocks.Transformer._create ex_model_5y (Some [ex_chp])
  = Raise (KeyError [N "electricity"])
  /\ blocks.MultiPeriodTransformer._create ex_model_5y (Some [ex_chp])
     = Raise (KeyError [N "electricity"])
  /\ blocks.Transformer._create ex_model_5y (Some [ex_chp])
     <> Raise (blocks.Transformer.creation_error "chp" "electricity")
  /\ ~ exists offender : exn -> node * node,
         (forall e, blocks.Transformer._create ex_model_5y (Some [ex_chp])
                    = Raise e -> offender e = ("chp", "electricity"))
         /\ (forall e, blocks.Transformer._create ex_model_5y
                         (Some [ex_boiler]) = Raise e ->
                       offender e = ("boiler", "electricity")).
Proof.
  split; [reflexivity|]. split; [reflexivity|]. split; [discriminate|].
  intros (offender & Hchp & Hboiler).
  specialize (Hchp (KeyError [N "electricity"]) eq_refl).
  specialize (Hboiler (KeyError [N "electricity"]) eq_refl).
  rewrite Hchp in Hboiler. discriminate.
Qed.

(* ------------------------------------------------------------------ *)
(** * Created blocks of investment flows *)

Ltac bind_as H x E :=
  match type of H with
  | bind ?c _ = Ok _ =>
      destruct c as [x|] eqn:E; [cbn [bind] in H|discriminate H]
  end.

(** The sets of a block that was created. *)
Lemma investment_sets_inv (g : group) (s : InvestmentFlowBlock.sets) :
  InvestmentFlowBlock._create_sets g = Ok s ->
  InvestmentFlowBlock.INVESTFLOWS s = g
  /\ (forall i o f, In (i, o, f) g -> Flow.investment f <> None)
  /\ (forall i o f,
        In (i, o, f) (InvestmentFlowBlock.CONVEX_INVESTFLOWS s) <->
        In (i, o, f) g
        /\ exists iv, Flow.investment f = Some iv
                      /\ Investment.nonconvex iv = false)
  /\ (forall i o f,
        In (i, o, f) (InvestmentFlowBlock.NON_CONVEX_INVESTFLOWS s) <->
        In (i, o, f) g
        /\ exists iv, Flow.investment f = Some iv
                      /\ Investment.nonconvex iv = true)
  /\ (forall i o f,
        In (i, o, f) (InvestmentFlowBlock.FIXED_INVESTFLOWS s) <->
        In (i, o, f) g /\ item (Flow.fix_ f) 0 <> None)
  /\ (forall i o f,
        In (i, o, f) (InvestmentFlowBlock.NON_FIXED_INVESTFLOWS s) <->
        In (i, o, f) g /\ item (Flow.fix_ f) 0 = None)
  /\ (forall i o f,
        In (i, o, f) (InvestmentFlowBlock.OVERALL_MAXIMUM_INVESTFLOWS s) <->
        In (i, o, f) g
        /\ exists iv, Flow.investment f = Some iv
                      /\ Investment.overall_maximum iv <> None)
  /\ (forall i o f,
        In (i, o, f) (InvestmentFlowBlock.OVERALL_MINIMUM_INVESTFLOWS s) <->
        In (i, o, f) g
        /\ exists iv, Flow.investment f = Some iv
                      /\ Investment.overall_minimum iv <> None)
  /\ (forall i o f,
        In (i, o, f) (InvestmentFlowBlock.FULL_LOAD_TIME_MAX_INVESTFLOWS s) <->
        In (i, o, f) g /\ Flow.full_load_time_max f <> None)
  /\ (forall i o f,
        In (i, o, f) (InvestmentFlowBlock.FULL_LOAD_TIME_MIN_INVESTFLOWS s) <->
        In (i, o, f) g /\ Flow.full_load_time_min f <> None)
  /\ (forall i o f,
        In (i, o, f) (InvestmentFlowBlock.MIN_INVESTFLOWS s) ->
        In (i, o, f) g)
  /\ (forall i o f,
        In (i, o, f) (InvestmentFlowBlock.EXISTING_INVESTFLOWS s) <->
        In (i, o, f) g).
Proof.
  unfold InvestmentFlowBlock._create_sets. intros H.
  bind_as H convex Ecv. bind_as H non_convex Enc. bind_as H fixed Efx.
  bind_as H non_fixed Enf. bind_as H flt_max Efmax. bind_as H flt_min Efmin.
  bind_as H mins Emin. bind_as H existing Eex. bind_as H omax Eomax.
  bind_as H omin Eomin. injection H as <-. cbn.
  assert (Hattr : forall i o f, In (i, o, f) g ->
            exists iv, Flow.investment f = Some iv).
  { intros i o f Hin.
    destruct (for_each_all_ok _ _ _ (i, o, f) Ecv Hin) as [bs Hbs].
    unfold InvestmentFlowBlock.investment in Hbs.
    destruct (Flow.investment f) as [iv|]; [eauto|discriminate]. }
  split; [reflexivity|].
  split.
  { intros i o f Hin. destruct (Hattr i o f Hin) as [iv ->]. discriminate. }
  split.
  { intros i o f. rewrite (select_inv _ _ _ Ecv).
    unfold InvestmentFlowBlock.investment. split.
    - intros [Hin Ht]. split; [exact Hin|].
      destruct (Hattr i o f Hin) as [iv Hiv]. rewrite Hiv in Ht. simpl in Ht.
      exists iv. split; [exact Hiv|].
      destruct (Investment.nonconvex iv); [discriminate|reflexivity].
    - intros [Hin (iv & Hiv & Hnc)]. split; [exact Hin|].
      rewrite Hiv. simpl. now rewrite Hnc. }
  split.
  { intros i o f. rewrite (select_inv _ _ _ Enc).
    unfold InvestmentFlowBlock.investment. split.
    - intros [Hin Ht]. split; [exact Hin|].
      destruct (Hattr i o f Hin) as [iv Hiv]. rewrite Hiv in Ht. simpl in Ht.
      exists iv. split; [exact Hiv|]. now injection Ht.
    - intros [Hin (iv & Hiv & Hnc)]. split; [exact Hin|].
      rewrite Hiv. simpl. now rewrite Hnc. }
  split.
  { intros i o f. rewrite (select_inv _ _ _ Efx). split.
    - intros [Hin Ht]. split; [exact Hin|].
      destruct (item (Flow.fix_ f) 0); [discriminate|discriminate].
    - intros [Hin Ht]. split; [exact Hin|].
      destruct (item (Flow.fix_ f) 0); [reflexivity|easy]. }
  split.
  { intros i o f. rewrite (select_inv _ _ _ Enf). split.
    - intros [Hin Ht]. split; [exact Hin|].
      destruct (item (Flow.fix_ f) 0); [discriminate|reflexivity].
    - intros [Hin Ht]. split; [exact Hin|]. now rewrite Ht. }
  split.
  { intros i o f. rewrite (select_inv _ _ _ Eomax).
    unfold InvestmentFlowBlock.investment. split.
    - intros [Hin Ht]. split; [exact Hin|].
      destruct (Hattr i o f Hin) as [iv Hiv]. rewrite Hiv in Ht. simpl in Ht.
      exists iv. split; [exact Hiv|].
      destruct (Investment.overall_maximum iv); [discriminate|discriminate].
    - intros [Hin (iv & Hiv & Hnc)]. split; [exact Hin|].
      rewrite Hiv. simpl.
      destruct (Investment.overall_maximum iv); [reflexivity|easy]. }
  split.
  { intros i o f. rewrite (select_inv _ _ _ Eomin).
    unfold InvestmentFlowBlock.investment. split.
    - intros [Hin Ht]. split; [exact Hin|].
      destruct (Hattr i o f Hin) as [iv Hiv]. rewrite Hiv in Ht. simpl in Ht.
      exists iv. split; [exact Hiv|].
      destruct (Investment.overall_minimum iv); [discriminate|discriminate].
    - intros [Hin (iv & Hiv & Hnc)]. split; [exact Hin|].
      rewrite Hiv. simpl.
      destruct (Investment.overall_minimum iv); [reflexivity|easy]. }
  split.
  { intros i o f. rewrite (select_inv _ _ _ Efmax). split.
    - intros [Hin Ht]. split; [exact Hin|].
      destruct (Flow.full_load_time_max f); [discriminate|discriminate].
    - intros [Hin Ht]. split; [exact Hin|].
      destruct (Flow.full_load_time_max f); [reflexivity|easy]. }
  split.
  { intros i o f. rewrite (select_inv _ _ _ Efmin). split.
    - intros [Hin Ht]. split; [exact Hin|].
      destruct (Flow.full_load_time_min f); [discriminate|discriminate].
    - intros [Hin Ht]. split; [exact Hin|].
      destruct (Flow.full_load_time_min f); [reflexivity|easy]. }
  split.
  { intros i o f Hin. now apply (select_inv _ _ _ Emin) in Hin. }
  { intros i o f. rewrite (select_inv _ _ _ Eex).
    unfold InvestmentFlowBlock.investment. split; [now intros []|].
    intros Hin. split; [exact Hin|].
    now destruct (Hattr i o f Hin) as [iv ->]. }
Qed.

(** The components of a block whose constraints were created. *)
Lemma create_constraints_inv (m : Model.t) (s : InvestmentFlowBlock.sets)
    (b : InvestmentFlowBlock.block) :
  InvestmentFlowBlock._create_constraints m s = Ok b ->
  let mp := EnergySystem.multi_period (Model.es m) in
  InvestmentFlowBlock._min_invest_rule m s
  = Ok (InvestmentFlowBlock.minimum_rule b)
  /\ InvestmentFlowBlock._max_invest_rule m s
     = Ok (InvestmentFlowBlock.maximum_rule b)
  /\ InvestmentFlowBlock._total_capacity_rule m s
     = Ok (InvestmentFlowBlock.total_rule b)
  /\ (if mp then InvestmentFlowBlock._old_capacity_rule_end m s else Ok [])
     = Ok (InvestmentFlowBlock.old_rule_end b)
  /\ (if mp then InvestmentFlowBlock._old_capacity_rule_exo m s else Ok [])
     = Ok (InvestmentFlowBlock.old_rule_exo b)
  /\ (if mp then InvestmentFlowBlock._old_capacity_rule m s else Ok [])
     = Ok (InvestmentFlowBlock.old_rule b)
  /\ InvestmentFlowBlock._investflow_fixed_rule m s
     = Ok (InvestmentFlowBlock.fixed b)
  /\ InvestmentFlowBlock._max_investflow_rule m s
     = Ok (InvestmentFlowBlock.max b)
  /\ InvestmentFlowBlock._min_investflow_rule m s
     = Ok (InvestmentFlowBlock.min b)
  /\ InvestmentFlowBlock._full_load_time_max_investflow_rule m s
     = Ok (InvestmentFlowBlock.full_load_time_max b)
  /\ InvestmentFlowBlock._full_load_time_min_investflow_rule m s
     = Ok (InvestmentFlowBlock.full_load_time_min b)
  /\ (if mp then InvestmentFlowBlock._overall_maximum_investflow_rule m s
      else Ok [])
     = Ok (InvestmentFlowBlock.overall_maximum b)
  /\ (if mp then InvestmentFlowBlock._overall_minimum_investflow_rule m s
      else Ok [])
     = Ok (InvestmentFlowBlock.overall_minimum b).
Proof.
  unfold InvestmentFlowBlock._create_constraints. intros H.
  repeat bind_inv H. injection H as <-. cbn.
  repeat split; assumption.
Qed.

Lemma investment_create_inv (m : Model.t) (g : group)
    (s : InvestmentFlowBlock.sets) (b : InvestmentFlowBlock.block) :
  InvestmentFlowBlock._create m (Some g) = Ok (Some (s, b)) ->
  InvestmentFlowBlock._create_sets g = Ok s
  /\ InvestmentFlowBlock._create_constraints m s = Ok b.
Proof.
  unfold InvestmentFlowBlock._create. intros H.
  bind_as H s' Es. bind_as H b' Eb. now injection H as -> ->.
Qed.

(** A loop over a set of flows and the time index that reads the total
    capacity and one sequence attribute of the flow returns when the
    periods exist and the attribute is set. *)
Lemma flow_bound_loop_ok (m : Model.t) (flows : group)
    (attr : Flow.t -> sequence)
    (mk : node -> node -> Z -> Z -> expr -> Q -> relation) :
  (forall i o f p t, In (i, o, f) flows -> In (p, t) (Model.TIMEINDEX m) ->
                     In p (Model.PERIODS m) /\ item (attr f) t <> None) ->
  exists c,
    for_each (fun '(i, o, f) =>
      for_each (fun '(p, t) =>
        tot <- InvestmentFlowBlock.v_total m i o p ;;
        x <- number (item (attr f) t) ;;
        Ok [([N i; N o; I p; I t], mk i o p t tot x)])
        (Model.TIMEINDEX m)) flows = Ok c.
Proof.
  intros H. apply for_each_ok. intros [[i o] f] Hin.
  apply for_each_ok. intros [p t] Hpt.
  destruct (H i o f p t Hin Hpt) as [Hp Hx].
  unfold InvestmentFlowBlock.v_total. rewrite (indexed_in _ _ _ _ _ Hp).
  cbn [bind]. destruct (item (attr f) t); [cbn; eauto|easy].
Qed.

Lemma total_over_periods_ok (m : Model.t) (i o : node) :
  exists e, InvestmentFlowBlock.total_over_periods m i o = Ok e.
Proof.
  unfold InvestmentFlowBlock.total_over_periods, InvestmentFlowBlock.v_total.
  rewrite (collected_ok (Model.PERIODS m) (total i o) i o (fun p => p))
    by auto.
  cbn. eauto.
Qed.

(** The constraints of a group are created when its flows carry what
    the rules read; in a multi-period model that includes a lifetime,
    and year offsets that start at 0. *)
Lemma investment_create_ok (m : Model.t) (g : group) :
  (if EnergySystem.multi_period (Model.es m) then
     hd_error (EnergySystem.periods_years (Model.es m)) = Some 0
     /\ forall i o f iv, In (i, o, f) g -> Flow.investment f = Some iv ->
                         Investment.lifetime iv <> None
   else List.length (EnergySystem.periods_years (Model.es m)) = 1%nat) ->
  time_index_in_periods m -> investable m g ->
  exists s b,
    InvestmentFlowBlock._create_sets g = Ok s
    /\ InvestmentFlowBlock._create_constraints m s = Ok b.
Proof.
  intros Hmode Hti Hg.
  destruct (investment_sets_ok g) as (s & Hs & _).
  { intros i o f Hin. destruct (Hg i o f Hin) as (iv & -> & _). discriminate. }
  destruct (investment_sets_inv g s Hs)
    as (Hall & _ & _ & Hnon & Hfixed & Hfree & Homax & Homin & Hfmax & Hfmin
        & Hmin & _).
  exists s.
  destruct (invest_bound_rules_ok m s) as [[c1 E1] [c2 E2]].
  { intros i o f p Hin Hp. apply Hnon in Hin as (Hin & iv & Hiv & Hnc).
    destruct (Hg i o f Hin) as (iv' & Hiv' & Hb & _).
    rewrite Hiv in Hiv'. injection Hiv' as <-.
    exists iv. split; [exact Hiv|]. now apply Hb. }
  destruct (investment_total_rule m s) as (c3 & E3 & _).
  { intros i o f Hin. rewrite Hall in Hin.
    destruct (Hg i o f Hin) as (iv & -> & _). discriminate. }
  { destruct (EnergySystem.multi_period (Model.es m)); [now left|right; lia]. }
  destruct (flow_bound_loop_ok m (InvestmentFlowBlock.FIXED_INVESTFLOWS s)
              Flow.fix_
              (fun i o p t tot fx =>
                 Eq (Var (flow_pt i o p t)) (Mul tot (Num fx))))
    as [c7 E7].
  { intros i o f p t Hin Hpt. apply Hfixed in Hin as [Hin H0].
    split; [now apply (Hti p t)|].
    destruct (Hg i o f Hin) as (iv & _ & _ & Ht).
    now apply (Ht p t Hpt). }
  destruct (flow_bound_loop_ok m (InvestmentFlowBlock.NON_FIXED_INVESTFLOWS s)
              Flow.max
              (fun i o p t tot mx =>
                 Le (Var (flow_pt i o p t)) (Mul tot (Num mx))))
    as [c8 E8].
  { intros i o f p t Hin Hpt. apply Hfree in Hin as [Hin H0].
    split; [now apply (Hti p t)|].
    destruct (Hg i o f Hin) as (iv & _ & _ & Ht).
    now apply (Ht p t Hpt). }
  destruct (flow_bound_loop_ok m (InvestmentFlowBlock.MIN_INVESTFLOWS s)
              Flow.min
              (fun i o p t tot mn =>
                 Ge (Var (flow_pt i o p t)) (Mul tot (Num mn))))
    as [c9 E9].
  { intros i o f p t Hin Hpt. apply Hmin in Hin.
    split; [now apply (Hti p t)|].
    destruct (Hg i o f Hin) as (iv & _ & _ & Ht).
    now apply (Ht p t Hpt). }
  assert (E10 : exists c,
            InvestmentFlowBlock._full_load_time_max_investflow_rule m s
            = Ok c).
  { apply for_each_ok. intros [[i o] f] Hin. apply Hfmax in Hin as [_ Hset].
    destruct (total_over_periods_ok m i o) as [e ->]. cbn [bind].
    destruct (Flow.full_load_time_max f); [cbn; eauto|easy]. }
  destruct E10 as [c10 E10].
  assert (E11 : exists c,
            InvestmentFlowBlock._full_load_time_min_investflow_rule m s
            = Ok c).
  { apply for_each_ok. intros [[i o] f] Hin. apply Hfmin in Hin as [_ Hset].
    destruct (total_over_periods_ok m i o) as [e ->]. cbn [bind].
    destruct (Flow.full_load_time_min f); [cbn; eauto|easy]. }
  destruct E11 as [c11 E11].
  unfold InvestmentFlowBlock._create_constraints.
  unfold InvestmentFlowBlock._investflow_fixed_rule,
    InvestmentFlowBlock._max_investflow_rule,
    InvestmentFlowBlock._min_investflow_rule.
  rewrite E1, E2, E3. cbn [bind].
  destruct (EnergySystem.multi_period (Model.es m)) eqn:Hmp.
  - destruct Hmode as [Hfirst Hlife].
    assert (Hlt : forall i o f,
              In (i, o, f) (InvestmentFlowBlock.INVESTFLOWS s) ->
              exists iv l, Flow.investment f = Some iv
                           /\ Investment.lifetime iv = Some l).
    { intros i o f Hin. rewrite Hall in Hin.
      destruct (Hg i o f Hin) as (iv & Hiv & _).
      specialize (Hlife i o f iv Hin Hiv).
      destruct (Investment.lifetime iv) as [l|] eqn:El; [eauto|easy]. }
    assert (E4 : exists c,
              InvestmentFlowBlock._old_capacity_rule_end m s = Ok c).
    { apply for_each_ok. intros [[i o] f] Hin.
      destruct (Hlt i o f Hin) as (iv & l & Hiv & Hl).
      unfold InvestmentFlowBlock.investment. rewrite Hiv.
      cbn [attr_of bind]. rewrite Hl.
      apply for_each_ok. intros p Hp. now apply old_end_step_ok. }
    destruct E4 as [c4 E4].
    destruct (old_exo_rule_entries m s Hmp Hlt) as (c5 & E5 & _).
    assert (E6 : exists c, InvestmentFlowBlock._old_capacity_rule m s = Ok c).
    { apply for_each_ok. intros [[i o] f] Hin.
      apply for_each_ok. intros p Hp.
      unfold InvestmentFlowBlock.v_old, InvestmentFlowBlock.v_old_end,
        InvestmentFlowBlock.v_old_exo.
      rewrite Hmp, !(indexed_in _ _ _ _ _ Hp). cbn. eauto. }
    destruct E6 as [c6 E6].
    assert (E12 : exists c,
              InvestmentFlowBlock._overall_maximum_investflow_rule m s
              = Ok c).
    { apply for_each_ok. intros [[i o] f] Hin.
      apply Homax in Hin as (_ & iv & Hiv & Hset).
      apply for_each_ok. intros p Hp.
      unfold InvestmentFlowBlock.v_total, InvestmentFlowBlock.investment.
      rewrite (indexed_in _ _ _ _ _ Hp), Hiv. cbn [attr_of bind].
      destruct (Investment.overall_maximum iv); [cbn; eauto|easy]. }
    destruct E12 as [c12 E12].
    assert (E13 : exists c,
              InvestmentFlowBlock._overall_minimum_investflow_rule m s
              = Ok c).
    { apply for_each_ok. intros [[i o] f] Hin.
      apply Homin in Hin as (_ & iv & Hiv & Hset).
      unfold InvestmentFlowBlock.investment. rewrite Hiv.
      cbn [attr_of bind].
      assert (H0 : In 0 (Model.PERIODS m)).
      { apply in_PERIODS.
        destruct (EnergySystem.periods_years (Model.es m));
          [discriminate|simpl; lia]. }
      destruct (last_of (Model.PERIODS m)) as [pl|] eqn:Elast.
      - cbn [bind]. unfold InvestmentFlowBlock.v_total.
        rewrite indexed_in.
        + cbn [bind].
          destruct (Investment.overall_minimum iv); [cbn; eauto|easy].
        + unfold last_of in Elast. apply in_rev.
          destruct (rev (Model.PERIODS m)); [discriminate|].
          injection Elast as ->. now left.
      - unfold last_of in Elast. apply in_rev in H0.
        destruct (rev (Model.PERIODS m)); [easy|discriminate]. }
    destruct E13 as [c13 E13].
    rewrite E4, E5, E6. cbn [bind].
    rewrite E7. cbn [bind]. rewrite E8. cbn [bind]. rewrite E9. cbn [bind].
    rewrite E10, E11, E12, E13. cbn [bind].
    eexists. split; [exact Hs|reflexivity].
  - cbn [bind].
    rewrite E7. cbn [bind]. rewrite E8. cbn [bind]. rewrite E9. cbn [bind].
    rewrite E10, E11. cbn [bind].
    eexists. split; [exact Hs|reflexivity].
Qed.

Lemma ex_model_time_index : time_index_in_periods ex_model.
Proof.
  intros p t H. simpl in H. simpl.
  repeat destruct H as [H|H]; try injection H as <- <-; tauto.
Defined.

Lemma ex_group_investable (m : Model.t) : investable m ex_group.
Proof.
  intros i o f [H|[]]. injection H as <- <- <-.
  exists ex_investment. split; [reflexivity|].
  split; [discriminate|]. intros p t _. cbn.
  repeat split; intros; first [discriminate|assumption].
Defined.

Lemma old_exo_rule_entry (m : Model.t) (s : InvestmentFlowBlock.sets)
    (store : constraints) (i o : node) (f : Flow.t) (iv : Investment.t)
    (l p : Z) :
  EnergySystem.multi_period (Model.es m) = true ->
  InvestmentFlowBlock._old_capacity_rule_exo m s = Ok store ->
  In (i, o, f) (InvestmentFlowBlock.INVESTFLOWS s) ->
  Flow.investment f = Some iv -> Investment.lifetime iv = Some l ->
  In p (Model.PERIODS m) ->
  In ([N i; N o; I p],
      Eq (Var (old_exo i o p))
         (Num (if decommissioned_in m iv l p
               then Investment.existing iv else 0%Q))) store.
Proof.
  unfold InvestmentFlowBlock._old_capacity_rule_exo.
  intros Hmp H Hin Hiv Hl Hp.
  assert (Hbody :
            (iv <- InvestmentFlowBlock.investment f ;;
             InvestmentFlowBlock.old_exo_periods m i o iv (Model.PERIODS m)
               false)
            = Ok (exo_entries m i o iv l (Model.PERIODS m) false)).
  { unfold InvestmentFlowBlock.investment. rewrite Hiv. cbn [attr_of bind].
    now apply old_exo_periods_entries. }
  apply (for_each_in (a := (i, o, f)) H Hin Hbody).
  pose proof (proj1 (in_PERIODS m p) Hp) as Hr.
  unfold Model.PERIODS. rewrite (range_split 0 _ p Hr).
  exact (exo_entries_at m i o iv l (range 0 p) p _ false).
Qed.

Lemma old_rule_entry (m : Model.t) (s : InvestmentFlowBlock.sets)
    (store : constraints) (i o : node) (f : Flow.t) (p : Z) :
  EnergySystem.multi_period (Model.es m) = true ->
  InvestmentFlowBlock._old_capacity_rule m s = Ok store ->
  In (i, o, f) (InvestmentFlowBlock.INVESTFLOWS s) ->
  In p (Model.PERIODS m) ->
  In ([N i; N o; I p],
      Eq (Var (old i o p)) (Add (Var (old_end i o p)) (Var (old_exo i o p))))
     store.
Proof.
  unfold InvestmentFlowBlock._old_capacity_rule. intros Hmp H Hin Hp.
  destruct (for_each_all_ok _ _ _ (i, o, f) H Hin) as [inner Hinner].
  apply (for_each_in (a := (i, o, f)) H Hin Hinner).
  eapply (for_each_in (a := p) Hinner Hp).
  - unfold InvestmentFlowBlock.v_old, InvestmentFlowBlock.v_old_end,
      InvestmentFlowBlock.v_old_exo.
    rewrite Hmp, !(indexed_in _ _ _ _ _ Hp). reflexivity.
  - now left.
Qed.

(** C5, amended: in a multi-period model whose year offsets start at 0,
    [_create] builds the block of a group whose investments have a
    lifetime, and for every flow of the group the constraint
    [old_rule_exo] of that block holds old_exo(p) == existing in the
    period p that is the first one after period 0 whose year offset has
    reached lifetime - age, when there is such a period, and
    old_exo(p) == 0 in every other period, period 0 included; so the
    existing capacity leaves in at most one period.  The constraint
    [old_rule] of the block adds that component to the one of the
    investments: old(p) == old_end(p) + old_exo(p). *)
Theorem old_exo_decommissions_at_most_once (m : Model.t) (g : group) :
  EnergySystem.multi_period (Model.es m) = true ->
  periods_ready m g -> time_index_in_periods m -> investable m g ->
  exists s b,
    InvestmentFlowBlock._create m (Some g) = Ok (Some (s, b))
    /\ forall i o f iv l p,
        In (i, o, f) g ->
        Flow.investment f = Some iv ->
        Investment.lifetime iv = Some l ->
        In p (Model.PERIODS m) ->
        In ([N i; N o; I p],
            Eq (Var (old_exo i o p))
               (Num (if decommissioned_in m iv l p
                     then Investment.existing iv else 0%Q)))
           (InvestmentFlowBlock.old_rule_exo b)
        /\ In ([N i; N o; I p],
               Eq (Var (old i o p))
                  (Add (Var (old_end i o p)) (Var (old_exo i o p))))
              (InvestmentFlowBlock.old_rule b)
        /\ (decommissioned_in m iv l p = true <->
            p <> 0 /\ l - Investment.age iv <= year_of m p
            /\ forall q, 0 < q < p -> year_of m q < l - Investment.age iv)
        /\ (forall q, In q (Model.PERIODS m) ->
                      decommissioned_in m iv l p = true ->
                      decommissioned_in m iv l q = true -> q = p).
Proof.
  intros Hmp Hready Hti Hg.
  destruct (investment_create_ok m g Hready Hti Hg) as (s & b & Hs & Hb).
  exists s, b. split.
  { cbn [InvestmentFlowBlock._create]. rewrite Hs. cbn [bind].
    now rewrite Hb. }
  destruct (investment_sets_inv g s Hs) as (Hall & _).
  destruct (create_constraints_inv m s b Hb)
    as (_ & _ & _ & _ & Hexo & Hold & _).
  cbv zeta in Hexo, Hold. rewrite Hmp in Hexo, Hold.
  intros i o f iv l p Hf Hiv Hl Hp. rewrite <- Hall in Hf.
  split; [exact (old_exo_rule_entry m s _ i o f iv l p Hmp Hexo Hf Hiv Hl Hp)|].
  split; [exact (old_rule_entry m s _ i o f p Hmp Hold Hf Hp)|].
  split; [apply decommissioned_in_first|].
  intros q Hq Hdp Hdq.
  apply in_PERIODS in Hp, Hq.
  apply decommissioned_in_first in Hdp as (Hp0 & Hple & Hpfirst).
  apply decommissioned_in_first in Hdq as (Hq0 & Hqle & Hqfirst).
  destruct (Z.lt_trichotomy q p) as [Hlt|[Heq|Hgt]]; [|exact Heq|].
  - specialize (Hpfirst q). lia.
  - specialize (Hqfirst p). lia.
Qed.

Lemma ex_group_periods_ready : periods_ready ex_model ex_group.
Proof.
  split; [reflexivity|].
  intros i o f iv [H|[]] Hiv. injection H as <- <- <-.
  injection Hiv as <-. discriminate.
Defined.

(** The theorem at the example model: lifetime 3 and age 1, so the
    existing capacity leaves in period 2. *)
Lemma old_exo_decommissions_at_most_once_witness :
  exists s b,
    InvestmentFlowBlock._create ex_model (Some ex_group) = Ok (Some (s, b))
    /\ forall i o f iv l p,
        In (i, o, f) ex_group ->
        Flow.investment f = Some iv ->
        Investment.lifetime iv = Some l ->
        In p (Model.PERIODS ex_model) ->
        In ([N i; N o; I p],
            Eq (Var (old_exo i o p))
               (Num (if decommissioned_in ex_model iv l p
                     then Investment.existing iv else 0%Q)))
           (InvestmentFlowBlock.old_rule_exo b)
        /\ In ([N i; N o; I p],
               Eq (Var (old i o p))
                  (Add (Var (old_end i o p)) (Var (old_exo i o p))))
              (InvestmentFlowBlock.old_rule b)
        /\ (decommissioned_in ex_model iv l p = true <->
            p <> 0 /\ l - Investment.age iv <= year_of ex_model p
            /\ forall q, 0 < q < p ->
                         year_of ex_model q < l - Investment.age iv)
        /\ (forall q, In q (Model.PERIODS ex_model) ->
                      decommissioned_in ex_model iv l p = true ->
                      decommissioned_in ex_model iv l q = true -> q = p).
Proof.
  apply (old_exo_decommissions_at_most_once ex_model ex_group).
  - reflexivity.
  - exact ex_group_periods_ready.
  - exact ex_model_time_index.
  - exact (ex_group_investable ex_model).
Defined.

(** The block of the example group: the existing capacity of 10 leaves
    in period 2. *)
Example ex_created_old_rule_exo :
  exists s b,
    InvestmentFlowBlock._create ex_model (Some ex_group) = Ok (Some (s, b))
    /\ InvestmentFlowBlock.old_rule_exo b
       = [([N "source"; N "bus"; I 0], Eq (Var (old_exo "source" "bus" 0)) (Num 0));
          ([N "source"; N "bus"; I 1], Eq (Var (old_exo "source" "bus" 1)) (Num 0));
          ([N "source"; N "bus"; I 2], Eq (Var (old_exo "source" "bus" 2)) (Num 10));
          ([N "source"; N "bus"; I 3], Eq (Var (old_exo "source" "bus" 3)) (Num 0));
          ([N "source"; N "bus"; I 4], Eq (Var (old_exo "source" "bus" 4)) (Num 0))].
Proof. eexists. eexists. split; reflexivity. Qed.

(* ------------------------------------------------------------------ *)
(** * The [MultiPeriodInvestmentFlow] block of blocks.py *)

(** The sets of the block exist when every flow of the group carries a
    [multiperiodinvestment]. *)
Lemma legacy_sets_exist (g : group) :
  (forall i o f, In (i, o, f) g -> Flow.multiperiodinvestment f <> None) ->
  exists s, blocks.MultiPeriodInvestmentFlow.create_sets g = Ok s.
Proof.
  intros Hinv. unfold blocks.MultiPeriodInvestmentFlow.create_sets.
  assert (Hattr : forall i o f, In (i, o, f) g ->
            exists iv, Flow.multiperiodinvestment f = Some iv).
  { intros i o f Hin. specialize (Hinv i o f Hin).
    destruct (Flow.multiperiodinvestment f); [eauto|easy]. }
  repeat match goal with
  | |- context [select ?t g] =>
      let r := fresh "r" in
      let Hr := fresh "Hr" in
      let E := fresh "E" in
      destruct (select_ok t g) as (r & E & Hr);
      [ intros i o f Hin;
        unfold blocks.MultiPeriodInvestmentFlow.multiperiodinvestment;
        try (destruct (Hattr i o f Hin) as [iv ->]); simpl; eauto
      | rewrite E; clear E; cbn [bind] ]
  end.
  eexists. reflexivity.
Qed.

(** The sets of a block that was created. *)
Lemma legacy_sets_inv (g : group)
    (s : blocks.MultiPeriodInvestmentFlow.sets) :
  blocks.MultiPeriodInvestmentFlow.create_sets g = Ok s ->
  blocks.MultiPeriodInvestmentFlow.MULTIPERIODINVESTFLOWS s = g
  /\ (forall i o f,
        In (i, o, f)
           (blocks.MultiPeriodInvestmentFlow.NON_CONVEX_MULTIPERIODINVESTFLOWS s) ->
        In (i, o, f) g
        /\ exists iv, Flow.multiperiodinvestment f = Some iv
                      /\ Investment.nonconvex iv = true)
  /\ (forall i o f,
        In (i, o, f)
           (blocks.MultiPeriodInvestmentFlow.FIXED_MULTIPERIODINVESTFLOWS s) ->
        In (i, o, f) g /\ item (Flow.fix_ f) 0 <> None)
  /\ (forall i o f,
        In (i, o, f)
           (blocks.MultiPeriodInvestmentFlow.NON_FIXED_MULTIPERIODINVESTFLOWS s) ->
        In (i, o, f) g /\ item (Flow.fix_ f) 0 = None)
  /\ (forall i o f,
        In (i, o, f)
           (blocks.MultiPeriodInvestmentFlow.SUMMED_MAX_MULTIPERIODINVESTFLOWS s) ->
        Flow.summed_max f <> None)
  /\ (forall i o f,
        In (i, o, f)
           (blocks.MultiPeriodInvestmentFlow.SUMMED_MIN_MULTIPERIODINVESTFLOWS s) ->
        Flow.summed_min f <> None)
  /\ (forall i o f,
        In (i, o, f)
           (blocks.MultiPeriodInvestmentFlow.MIN_MULTIPERIODINVESTFLOWS s) ->
        In (i, o, f) g)
  /\ (forall i o f,
        In (i, o, f)
           (blocks.MultiPeriodInvestmentFlow.OVERALL_MAXIMUM_MULTIPERIODINVESTFLOWS s) ->
        exists iv, Flow.multiperiodinvestment f = Some iv
                   /\ Investment.overall_maximum iv <> None)
  /\ (forall i o f,
        In (i, o, f)
           (blocks.MultiPeriodInvestmentFlow.OVERALL_MINIMUM_MULTIPERIODINVESTFLOWS s) ->
        exists iv, Flow.multiperiodinvestment f = Some iv
                   /\ Investment.overall_minimum iv <> None).
Proof.
  unfold blocks.MultiPeriodInvestmentFlow.create_sets. intros H.
  bind_as H convex Ecv. bind_as H non_convex Enc. bind_as H fixed Efx.
  bind_as H non_fixed Enf. bind_as H smax Esmax. bind_as H smin Esmin.
  bind_as H mins Emin. bind_as H omax Eomax. bind_as H omin Eomin.
  injection H as <-. cbn.
  assert (Hattr : forall i o f, In (i, o, f) g ->
            exists iv, Flow.multiperiodinvestment f = Some iv).
  { intros i o f Hin.
    destruct (for_each_all_ok _ _ _ (i, o, f) Ecv Hin) as [bs Hbs].
    unfold blocks.MultiPeriodInvestmentFlow.multiperiodinvestment in Hbs.
    destruct (Flow.multiperiodinvestment f) as [iv|]; [eauto|discriminate]. }
  split; [reflexivity|].
  split.
  { intros i o f Hin. apply (select_inv _ _ _ Enc) in Hin as [Hin Ht].
    split; [exact Hin|].
    unfold blocks.MultiPeriodInvestmentFlow.multiperiodinvestment in Ht.
    destruct (Hattr i o f Hin) as [iv Hiv]. rewrite Hiv in Ht. simpl in Ht.
    exists iv. split; [exact Hiv|]. now injection Ht. }
  split.
  { intros i o f Hin. apply (select_inv _ _ _ Efx) in Hin as [Hin Ht].
    split; [exact Hin|].
    destruct (item (Flow.fix_ f) 0); [discriminate|discriminate]. }
  split.
  { intros i o f Hin. apply (select_inv _ _ _ Enf) in Hin as [Hin Ht].
    split; [exact Hin|].
    destruct (item (Flow.fix_ f) 0); [discriminate|reflexivity]. }
  split.
  { intros i o f Hin. apply (select_inv _ _ _ Esmax) in Hin as [Hin Ht].
    destruct (Flow.summed_max f); [discriminate|discriminate]. }
  split.
  { intros i o f Hin. apply (select_inv _ _ _ Esmin) in Hin as [Hin Ht].
    destruct (Flow.summed_min f); [discriminate|discriminate]. }
  split.
  { intros i o f Hin. now apply (select_inv _ _ _ Emin) in Hin as [Hin _]. }
  split.
  { intros i o f Hin. apply (select_inv _ _ _ Eomax) in Hin as [Hin Ht].
    unfold blocks.MultiPeriodInvestmentFlow.multiperiodinvestment in Ht.
    destruct (Hattr i o f Hin) as [iv Hiv]. rewrite Hiv in Ht. simpl in Ht.
    exists iv. split; [exact Hiv|].
    destruct (Investment.overall_maximum iv); [discriminate|discriminate]. }
  { intros i o f Hin. apply (select_inv _ _ _ Eomin) in Hin as [Hin Ht].
    unfold blocks.MultiPeriodInvestmentFlow.multiperiodinvestment in Ht.
    destruct (Hattr i o f Hin) as [iv Hiv]. rewrite Hiv in Ht. simpl in Ht.
    exists iv. split; [exact Hiv|].
    destruct (Investment.overall_minimum iv); [discriminate|discriminate]. }
Qed.

(** A loop of the block over a set of flows and the time index that
    reads the total capacity and one sequence attribute of the flow
    returns when the periods exist and the attribute is set. *)
Lemma legacy_flow_bound_loop_ok (m : Model.t) (flows : group)
    (attr : Flow.t -> sequence)
    (mk : node -> node -> Z -> Z -> expr -> Q -> relation) :
  (forall i o f p t, In (i, o, f) flows -> In (p, t) (Model.TIMEINDEX m) ->
                     In p (Model.PERIODS m) /\ item (attr f) t <> None) ->
  exists c,
    for_each (fun '(i, o, f) =>
      for_each (fun '(p, t) =>
        tot <- blocks.MultiPeriodInvestmentFlow.v_total m i o p ;;
        x <- number (item (attr f) t) ;;
        Ok [([N i; N o; I p; I t], mk i o p t tot x)])
        (Model.TIMEINDEX m)) flows = Ok c.
Proof.
  intros H. apply for_each_ok. intros [[i o] f] Hin.
  apply for_each_ok. intros [p t] Hpt.
  destruct (H i o f p t Hin Hpt) as [Hp Hx].
  unfold blocks.MultiPeriodInvestmentFlow.v_total.
  rewrite (indexed_in _ _ _ _ _ Hp).
  cbn [bind]. destruct (item (attr f) t); [cbn; eauto|easy].
Qed.

Lemma legacy_total_over_periods_ok (m : Model.t) (i o : node) :
  exists e, blocks.MultiPeriodInvestmentFlow.total_over_periods m i o = Ok e.
Proof.
  unfold blocks.MultiPeriodInvestmentFlow.total_over_periods,
    blocks.MultiPeriodInvestmentFlow.v_total.
  rewrite (collected_ok (Model.PERIODS m) (total i o) i o (fun p => p))
    by auto.
  cbn. eauto.
Qed.

Lemma legacy_old_rule_ok (m : Model.t) (g : group) :
  (forall i o f, In (i, o, f) g ->
     exists iv l, Flow.multiperiodinvestment f = Some iv
                  /\ Investment.lifetime iv = Some l /\ 0 <= l) ->
  exists c, blocks.MultiPeriodInvestmentFlow._old_capacity_rule m g = Ok c.
Proof.
  intros H. apply for_each_ok. intros [[i o] f] Hin.
  destruct (H i o f Hin) as (iv & l & Hiv & Hl & Hl0).
  unfold blocks.MultiPeriodInvestmentFlow.multiperiodinvestment.
  rewrite Hiv. cbn [attr_of bind].
  apply for_each_ok. intros p Hp. rewrite Hl. cbn [number bind].
  pose proof (proj1 (in_PERIODS m p) Hp) as Hr.
  unfold blocks.MultiPeriodInvestmentFlow.v_old,
    blocks.MultiPeriodInvestmentFlow.v_invest.
  rewrite (indexed_in _ _ _ _ _ Hp).
  destruct (l <=? p) eqn:Elp.
  - rewrite indexed_in by (apply in_PERIODS; lia). cbn. eauto.
  - destruct (l - Investment.age iv =? p).
    + rewrite indexed_in by (apply in_PERIODS; lia). cbn. eauto.
    + cbn. eauto.
Qed.

(** The block of a group is created when its flows carry what the
    rules read. *)
Lemma legacy_create_ok (m : Model.t) (g : group) :
  Model.PERIODS m <> [] ->
  time_index_in_periods m -> legacy_investable m g ->
  exists s b,
    blocks.MultiPeriodInvestmentFlow.create_sets g = Ok s
    /\ blocks.MultiPeriodInvestmentFlow.create_constraints m s = Ok b
    /\ blocks.MultiPeriodInvestmentFlow._total_capacity_rule m g
       = Ok (blocks.MultiPeriodInvestmentFlow.total_rule b).
Proof.
  intros Hperiods Hti Hg.
  destruct (legacy_sets_exist g) as [s Hs].
  { intros i o f Hin. destruct (Hg i o f Hin) as (iv & l & -> & _).
    discriminate. }
  destruct (legacy_sets_inv g s Hs)
    as (Hall & Hnon & Hfixed & Hfree & Hsmax & Hsmin & Hmin & Homax & Homin).
  exists s.
  assert (E1 : exists c,
            blocks.MultiPeriodInvestmentFlow._min_invest_rule m s = Ok c).
  { apply for_each_ok. intros [[i o] f] Hin. apply for_each_ok. intros p Hp.
    apply Hnon in Hin as (Hin & iv & Hiv & Hnc).
    destruct (Hg i o f Hin) as (iv' & l & Hiv' & _ & _ & Hb & _).
    rewrite Hiv in Hiv'. injection Hiv' as <-.
    destruct (Hb Hnc p Hp) as [Hlo _].
    unfold blocks.MultiPeriodInvestmentFlow.multiperiodinvestment,
      blocks.MultiPeriodInvestmentFlow.v_invest_status,
      blocks.MultiPeriodInvestmentFlow.v_invest.
    rewrite Hiv, !(indexed_in _ _ _ _ _ Hp). simpl.
    destruct (item (Investment.minimum iv) p); [simpl; eauto|easy]. }
  destruct E1 as [c1 E1].
  assert (E2 : exists c,
            blocks.MultiPeriodInvestmentFlow._max_invest_rule m s = Ok c).
  { apply for_each_ok. intros [[i o] f] Hin. apply for_each_ok. intros p Hp.
    apply Hnon in Hin as (Hin & iv & Hiv & Hnc).
    destruct (Hg i o f Hin) as (iv' & l & Hiv' & _ & _ & Hb & _).
    rewrite Hiv in Hiv'. injection Hiv' as <-.
    destruct (Hb Hnc p Hp) as [_ Hhi].
    unfold blocks.MultiPeriodInvestmentFlow.multiperiodinvestment,
      blocks.MultiPeriodInvestmentFlow.v_invest_status,
      blocks.MultiPeriodInvestmentFlow.v_invest.
    rewrite Hiv, !(indexed_in _ _ _ _ _ Hp). simpl.
    destruct (item (Investment.maximum iv) p); [simpl; eauto|easy]. }
  destruct E2 as [c2 E2].
  destruct (legacy_total_rule m g) as (c3 & E3 & _).
  { intros i o f Hin. destruct (Hg i o f Hin) as (iv & l & -> & _).
    discriminate. }
  destruct (legacy_old_rule_ok m g) as [c4 E4].
  { intros i o f Hin. destruct (Hg i o f Hin) as (iv & l & Hiv & Hl & H0 & _).
    eauto. }
  destruct (legacy_flow_bound_loop_ok m
              (blocks.MultiPeriodInvestmentFlow.FIXED_MULTIPERIODINVESTFLOWS s)
              Flow.fix_
              (fun i o p t tot fx =>
                 Eq (Var (flow_pt i o p t)) (Mul tot (Num fx))))
    as [c5 E5].
  { intros i o f p t Hin Hpt. apply Hfixed in Hin as [Hin H0].
    split; [now apply (Hti p t)|].
    destruct (Hg i o f Hin) as (iv & l & _ & _ & _ & _ & Ht).
    now apply (Ht p t Hpt). }
  destruct (legacy_flow_bound_loop_ok m
              (blocks.MultiPeriodInvestmentFlow.NON_FIXED_MULTIPERIODINVESTFLOWS s)
              Flow.max
              (fun i o p t tot mx =>
                 Le (Var (flow_pt i o p t)) (Mul tot (Num mx))))
    as [c6 E6].
  { intros i o f p t Hin Hpt. apply Hfree in Hin as [Hin H0].
    split; [now apply (Hti p t)|].
    destruct (Hg i o f Hin) as (iv & l & _ & _ & _ & _ & Ht).
    now apply (Ht p t Hpt). }
  destruct (legacy_flow_bound_loop_ok m
              (blocks.MultiPeriodInvestmentFlow.MIN_MULTIPERIODINVESTFLOWS s)
              Flow.min
              (fun i o p t tot mn =>
                 Ge (Var (flow_pt i o p t)) (Mul tot (Num mn))))
    as [c7 E7].
  { intros i o f p t Hin Hpt. apply Hmin in Hin.
    split; [now apply (Hti p t)|].
    destruct (Hg i o f Hin) as (iv & l & _ & _ & _ & _ & Ht).
    now apply (Ht p t Hpt). }
  assert (E8 : exists c,
            blocks.MultiPeriodInvestmentFlow._summed_max_investflow_rule m s
            = Ok c).
  { apply for_each_ok. intros [[i o] f] Hin. apply Hsmax in Hin.
    destruct (legacy_total_over_periods_ok m i o) as [e ->]. cbn [bind].
    destruct (Flow.summed_max f); [cbn; eauto|easy]. }
  destruct E8 as [c8 E8].
  assert (E9 : exists c,
            blocks.MultiPeriodInvestmentFlow._summed_min_investflow_rule m s
            = Ok c).
  { apply for_each_ok. intros [[i o] f] Hin. apply Hsmin in Hin.
    destruct (legacy_total_over_periods_ok m i o) as [e ->]. cbn [bind].
    destruct (Flow.summed_min f); [cbn; eauto|easy]. }
  destruct E9 as [c9 E9].
  assert (E10 : exists c,
            blocks.MultiPeriodInvestmentFlow._overall_maximum_investflow_rule
              m s = Ok c).
  { apply for_each_ok. intros [[i o] f] Hin.
    apply Homax in Hin as (iv & Hiv & Hset).
    apply for_each_ok. intros p Hp.
    unfold blocks.MultiPeriodInvestmentFlow.v_total,
      blocks.MultiPeriodInvestmentFlow.multiperiodinvestment.
    rewrite (indexed_in _ _ _ _ _ Hp), Hiv. cbn [attr_of bind].
    destruct (Investment.overall_maximum iv); [cbn; eauto|easy]. }
  destruct E10 as [c10 E10].
  assert (E11 : exists c,
            blocks.MultiPeriodInvestmentFlow._overall_minimum_investflow_rule
              m s = Ok c).
  { apply for_each_ok. intros [[i o] f] Hin.
    apply Homin in Hin as (iv & Hiv & Hset).
    unfold blocks.MultiPeriodInvestmentFlow.multiperiodinvestment.
    rewrite Hiv. cbn [attr_of bind].
    destruct (last_of (Model.PERIODS m)) as [pl|] eqn:Elast.
    - cbn [bind]. unfold blocks.MultiPeriodInvestmentFlow.v_total.
      rewrite indexed_in.
      + cbn [bind].
        destruct (Investment.overall_minimum iv); [cbn; eauto|easy].
      + unfold last_of in Elast. apply in_rev.
        destruct (rev (Model.PERIODS m)); [discriminate|].
        injection Elast as ->. now left.
    - unfold last_of in Elast.
      destruct (rev (Model.PERIODS m)) eqn:Erev; [|discriminate].
      apply (f_equal (@rev Z)) in Erev. rewrite rev_involutive in Erev.
      now destruct Hperiods. }
  destruct E11 as [c11 E11].
  unfold blocks.MultiPeriodInvestmentFlow.create_constraints.
  unfold blocks.MultiPeriodInvestmentFlow._investflow_fixed_rule,
    blocks.MultiPeriodInvestmentFlow._max_investflow_rule,
    blocks.MultiPeriodInvestmentFlow._min_investflow_rule.
  rewrite E1, E2, Hall, E3, E4. cbn [bind].
  rewrite E5. cbn [bind]. rewrite E6. cbn [bind]. rewrite E7. cbn [bind].
  rewrite E8, E9, E10, E11. cbn [bind].
  eexists. split; [exact Hs|]. split; reflexivity.
Qed.

(** C1: for a group whose flows carry what the rules read, [_create]
    of [InvestmentFlowBlock] builds the block, and for every flow of
    the group and every period p the constraint [total_rule] of that
    block holds, under the key (i, o, p),
    total(0) == invest(0) + existing when p = 0 and
    total(p) == total(p-1) + invest(p) - old(p) when p > 0 (a standard
    model has only period 0, so [old] is never read).  [_create] of the
    [MultiPeriodInvestmentFlow] block of blocks.py does the same for
    its group, in a model that has a period. *)
Theorem total_capacity_rule_emits (m : Model.t) (g g' : group) :
  time_index_in_periods m ->
  periods_ready m g -> investable m g ->
  Model.PERIODS m <> [] -> legacy_investable m g' ->
  (exists s b,
      InvestmentFlowBlock._create m (Some g) = Ok (Some (s, b))
      /\ forall i o f iv p,
          In (i, o, f) g ->
          Flow.investment f = Some iv ->
          In p (Model.PERIODS m) ->
          emits_total_capacity (InvestmentFlowBlock.total_rule b)
            (Investment.existing iv) i o p)
  /\ (exists s b,
      blocks.MultiPeriodInvestmentFlow._create m (Some g') = Ok (Some (s, b))
      /\ forall i o f iv p,
          In (i, o, f) g' ->
          Flow.multiperiodinvestment f = Some iv ->
          In p (Model.PERIODS m) ->
          emits_total_capacity
            (blocks.MultiPeriodInvestmentFlow.total_rule b)
            (Investment.existing iv) i o p).
Proof.
  intros Hti Hready Hg Hperiods Hg'. split.
  - destruct (investment_create_ok m g Hready Hti Hg) as (s & b & Hs & Hb).
    exists s, b. split.
    { cbn [InvestmentFlowBlock._create]. rewrite Hs. cbn [bind].
      now rewrite Hb. }
    destruct (investment_sets_inv g s Hs) as (Hall & Hinv & _).
    destruct (create_constraints_inv m s b Hb) as (_ & _ & Htot & _).
    destruct (investment_total_rule m s) as (store & Hstore & Hemits).
    { intros i o f Hin. rewrite Hall in Hin. now apply (Hinv i o f). }
    { unfold periods_ready in Hready.
      destruct (EnergySystem.multi_period (Model.es m));
        [now left|right; lia]. }
    rewrite Hstore in Htot. injection Htot as ->.
    intros i o f iv p Hin. apply Hemits. now rewrite Hall.
  - destruct (legacy_create_ok m g' Hperiods Hti Hg')
      as (s & b & Hs & Hb & Htot).
    exists s, b. split.
    { cbn [blocks.MultiPeriodInvestmentFlow._create]. rewrite Hs.
      cbn [bind]. now rewrite Hb. }
    destruct (legacy_total_rule m g') as (store & Hstore & Hemits).
    { intros i o f Hin. destruct (Hg' i o f Hin) as (iv & l & -> & _).
      discriminate. }
    rewrite Hstore in Htot. injection Htot as ->.
    exact Hemits.
Qed.

Lemma ex_group_legacy_investable (m : Model.t) : legacy_investable m ex_group.
Proof.
  intros i o f [H|[]]. injection H as <- <- <-.
  exists ex_investment, 3. split; [reflexivity|]. split; [reflexivity|].
  split; [lia|]. split; [discriminate|]. intros p t _. cbn.
  repeat split; intros; first [discriminate|assumption].
Defined.

(** The theorem at the example model: one flow, five periods. *)
Lemma total_capacity_rule_emits_witness :
  (exists s b,
      InvestmentFlowBlock._create ex_model (Some ex_group) = Ok (Some (s, b))
      /\ forall i o f iv p,
          In (i, o, f) ex_group ->
          Flow.investment f = Some iv ->
          In p (Model.PERIODS ex_model) ->
          emits_total_capacity (InvestmentFlowBlock.total_rule b)
            (Investment.existing iv) i o p)
  /\ (exists s b,
      blocks.MultiPeriodInvestmentFlow._create ex_model (Some ex_group)
      = Ok (Some (s, b))
      /\ forall i o f iv p,
          In (i, o, f) ex_group ->
          Flow.multiperiodinvestment f = Some iv ->
          In p (Model.PERIODS ex_model) ->
          emits_total_capacity
            (blocks.MultiPeriodInvestmentFlow.total_rule b)
            (Investment.existing iv) i o p).
Proof.
  apply (total_capacity_rule_emits ex_model ex_group ex_group).
  - exact ex_model_time_index.
  - exact ex_group_periods_ready.
  - exact (ex_group_investable ex_model).
  - discriminate.
  - exact (ex_group_legacy_investable ex_model).
Defined.

(** The block that blocks.py creates for the example group: its
    constraint [total_rule] in the first two periods. *)
Example ex_legacy_created_total_rule :
  exists s b,
    blocks.MultiPeriodInvestmentFlow._create ex_model (Some ex_group)
    = Ok (Some (s, b))
    /\ firstn 2 (blocks.MultiPeriodInvestmentFlow.total_rule b)
       = [([N "source"; N "bus"; I 0],
           Eq (Var (total "source" "bus" 0))
              (Add (Var (invest "source" "bus" 0)) (Num 10)));
          ([N "source"; N "bus"; I 1],
           Eq (Var (total "source" "bus" 1))
              (Sub (Add (Var (invest "source" "bus" 1))
                        (Var (total "source" "bus" 0)))
                   (Var (old "source" "bus" 1))))].
Proof. eexists. eexists. split; reflexivity. Qed.
